(** * Verification model of [quorum-lab/benchmark.py]

    A shallow embedding of the workload scheduler, the receipt collector
    pool and the statistics engine of the benchmark script.

    Conventions.
    - A Python [str] is a list of characters ([pystr]); characters are the
      code points below 256.
    - A Python [float] is a [pyfloat]: a rational, or one of the special
      values [inf], [-inf], [nan].  [float()] and the division of
      [parse_phase_spec] round to binary64 ([round64]); the sums and
      differences of clock readings and the statistics are exact.
    - Readings of [time.perf_counter()] and latencies are finite, hence
      plain rationals ([Q]).
    - A raised exception is a value of [exn]; a computation that may raise
      returns a [result].
    - A call into web3 or the file system is a [reply] that the node, the
      library or the system determines: they are the variables of the
      sections that model such code. *)

From Stdlib Require Import Ascii QArith Qround Qabs Qpower Lqa.
From Stdlib Require String DecimalString DecimalFacts DecimalZ.
From stdpp Require Import gmap strings list sorting.

Local Open Scope Z_scope.

(** ** Exceptions and results *)

Abbreviation pystr := (list ascii).

(** [str "abc"] is the Python literal ['abc']. *)
Definition str (s : string) : pystr := String.list_ascii_of_string s.

Inductive exn : Type :=
| ValueError (msg : pystr)
| ZeroDivisionError
| IndexError
| StatisticsError
| OverflowError.

Inductive result (A : Type) : Type :=
| Ok (a : A)
| Raise (e : exn).
Arguments Ok {A} a.
Arguments Raise {A} e.

Definition bind {A B : Type} (m : result A) (k : A -> result B) : result B :=
  match m with
  | Ok a => k a
  | Raise e => Raise e
  end.

#[global] Instance result_ret : MRet result := @Ok.
#[global] Instance result_bind : MBind result := fun A B k m => bind m k.

(** ** Python floats *)

#[global] Instance Qle_dec : RelDecision Qle :=
  fun x y => Z.le_dec (Qnum x * QDen y) (Qnum y * QDen x).

#[global] Instance Qlt_dec : RelDecision Qlt :=
  fun x y => Z.lt_dec (Qnum x * QDen y) (Qnum y * QDen x).

Inductive pyfloat : Type :=
| Fin (q : Q)
| PosInf
| NegInf
| NaN.

(** [x <= 0] on floats: a comparison with [nan] is false. *)
Definition fle0 (x : pyfloat) : bool :=
  match x with
  | Fin q => Qle_bool q 0
  | NegInf => true
  | PosInf | NaN => false
  end.

(** [2 ^ e] for an exponent of either sign. *)
Definition pow2 (e : Z) : Q := (2 ^ e)%Q.

(** The integer part of the binary logarithm of [q > 0]: it is the
    difference of those of numerator and denominator, or one less. *)
Definition floor_log2 (q : Q) : Z :=
  let e := Z.log2 (Qnum q) - Z.log2 (Z.pos (Qden q)) in
  if Qle_bool (pow2 e) q then e else e - 1.

(** The integer nearest to [q]; of two that are equally near, the even
    one. *)
Definition round_half_even (q : Q) : Z :=
  let f := Qfloor q in
  match (q - inject_Z f ?= 1 # 2)%Q with
  | Lt => f
  | Gt => f + 1
  | Eq => if Z.even f then f else f + 1
  end.

(** The spacing of the binary64 numbers around [a > 0]: 53 significant
    bits down to the exponent -1022, the spacing [2 ^ -1074] of the
    subnormal numbers below. *)
Definition ulp64 (a : Q) : Q := pow2 (Z.max (floor_log2 a) (-1022) - 52).

(** The binary64 number nearest to [q], ties to even: [inf] or [-inf]
    when that is [2 ^ 1024] or more in magnitude.  (The sign of a zero is
    not kept.) *)
Definition round64 (q : Q) : pyfloat :=
  if Qeq_bool q 0 then Fin 0
  else
    let a := Qabs q in
    let v := (inject_Z (round_half_even (a / ulp64 a)) * ulp64 a)%Q in
    if Qle_bool (pow2 1024) v then (if Qle_bool 0 q then PosInf else NegInf)
    else Fin (Qred (if Qle_bool 0 q then v else - v)).

(** [1.0 / x]: raises [ZeroDivisionError] on a zero divisor; the quotient
    is rounded. *)
Definition frecip (x : pyfloat) : result pyfloat :=
  match x with
  | Fin q => if Qeq_bool q 0 then Raise ZeroDivisionError else Ok (round64 (/ q))
  | PosInf | NegInf => Ok (Fin 0)
  | NaN => Ok NaN
  end.

Definition fneg (x : pyfloat) : pyfloat :=
  match x with
  | Fin q => Fin (- q)
  | PosInf => NegInf
  | NegInf => PosInf
  | NaN => NaN
  end.

(** [x + y] *)
Definition fadd (x y : pyfloat) : pyfloat :=
  match x, y with
  | Fin p, Fin q => Fin (p + q)
  | NaN, _ | _, NaN => NaN
  | PosInf, NegInf | NegInf, PosInf => NaN
  | PosInf, _ | _, PosInf => PosInf
  | NegInf, _ | _, NegInf => NegInf
  end.

(** [x - y] *)
Definition fsub (x y : pyfloat) : pyfloat := fadd x (fneg y).

(** [x > y]: false when either side is [nan]. *)
Definition fgt (x y : pyfloat) : bool :=
  match x, y with
  | Fin p, Fin q => bool_decide (q < p)%Q
  | PosInf, Fin _ | PosInf, NegInf | Fin _, NegInf => true
  | _, _ => false
  end.

(** [max(x, y)]: the first argument unless the second is greater. *)
Definition fmax (x y : pyfloat) : pyfloat := if fgt y x then y else x.

(** Numeric equality of floats ([==] of Python; [nan] equals nothing). *)
Definition feq (x y : pyfloat) : Prop :=
  match x, y with
  | Fin p, Fin q => (p == q)%Q
  | PosInf, PosInf => True
  | NegInf, NegInf => True
  | _, _ => False
  end.

(** ** String primitives *)

Definition code (c : ascii) : nat := nat_of_ascii c.

(** [str.isspace] on one character. *)
Definition is_space (c : ascii) : bool :=
  let n := code c in
  ((9 <=? n) && (n <=? 13) || (28 <=? n) && (n <=? 32) || (n =? 133) || (n =? 160))%nat.

(** [str.lower] on one character (ASCII and Latin-1 capitals). *)
Definition lower_char (c : ascii) : ascii :=
  let n := code c in
  if ((65 <=? n) && (n <=? 90) || (192 <=? n) && (n <=? 222) && negb (n =? 215))%nat
  then ascii_of_nat (n + 32)
  else c.

Definition lower (s : pystr) : pystr := map lower_char s.

Fixpoint lstrip (s : pystr) : pystr :=
  match s with
  | c :: s' => if is_space c then lstrip s' else s
  | [] => []
  end.

Definition rstrip (s : pystr) : pystr := rev (lstrip (rev s)).

(** [s.strip()] *)
Definition strip (s : pystr) : pystr := rstrip (lstrip s).

Definition ascii_eqb (a b : ascii) : bool := (code a =? code b)%nat.

(** The blanks that [int()] and [float()] skip around a literal: those
    of [str.isspace] but the separators U+001C to U+001F. *)
Definition is_blank (c : ascii) : bool :=
  let n := code c in
  ((9 <=? n) && (n <=? 13) || (n =? 32) || (n =? 133) || (n =? 160))%nat.

Fixpoint skip_blanks (s : pystr) : pystr :=
  match s with
  | c :: s' => if is_blank c then skip_blanks s' else s
  | [] => []
  end.

(** The text between the leading and the trailing blanks. *)
Definition unblank (s : pystr) : pystr := rev (skip_blanks (rev (skip_blanks s))).

Fixpoint startswith (s p : pystr) : bool :=
  match p, s with
  | [], _ => true
  | a :: p', b :: s' => ascii_eqb a b && startswith s' p'
  | _ :: _, [] => false
  end.

(** [s.endswith(suffix)] *)
Definition endswith (s suffix : pystr) : bool := startswith (rev s) (rev suffix).

(** [s[:-n]] for [n > 0] *)
Definition drop_last (n : nat) (s : pystr) : pystr := take (length s - n) s.

Definition at_sign : ascii := "@"%char.

(** ["@" in s] *)
Definition contains_at (s : pystr) : bool := existsb (ascii_eqb at_sign) s.

(** [s.split("@", 1)] for a string that holds the separator: the text
    before the first ["@"] and the text after it. *)
Fixpoint split_at (s : pystr) : pystr * pystr :=
  match s with
  | c :: s' =>
      if ascii_eqb at_sign c then ([], s')
      else let '(a, b) := split_at s' in (c :: a, b)
  | [] => ([], [])
  end.

(** ** The literal grammars of [int()] and [float()] *)

Definition digit_of (c : ascii) : option Z :=
  let n := code c in
  if ((48 <=? n) && (n <=? 57))%nat then Some (Z.of_nat n - 48) else None.

Definition is_underscore (c : ascii) : bool := ascii_eqb "_"%char c.

(** The rest of a [digitpart ::= digit (["_"] digit)*] once its first
    digit is read: the value so far, the number of digits, the unread
    text.  An underscore is read only between two digits. *)
Fixpoint digits_tail (acc : Z) (k : nat) (s : pystr) {struct s} : Z * nat * pystr :=
  match s with
  | c :: s' =>
      match digit_of c with
      | Some d => digits_tail (10 * acc + d) (S k) s'
      | None =>
          if is_underscore c then
            match s' with
            | c' :: s'' =>
                match digit_of c' with
                | Some d => digits_tail (10 * acc + d) (S k) s''
                | None => (acc, k, s)
                end
            | [] => (acc, k, s)
            end
          else (acc, k, s)
      end
  | [] => (acc, k, [])
  end.

Definition digitpart (s : pystr) : option (Z * nat * pystr) :=
  match s with
  | c :: s' =>
      match digit_of c with
      | Some d => Some (digits_tail d 1 s')
      | None => None
      end
  | [] => None
  end.

(** An optional sign: [true] for ["-"]. *)
Definition read_sign (s : pystr) : bool * pystr :=
  match s with
  | c :: s' =>
      if ascii_eqb "-"%char c then (true, s')
      else if ascii_eqb "+"%char c then (false, s')
      else (false, s)
  | [] => (false, [])
  end.

(** [sys.get_int_max_str_digits()], by default. *)
Definition int_max_str_digits : nat := 4300.

(** [int(s)] in base ten; [None] stands for [ValueError].  The text is
    blanks, an optional sign, a [digitpart], blanks; a literal of more
    digits than the interpreter's limit is refused. *)
Definition py_int (s : pystr) : option Z :=
  let '(neg, body) := read_sign (unblank s) in
  match digitpart body with
  | Some (v, k, []) =>
      if (int_max_str_digits <? k)%nat then None else Some (if neg then - v else v)
  | _ => None
  end.

(** [m * 10 ^ e] as a rational. *)
Definition scale10 (m e : Z) : Q :=
  if 0 <=? e then inject_Z (m * 10 ^ e)
  else Qred (Qmake m (Z.to_pos (10 ^ (- e)))).

Definition is_exp_mark (c : ascii) : bool := ascii_eqb "e"%char (lower_char c).

(** The exponent of a [floatnumber], which must end the text. *)
Definition read_exponent (s : pystr) : option Z :=
  match s with
  | [] => Some 0
  | c :: s' =>
      if is_exp_mark c then
        let '(neg, body) := read_sign s' in
        match digitpart body with
        | Some (e, _, []) => Some (if neg then - e else e)
        | _ => None
        end
      else None
  end.

(** The optional integer part of a [floatnumber]: its value, whether
    it is there, the unread text. *)
Definition read_int_part (s : pystr) : Z * bool * pystr :=
  match digitpart s with
  | Some (v, _, r) => (v, true, r)
  | None => (0, false, s)
  end.

(** The optional ["."] and fraction digits: their value, how many, whether
    a digit is there, the unread text. *)
Definition read_fraction (r : pystr) : Z * nat * bool * pystr :=
  match r with
  | c :: r' =>
      if ascii_eqb "."%char c then
        match digitpart r' with
        | Some (v, k, r'') => (v, k, true, r'')
        | None => (0, O, false, r')
        end
      else (0, O, false, r)
  | [] => (0, O, false, r)
  end.

(** [floatnumber ::= ([digitpart] "." digitpart | digitpart ["."]) [exponent]] *)
Definition float_number (s : pystr) : option Q :=
  let '(ip, has_int, r) := read_int_part s in
  let '(fp, k, has_frac, r) := read_fraction r in
  if has_int || has_frac then
    match read_exponent r with
    | Some e => Some (scale10 (ip * 10 ^ Z.of_nat k + fp) (e - Z.of_nat k))
    | None => None
    end
  else None.

Definition pystr_eqb (a b : pystr) : bool := bool_decide (a = b).

(** [float(s)]; [None] stands for [ValueError].  The text is blanks, an
    optional sign, then [inf], [infinity] or [nan] in any case or a
    [floatnumber], blanks.  A [floatnumber] denotes the binary64 number
    nearest to its value: a literal too large denotes [inf], one too
    small zero. *)
Definition py_float (s : pystr) : option pyfloat :=
  let '(neg, body) := read_sign (unblank s) in
  let word := lower body in
  if pystr_eqb word (str "inf") || pystr_eqb word (str "infinity")
  then Some (if neg then NegInf else PosInf)
  else if pystr_eqb word (str "nan") then Some NaN
  else match float_number body with
       | Some q => Some (round64 (if neg then (- q)%Q else q))
       | None => None
       end.

(** ** Phase plan: [parse_phase_spec] *)

Record phase_spec : Type := PhaseSpec {
  ps_count : Z;
  ps_tps : pyfloat;
  ps_interval : pyfloat
}.

Definition msg_invalid_spec (spec : pystr) : pystr :=
  str "Invalid phase specification '" ++ spec
    ++ str "'. Expected format COUNT@RATE (e.g. 6000@2tps).".

Definition msg_bad_count (count_part : pystr) : pystr :=
  str "Phase count must be an integer, received '" ++ count_part ++ str "'.".

Definition msg_bad_tps (rate_part : pystr) : pystr :=
  str "Unable to parse TPS value from '" ++ rate_part ++ str "'.".

Definition msg_bad_interval (rate_part : pystr) : pystr :=
  str "Unable to parse interval seconds from '" ++ rate_part ++ str "'.".

Definition msg_bad_suffix (rate_part : pystr) : pystr :=
  str "Unknown rate suffix in '" ++ rate_part
    ++ str "'. Use values like '2tps' or '0.5s'.".

Definition msg_tps_not_positive : pystr := str "Phase TPS must be greater than zero.".

Definition msg_interval_not_positive : pystr :=
  str "Phase interval must be greater than zero seconds.".

Definition parse_phase_spec (spec : pystr) : result phase_spec :=
  if negb (contains_at spec) then Raise (ValueError (msg_invalid_spec spec))
  else
    let '(count_part, rate_part) := split_at spec in
    match py_int count_part with
    | None => Raise (ValueError (msg_bad_count count_part))
    | Some count =>
        let rate_str := lower (strip rate_part) in
        if endswith rate_str (str "tps") then
          match py_float (drop_last 3 rate_str) with
          | None => Raise (ValueError (msg_bad_tps rate_part))
          | Some tps =>
              if fle0 tps then Raise (ValueError msg_tps_not_positive)
              else
                interval ← frecip tps;
                Ok (PhaseSpec count tps interval)
          end
        else if endswith rate_str (str "s") then
          match py_float (drop_last 1 rate_str) with
          | None => Raise (ValueError (msg_bad_interval rate_part))
          | Some interval =>
              if fle0 interval then Raise (ValueError msg_interval_not_positive)
              else
                tps ← frecip interval;
                Ok (PhaseSpec count tps interval)
          end
        else Raise (ValueError (msg_bad_suffix rate_part))
    end.

(** ** Statistics engine *)

(** [sorted(values)] *)
Definition sorted (values : list Q) : list Q := merge_sort Qle values.

Definition Qsum (l : list Q) : Q := foldr Qplus 0%Q l.

Definition Qlen (l : list Q) : Q := inject_Z (Z.of_nat (length l)).

(** [statistics.mean(data)] *)
Definition mean (data : list Q) : result Q :=
  match data with
  | [] => Raise StatisticsError
  | _ => Ok (Qsum data / Qlen data)%Q
  end.

(** [max(values)]: the first of the largest elements. *)
Definition py_max (values : list Q) : result Q :=
  match values with
  | [] => Raise (ValueError (str "max() arg is an empty sequence"))
  | x :: rest => Ok (fold_left (fun m y => if decide (m < y)%Q then y else m) rest x)
  end.

(** [max(0, math.ceil(fraction * n) - 1)] *)
Definition rank_index (fraction : Q) (n : nat) : Z :=
  Z.max 0 (Qceiling (fraction * inject_Z (Z.of_nat n)) - 1).

(** [ordered[index]] for a non-negative index. *)
Definition item_at {A : Type} (l : list A) (index : Z) : result A :=
  match l !! Z.to_nat index with
  | Some v => Ok v
  | None => Raise IndexError
  end.

Definition percentile (values : list Q) (fraction : Q) : result Q :=
  match values with
  | [] => Raise (ValueError (str "Cannot compute percentile of empty list"))
  | _ =>
      let ordered := sorted values in
      let index := rank_index fraction (length ordered) in
      item_at ordered index
  end.

(** The dictionary of the four statistics; a statistic may be [None]
    (the no-data entry of the per-phase breakdown). *)
Record latency_stats : Type := LatencyStats {
  st_avg : option Q;
  st_p95 : option Q;
  st_max : option Q;
  st_count : nat
}.

Definition p95_fraction : Q := 95 # 100.

Definition calculate_latency_stats (latencies : list Q) : result (option latency_stats) :=
  match latencies with
  | [] => Ok None
  | _ =>
      avg_latency ← mean latencies;
      p95_latency ← percentile latencies p95_fraction;
      max_latency ← py_max latencies;
      Ok (Some (LatencyStats (Some avg_latency) (Some p95_latency)
                             (Some max_latency) (length latencies)))
  end.

(** ** Result rows *)

Record row : Type := Row {
  r_index : nat;
  r_account : string;
  r_tx_hash : option string;
  r_status : Z;
  r_gas_used : option Z;
  r_latency_sec : option Q;
  r_token_id : option Z;
  r_proposal_id : option Z;
  r_labels : string;
  r_phase : option string;
  r_submitted_sec : Q;
  r_completed_sec : option Q;
  r_error : option pystr
}.

Record phase_entry : Type := PhaseEntry {
  pe_count : Z;
  pe_tps : pyfloat;
  pe_interval : pyfloat;
  pe_label : string
}.

(** Truth value of an optional string: [None] and [""] are false. *)
Definition truthy_label (l : option string) : option string :=
  match l with
  | Some s => if decide (s = String.EmptyString) then None else Some s
  | None => None
  end.

(** Truth value of [phase_plan]: [None] and [[]] are false. *)
Definition plan_entries (phase_plan : option (list phase_entry)) : list phase_entry :=
  default [] phase_plan.

Definition truthy_plan (phase_plan : option (list phase_entry)) : bool :=
  match plan_entries phase_plan with
  | [] => false
  | _ => true
  end.

(** [phase_latencies.setdefault(label, []).append(v)] *)
Definition bucket_append (label : string) (v : Q)
    (m : gmap string (list Q)) : gmap string (list Q) :=
  <[label := default [] (m !! label) ++ [v]]> m.

(** One turn of the loop over [results] in [collect_latency_breakdown]. *)
Definition breakdown_step (phase_plan : option (list phase_entry))
    (acc : list Q * gmap string (list Q)) (r : row) : list Q * gmap string (list Q) :=
  match r_latency_sec r with
  | None => acc
  | Some latency_val =>
      let overall := acc.1 ++ [latency_val] in
      match truthy_label (r_phase r) with
      | Some phase_label =>
          if truthy_plan phase_plan
          then (overall, bucket_append phase_label latency_val acc.2)
          else (overall, acc.2)
      | None => (overall, acc.2)
      end
  end.

Definition no_data : latency_stats := LatencyStats None None None 0.

(** One turn of the loop over [phase_plan]. *)
Definition phase_stats_step (phase_latencies : gmap string (list Q))
    (acc : result (gmap string latency_stats)) (entry : phase_entry)
    : result (gmap string latency_stats) :=
  phase_stats ← acc;
  stats ← calculate_latency_stats (default [] (phase_latencies !! pe_label entry));
  Ok (<[pe_label entry := default no_data stats]> phase_stats).

Definition collect_latency_breakdown (results : list row)
    (phase_plan : option (list phase_entry))
    : result (option latency_stats * gmap string latency_stats) :=
  let '(overall_latencies, phase_latencies) :=
    fold_left (breakdown_step phase_plan) results ([], ∅) in
  overall_stats ← calculate_latency_stats overall_latencies;
  phase_stats ← fold_left (phase_stats_step phase_latencies)
                          (plan_entries phase_plan) (Ok ∅);
  Ok (overall_stats, phase_stats).

(** ** The summary computed in [main] *)

(** Truth value of [row["latency_sec"]]: [None] and [0.0] are false. *)
Definition truthy_latency (r : row) : bool :=
  match r_latency_sec r with
  | Some q => negb (Qeq_bool q 0)
  | None => false
  end.

(** [[row["latency_sec"] for row in results if row["latency_sec"]]] *)
Definition success_latencies (results : list row) : list Q :=
  omap (fun r => if truthy_latency r then r_latency_sec r else None) results.

(** [sum(1 for row in results if row["status"] == 1)] *)
Definition success_count (results : list row) : nat :=
  length (filter (fun r => r_status r = 1) results).

(** [a / b] on numbers. *)
Definition truediv (a b : Q) : result Q :=
  if Qeq_bool b 0 then Raise ZeroDivisionError else Ok (a / b)%Q.

(** [success_count / duration if duration > 0 else 0.0] *)
Definition tps_estimate (successes : nat) (duration : Q) : result Q :=
  if decide (0 < duration)%Q then truediv (inject_Z (Z.of_nat successes)) duration
  else Ok 0%Q.

(** [sorted_latencies[-1]] *)
Definition last_item (l : list Q) : result Q :=
  match last l with
  | Some v => Ok v
  | None => Raise IndexError
  end.

Record latency_summary : Type := LatencySummary {
  ls_avg : Q;
  ls_p95 : Q;
  ls_max : Q
}.

(** The block guarded by [if success_latencies:]. *)
Definition summary_latency (results : list row) : result (option latency_summary) :=
  let latencies := success_latencies results in
  match latencies with
  | [] => Ok None
  | _ =>
      avg_latency ← mean latencies;
      let sorted_latencies := sorted latencies in
      let p95_index := rank_index p95_fraction (length sorted_latencies) in
      p95_latency ← item_at sorted_latencies p95_index;
      max_latency ← last_item sorted_latencies;
      Ok (Some (LatencySummary avg_latency p95_latency max_latency))
  end.

Record summary : Type := Summary {
  sm_tx_count : nat;
  sm_success : nat;
  sm_failed : nat;
  sm_duration : Q;
  sm_tps : Q;
  sm_latency : option latency_summary
}.

Definition main_summary (results : list row) (duration : Q) : result summary :=
  let successes := success_count results in
  let failures := (length results - successes)%nat in
  tps ← tps_estimate successes duration;
  latency ← summary_latency results;
  Ok (Summary (length results) successes failures duration tps latency).

(** ** Schedule of the phased run *)

Record sched_item : Type := SchedItem {
  si_index : nat;
  si_account : string;
  si_interval : pyfloat;
  si_phase : string
}.

(** [sum(entry["count"] for entry in phase_plan)] *)
Definition total_required (phase_plan : list phase_entry) : Z :=
  foldr (fun entry acc => pe_count entry + acc) 0 phase_plan.

(** The body of [for _ in range(count)], run [n] times on the pair
    [(schedule, voter_index)]; [voters[voter_index]] may raise. *)
Fixpoint expand_phase (voters : list string) (entry : phase_entry) (n : nat)
    (acc : list sched_item * nat) : result (list sched_item * nat) :=
  match n with
  | O => Ok acc
  | S n' =>
      let '(schedule, voter_index) := acc in
      match voters !! voter_index with
      | None => Raise IndexError
      | Some account =>
          expand_phase voters entry n'
            (schedule ++ [SchedItem voter_index account (pe_interval entry) (pe_label entry)],
             S voter_index)
      end
  end.

Definition show_Z (z : Z) : pystr := str (DecimalString.NilZero.string_of_int (Z.to_int z)).

Definition msg_too_few_voters (required : Z) (available : nat) : pystr :=
  str "Phase configuration requires " ++ show_Z required
    ++ str " voters but only " ++ show_Z (Z.of_nat available) ++ str " were provided".

Definition build_schedule (voters : list string) (phase_plan : list phase_entry)
    : result (list sched_item) :=
  if decide (Z.of_nat (length voters) < total_required phase_plan)
  then Raise (ValueError (msg_too_few_voters (total_required phase_plan) (length voters)))
  else
    acc ← fold_left
             (fun acc entry => st ← acc; expand_phase voters entry (Z.to_nat (pe_count entry)) st)
             phase_plan (Ok ([], O));
    Ok acc.1.

(** ** The submitter *)

(** What the queue carries from the submitter to a collector.  A
    transaction hash is identified with its hexadecimal text. *)
Record submission : Type := Submission {
  sb_index : nat;
  sb_account : string;
  sb_tx_hash : string;
  sb_start_time : Q;
  sb_submission_time : Q;
  sb_phase : option string
}.

(** [transact(...)] returns a hash or raises; [Rejected] carries [str(exc)]. *)
Inductive transact_result : Type :=
| Sent (tx_hash : string)
| Rejected (exc : pystr).

(** What one turn of the submitter loop observes of its environment:
    the clock readings, in program order, and the outcome of [transact]. *)
Record submit_obs : Type := SubmitObs {
  ob_now : Q;
  ob_start : Q;
  ob_transact : transact_result;
  ob_submitted : Q;
  ob_finally : Q
}.

(** The one access of a turn to the shared state: [submission_queue.put]
    or [results.append] under [results_lock]. *)
Inductive action : Type :=
| Enqueue (s : submission)
| Append (r : row).

Section Run.

Context (label_string : string) (start_overall : Q).

(** The row of the [except Exception as exc] branch of the submitter. *)
Definition failure_row (index : nat) (account : string) (phase : option string)
    (submission_time : Q) (exc : pystr) : row :=
  {| r_index := index;
     r_account := account;
     r_tx_hash := None;
     r_status := 0;
     r_gas_used := None;
     r_latency_sec := None;
     r_token_id := None;
     r_proposal_id := None;
     r_labels := label_string;
     r_phase := phase;
     r_submitted_sec := (submission_time - start_overall)%Q;
     r_completed_sec := None;
     r_error := Some exc |}.

(** The [try]/[except] statement shared by both submitters. *)
Definition submit_call (index : nat) (account : string) (phase : option string)
    (ob : submit_obs) : action :=
  match ob_transact ob with
  | Sent tx_hash =>
      Enqueue (Submission index account tx_hash (ob_start ob) (ob_submitted ob) phase)
  | Rejected exc =>
      Append (failure_row index account phase (ob_submitted ob) exc)
  end.

(** [execute_sequential_benchmark]: the loop over [enumerate(voters)]. *)
Definition sequential_actions (voters : list string) (obs : nat -> submit_obs)
    : list action :=
  imap (fun index voter => submit_call index voter None (obs index)) voters.

(** The argument of [time.sleep] when the pacing test calls it. *)
Definition pacing_sleep (index : nat) (next_emit_time : pyfloat) (now : Q)
    : option pyfloat :=
  if decide (0 < index)%nat then
    let sleep_duration := fsub next_emit_time (Fin now) in
    if fgt sleep_duration (Fin 0) then Some sleep_duration else None
  else None.

(** The [finally] clause. *)
Definition advance_deadline (next_emit_time interval : pyfloat) (now : Q) : pyfloat :=
  fmax (fadd next_emit_time interval) (Fin now).

(** [time.sleep(secs)].  The pause is converted to a whole number of
    nanoseconds, rounded away from zero, that must fit a signed 64-bit
    integer: [OverflowError] otherwise, so for [inf] and for every pause
    above some 9.2e9 seconds.  [nan] and negative pauses are refused with
    a [ValueError]. *)
Definition time_sleep (secs : pyfloat) : result () :=
  match secs with
  | NaN => Raise (ValueError (str "Invalid value NaN (not a number)"))
  | PosInf | NegInf => Raise OverflowError
  | Fin q =>
      let ns := (q * inject_Z (10 ^ 9))%Q in
      let timeout := if Qle_bool 0 q then Qceiling ns else Qfloor ns in
      if (timeout <? - 2 ^ 63) || (2 ^ 63 <=? timeout) then Raise OverflowError
      else if timeout <? 0 then Raise (ValueError (str "sleep length must be non-negative"))
      else Ok ()
  end.

(** The exception of a turn's [time.sleep], if it is called and raises. *)
Definition sleep_error (sleep : option pyfloat) : option exn :=
  match sleep with
  | Some secs =>
      match time_sleep secs with
      | Raise e => Some e
      | Ok _ => None
      end
  | None => None
  end.

(** One turn: the pause it asks of [time.sleep], if any; the exception
    that this call raises, which is not caught and ends the loop and the
    function; and, for a turn whose sleep returns, its access to the
    shared state and the deadline it leaves. *)
Record iteration : Type := Iteration {
  it_sleep : option pyfloat;
  it_raised : option exn;
  it_action : action;
  it_next_emit_time : pyfloat
}.

(** One turn of [for index, item in enumerate(schedule)]. *)
Definition phased_iteration (next_emit_time : pyfloat) (index : nat)
    (item : sched_item) (ob : submit_obs) : iteration :=
  let sleep := pacing_sleep index next_emit_time (ob_now ob) in
  {| it_sleep := sleep;
     it_raised := sleep_error sleep;
     it_action := submit_call (si_index item) (si_account item) (Some (si_phase item)) ob;
     it_next_emit_time := advance_deadline next_emit_time (si_interval item) (ob_finally ob) |}.

(** The turns of the loop, each as it goes if the loop gets there. *)
Fixpoint phased_loop (next_emit_time : pyfloat) (index : nat)
    (schedule : list sched_item) (obs : nat -> submit_obs) : list iteration :=
  match schedule with
  | [] => []
  | item :: rest =>
      let it := phased_iteration next_emit_time index item (obs index) in
      it :: phased_loop (it_next_emit_time it) (S index) rest obs
  end.

(** [execute_phased_benchmark]: the loop, started with
    [next_emit_time = start_overall]. *)
Definition phased_iterations (schedule : list sched_item) (obs : nat -> submit_obs)
    : list iteration :=
  phased_loop (Fin start_overall) O schedule obs.

(** What the submitter gets done: the accesses of its turns up to the
    first one whose sleep raises, and that exception. *)
Fixpoint submitted (its : list iteration) : list action * option exn :=
  match its with
  | [] => ([], None)
  | it :: rest =>
      match it_raised it with
      | Some e => ([], Some e)
      | None => let '(actions, raised) := submitted rest in (it_action it :: actions, raised)
      end
  end.

(** [execute_phased_benchmark] raises [e]: a sleep of its loop does. *)
Definition phased_raises (schedule : list sched_item) (obs : nat -> submit_obs)
    (e : exn) : Prop :=
  (submitted (phased_iterations schedule obs)).2 = Some e.

(** ** The collector pool *)

(** What [wait_for_transaction_receipt] and the decoding yield. *)
Inductive receipt_outcome : Type :=
| Receipt (completion_time : Q) (status : Z) (gas_used token_id proposal_id : option Z)
| TimeExhausted
| FetchError (exc : pystr).

(** The row a worker builds for a dequeued item. *)
Definition worker_row (item : submission) (oc : receipt_outcome) : row :=
  let submitted := (sb_submission_time item - start_overall)%Q in
  match oc with
  | Receipt completion_time status gas_used token_id proposal_id =>
      {| r_index := sb_index item;
         r_account := sb_account item;
         r_tx_hash := Some (sb_tx_hash item);
         r_status := status;
         r_gas_used := gas_used;
         r_latency_sec := Some (completion_time - sb_start_time item)%Q;
         r_token_id := token_id;
         r_proposal_id := proposal_id;
         r_labels := label_string;
         r_phase := sb_phase item;
         r_submitted_sec := submitted;
         r_completed_sec := Some (completion_time - start_overall)%Q;
         r_error := None |}
  | TimeExhausted =>
      {| r_index := sb_index item;
         r_account := sb_account item;
         r_tx_hash := Some (sb_tx_hash item);
         r_status := 0;
         r_gas_used := None;
         r_latency_sec := None;
         r_token_id := None;
         r_proposal_id := None;
         r_labels := label_string;
         r_phase := sb_phase item;
         r_submitted_sec := submitted;
         r_completed_sec := None;
         r_error := None |}
  | FetchError exc =>
      {| r_index := sb_index item;
         r_account := sb_account item;
         r_tx_hash := Some (sb_tx_hash item);
         r_status := 0;
         r_gas_used := None;
         r_latency_sec := None;
         r_token_id := None;
         r_proposal_id := None;
         r_labels := label_string;
         r_phase := sb_phase item;
         r_submitted_sec := submitted;
         r_completed_sec := None;
         r_error := Some exc |}
  end.

(** A worker thread: waiting on [submission_queue.get()], holding an
    item, or past its [break]. *)
Inductive wstate : Type :=
| Idle
| Busy (item : submission)
| Done.

(** The threads and the two shared objects.  [todo] is what the submitter
    has still to do, [sentinels] the [None] markers it has still to put. *)
Record sys : Type := Sys {
  todo : list action;
  sentinels : nat;
  queue : list (option submission);
  workers : list wstate;
  results : list row
}.

(** [max(1, args.receipt_workers)] *)
Definition worker_count (receipt_workers : Z) : nat := Z.to_nat (Z.max 1 receipt_workers).

Definition init (actions : list action) (receipt_workers : Z) : sys :=
  let n := worker_count receipt_workers in
  Sys actions n [] (replicate n Idle) [].

(** The threads when the phased loop starts.  A submitter that is going
    to raise has no marker to put: it never gets to that loop. *)
Definition phased_init (its : list iteration) (receipt_workers : Z) : sys :=
  let n := worker_count receipt_workers in
  match submitted its with
  | (actions, None) => Sys actions n [] (replicate n Idle) []
  | (actions, Some _) => Sys actions O [] (replicate n Idle) []
  end.

(** One atomic step of some thread. *)
Inductive step : sys -> sys -> Prop :=
| step_put item rest k q ws rs :
    step (Sys (Enqueue item :: rest) k q ws rs)
         (Sys rest k (q ++ [Some item]) ws rs)
| step_append r rest k q ws rs :
    step (Sys (Append r :: rest) k q ws rs)
         (Sys rest k q ws (rs ++ [r]))
| step_sentinel k q ws rs :
    step (Sys [] (S k) q ws rs)
         (Sys [] k (q ++ [None]) ws rs)
| step_get_item w item td k q ws rs :
    ws !! w = Some Idle ->
    step (Sys td k (Some item :: q) ws rs)
         (Sys td k q (<[w := Busy item]> ws) rs)
| step_get_sentinel w td k q ws rs :
    ws !! w = Some Idle ->
    step (Sys td k (None :: q) ws rs)
         (Sys td k q (<[w := Done]> ws) rs)
| step_collect w item oc td k q ws rs :
    ws !! w = Some (Busy item) ->
    step (Sys td k q ws rs)
         (Sys td k q (<[w := Idle]> ws) (rs ++ [worker_row item oc])).

(** [submission_queue.join()] and every [thread.join()] have returned. *)
Definition terminated (s : sys) : Prop :=
  todo s = [] /\ sentinels s = O /\ queue s = [] /\ Forall (fun w => w = Done) (workers s).

Definition by_index (a b : row) : Prop := (r_index a <= r_index b)%nat.

#[global] Instance by_index_dec : RelDecision by_index :=
  fun a b => le_dec (r_index a) (r_index b).

(** [results.sort(key=lambda item: item["index"])] *)
Definition sort_results (rs : list row) : list row := merge_sort by_index rs.

(** A full run of [execute_sequential_benchmark] returning [out]. *)
Definition sequential_run (voters : list string) (obs : nat -> submit_obs)
    (receipt_workers : Z) (out : list row) : Prop :=
  exists s,
    rtc step (init (sequential_actions voters obs) receipt_workers) s
    /\ terminated s /\ out = sort_results (results s).

(** A full run of [execute_phased_benchmark] over [schedule] returning [out]. *)
Definition phased_run (schedule : list sched_item) (obs : nat -> submit_obs)
    (receipt_workers : Z) (out : list row) : Prop :=
  exists s,
    rtc step (phased_init (phased_iterations schedule obs) receipt_workers) s
    /\ terminated s /\ out = sort_results (results s).

End Run.

(** ** Vocabulary of the statements *)

(** The non-null latencies of some rows, in order. *)
Definition latencies_of (rows : list row) : list Q := omap r_latency_sec rows.

(** The rows that carry the phase label [label]. *)
Definition rows_of_phase (label : string) (rows : list row) : list row :=
  filter (fun r => truthy_label (r_phase r) = Some label) rows.

(** The labels of the configured phases. *)
Definition plan_labels (phase_plan : option (list phase_entry)) : gset string :=
  list_to_set (pe_label <$> plan_entries phase_plan).

(** The row [r] with another receipt status. *)
Definition with_status (status : Z) (r : row) : row :=
  {| r_index := r_index r;
     r_account := r_account r;
     r_tx_hash := r_tx_hash r;
     r_status := status;
     r_gas_used := r_gas_used r;
     r_latency_sec := r_latency_sec r;
     r_token_id := r_token_id r;
     r_proposal_id := r_proposal_id r;
     r_labels := r_labels r;
     r_phase := r_phase r;
     r_submitted_sec := r_submitted_sec r;
     r_completed_sec := r_completed_sec r;
     r_error := r_error r |}.

(** The characters a text that [float()] accepts is made of: blanks, and
    the characters that are, up to case, a digit, an underscore, a point,
    a sign or a letter of [e], [inf], [infinity] and [nan]. *)
Definition float_letters : pystr := str "0123456789_.+-einftya".

Definition float_char (c : ascii) : bool :=
  is_space c || bool_decide (lower_char c ∈ float_letters).

(** [rate_part.strip().lower()] *)
Definition rate_str_of (rate_part : pystr) : pystr := lower (strip rate_part).

(** The message [msg] quotes [token] between apostrophes. *)
Definition quotes (token msg : pystr) : Prop :=
  exists pre post, msg = pre ++ str "'" ++ token ++ str "'" ++ post.

(** The value of [next_emit_time] when turn [i] of the loop starts. *)
Definition deadline_before (start_overall : Q) (its : list iteration) (i : nat) : pyfloat :=
  match i with
  | O => Fin start_overall
  | S j => default (Fin start_overall) (it_next_emit_time <$> its !! j)
  end.

(** What identifies a call in a row: its index, account and phase. *)
Definition call_key : Type := nat * string * option string.

Definition row_key (r : row) : call_key := (r_index r, r_account r, r_phase r).

Definition submission_key (s : submission) : call_key :=
  (sb_index s, sb_account s, sb_phase s).

Definition action_key (a : action) : call_key :=
  match a with
  | Enqueue s => submission_key s
  | Append r => row_key r
  end.

Definition held_key (w : wstate) : option call_key :=
  match w with
  | Busy s => Some (submission_key s)
  | Idle | Done => None
  end.

(** Every call the system knows of, wherever it is: recorded in a row,
    waiting in the queue, held by a worker, or not yet submitted. *)
Definition pool (s : sys) : list call_key :=
  (row_key <$> results s)
    ++ omap (fmap submission_key) (queue s)
    ++ omap held_key (workers s)
    ++ (action_key <$> todo s).

Definition key_index (k : call_key) : nat := k.1.1.

Definition key_le (a b : call_key) : Prop := (key_index a <= key_index b)%nat.

(** The schedule under construction is well formed for [voters]: the
    counter is its length, its indices count up from 0, and every item
    holds the voter at its index. *)
Definition schedule_ok (voters : list string) (acc : list sched_item * nat) : Prop :=
  acc.2 = length acc.1
  /\ si_index <$> acc.1 = seq 0 (length acc.1)
  /\ Forall (fun item => voters !! si_index item = Some (si_account item)) acc.1.

(** The number of turns of all the [range(count)] loops. *)
Definition planned_calls (phase_plan : list phase_entry) : nat :=
  foldr (fun entry acc => (Z.to_nat (pe_count entry) + acc)%nat) O phase_plan.

(** The phase label and pacing interval of every turn of the
    [range(count)] loops, in plan order. *)
Definition planned_phases (phase_plan : list phase_entry) : list (string * pyfloat) :=
  flat_map (fun entry => replicate (Z.to_nat (pe_count entry)) (pe_label entry, pe_interval entry))
           phase_plan.

Definition item_phase (item : sched_item) : string * pyfloat :=
  (si_phase item, si_interval item).

(** A row that reports a latency, or else status 0. *)
Definition latency_or_failure (r : row) : Prop :=
  r_latency_sec r = None -> r_status r = 0 /\ r_completed_sec r = None.

Definition action_ok (a : action) : Prop :=
  match a with
  | Enqueue _ => True
  | Append r => latency_or_failure r
  end.

Definition is_done (w : wstate) : bool :=
  match w with
  | Done => true
  | Idle | Busy _ => false
  end.

Definition is_busy (w : wstate) : bool :=
  match w with
  | Busy _ => true
  | Idle | Done => false
  end.

(** The workers that have not yet taken their end-of-stream marker. *)
Definition live_workers (ws : list wstate) : nat :=
  length (filter (fun w => is_done w = false) ws).

(** What holds of the queue and the workers all along a run: the queue
    is a run of items followed by a run of markers; every live worker
    still has its marker to come, in the queue or not yet put; markers
    are put only once the schedule is exhausted; and no worker is done
    while an item or a call is outstanding. *)
Definition shutdown_inv (s : sys) : Prop :=
  exists items m,
    queue s = (Some <$> items) ++ replicate m None
    /\ live_workers (workers s) = (sentinels s + m)%nat
    /\ (todo s <> [] -> m = O)
    /\ (todo s <> [] \/ items <> [] -> live_workers (workers s) = length (workers s))
    /\ (0 < length (workers s))%nat.

(** No [time.sleep] of these turns raises: every pause asked for fits
    the range of [time.sleep]. *)
Definition pauses_fit (its : list iteration) : Prop :=
  Forall (fun it => it_raised it = None) its.

(** What holds all along once the submitter has raised: no marker is
    put or to be put, so no worker is ever done. *)
Definition stranded (s : sys) : Prop :=
  sentinels s = O /\ (None ∉ queue s) /\ (Done ∉ workers s) /\ workers s <> [].

(** The calls of the sequential run, in submission order. *)
Definition sequential_keys (voters : list string) : list call_key :=
  imap (fun index voter => (index, voter, None)) voters.

(** The calls of the phased run, in submission order. *)
Definition schedule_keys (schedule : list sched_item) : list call_key :=
  (fun item => (si_index item, si_account item, Some (si_phase item))) <$> schedule.

Example parse_6000_2tps :
  parse_phase_spec (str "6000@2tps") = Ok (PhaseSpec 6000 (Fin 2) (Fin (1 # 2))).
Proof. vm_compute. reflexivity. Qed.

Example parse_half_second :
  parse_phase_spec (str "10@0.5s") = Ok (PhaseSpec 10 (Fin 2) (Fin (1 # 2))).
Proof. vm_compute. reflexivity. Qed.

(** ** The phase plan *)

Definition comma : ascii := ","%char.

(** [s.split(sep)] for a one-character separator: the texts between
    the separators, so one more than there are separators. *)
Fixpoint split_on (sep : ascii) (s : pystr) : list pystr :=
  match s with
  | [] => [[]]
  | c :: s' =>
      if ascii_eqb sep c then [] :: split_on sep s'
      else match split_on sep s' with
           | field :: fields => (c :: field) :: fields
           | [] => [[c]]
           end
  end.

(** [[item.strip() for item in s.split(",") if item.strip()]] *)
Definition comma_fields (s : pystr) : list pystr :=
  strip <$> filter (fun item => strip item <> []) (split_on comma s).

(** Truth value of an optional command-line text: [None] and [""] are
    false. *)
Definition truthy_text (s : option pystr) : option pystr :=
  match s with
  | Some (c :: s') => Some (c :: s')
  | _ => None
  end.

(** [[parse_phase_spec(item) for item in phases]]: the first failure is
    raised. *)
Fixpoint parse_phases (phases : list pystr) : result (list phase_spec) :=
  match phases with
  | [] => Ok []
  | item :: rest =>
      entry ← parse_phase_spec item;
      entries ← parse_phases rest;
      Ok (entry :: entries)
  end.

(** [[f"phase{idx + 1}" for idx in range(n)]] *)
Definition default_labels (n : nat) : list pystr :=
  (fun idx => str "phase" ++ show_Z (Z.of_nat idx + 1)) <$> seq 0 n.

Definition msg_label_count : pystr :=
  str "Number of --phase-labels entries must match the number of --phase flags".

(** A label as the key of the per-phase tables. *)
Definition label_name (label : pystr) : string := String.string_of_list_ascii label.

(** [entry["label"] = label] *)
Definition set_label (entry : phase_spec) (label : pystr) : phase_entry :=
  PhaseEntry (ps_count entry) (ps_tps entry) (ps_interval entry) (label_name label).

(** [build_phase_plan(args)], on [args.phases] and [args.phase_labels].
    The two lists zipped at the end have the same length on both
    branches. *)
Definition build_phase_plan (phases : option (list pystr)) (phase_labels : option pystr)
    : result (option (list phase_entry)) :=
  match phases with
  | None | Some [] => Ok None
  | Some items =>
      parsed ← parse_phases items;
      labels ← match truthy_text phase_labels with
                | Some text =>
                    let labels := comma_fields text in
                    if decide (length labels <> length parsed)
                    then Raise (ValueError msg_label_count)
                    else Ok labels
                | None => Ok (default_labels (length parsed))
                end;
      Ok (Some (zip_with set_label parsed labels))
  end.

(** [args.tx_count] once [main] has looked at the plan: the phase total
    replaces the option when there is a plan. *)
Definition main_tx_count (phase_plan : option (list phase_entry)) (tx_count : Z) : Z :=
  if truthy_plan phase_plan then total_required (plan_entries phase_plan) else tx_count.

(** ** The per-phase counts of [main] *)

Record phase_counts : Type := PhaseCounts {
  pc_total : nat;
  pc_success : nat;
  pc_failed : nat
}.

(** [row.get("phase") or "unlabeled"] *)
Definition phase_label (r : row) : string :=
  default "unlabeled"%string (truthy_label (r_phase r)).

(** One turn of [for row in results] over the table [phase_results]. *)
Definition phase_results_step (phase_results : gmap string phase_counts) (r : row)
    : gmap string phase_counts :=
  let label := phase_label r in
  let entry := default (PhaseCounts 0 0 0) (phase_results !! label) in
  let entry := PhaseCounts (S (pc_total entry)) (pc_success entry) (pc_failed entry) in
  let entry :=
    if decide (r_status r = 1)
    then PhaseCounts (pc_total entry) (S (pc_success entry)) (pc_failed entry)
    else PhaseCounts (pc_total entry) (pc_success entry) (S (pc_failed entry)) in
  <[label := entry]> phase_results.

(** The table [phase_results] of [main]: left empty without a plan. *)
Definition main_phase_results (phase_plan : option (list phase_entry)) (results : list row)
    : gmap string phase_counts :=
  if truthy_plan phase_plan then fold_left phase_results_step results ∅ else ∅.

(** [phase_results.get(label, {"total": 0, "success": 0, "failed": 0})],
    the line printed for a phase of the plan. *)
Definition phase_line (phase_results : gmap string phase_counts) (label : string)
    : phase_counts :=
  default (PhaseCounts 0 0 0) (phase_results !! label).

(** The rows counted under [label] in the table of [main]. *)
Definition rows_labelled (label : string) (results : list row) : list row :=
  filter (fun r => phase_label r = label) results.

(** The sum of one count over the entries of the table. *)
Definition table_sum (f : phase_counts -> nat) (phase_results : gmap string phase_counts)
    : nat :=
  map_fold (fun _ entry acc => (f entry + acc)%nat) O phase_results.

(** The turns of the [range(count)] loops of the phases labelled
    [label]. *)
Definition target_calls (label : string) (phase_plan : list phase_entry) : nat :=
  planned_calls (filter (fun entry => pe_label entry = label) phase_plan).

(** ** Calls into web3 *)

(** What a call into web3 gives back: a value, or an exception, which
    is kept as its text. *)
Inductive reply (A : Type) : Type :=
| Reply (a : A)
| Fault (text : pystr).
Arguments Reply {A} a.
Arguments Fault {A} text.

(** What [resolve_accounts] raises: an exception of its own, or the
    exception of a call into web3 that it lets through. *)
Inductive raised : Type :=
| Exn (e : exn)
| RuntimeError (msg : pystr)
| Web3Error (text : pystr).

Inductive outcome (A : Type) : Type :=
| Return (a : A)
| Throw (r : raised).
Arguments Return {A} a.
Arguments Throw {A} r.

#[global] Instance outcome_ret : MRet outcome := @Return.
#[global] Instance outcome_bind : MBind outcome := fun A B k m =>
  match m with
  | Return a => k a
  | Throw r => Throw r
  end.

(** A call outside any [try]. *)
Definition call {A : Type} (r : reply A) : outcome A :=
  match r with
  | Reply a => Return a
  | Fault text => Throw (Web3Error text)
  end.

(** ** Voter accounts *)

(** [voters[:required]] *)
Definition slice_to {A : Type} (l : list A) (stop : Z) : list A :=
  if decide (stop < 0) then take (length l - Z.to_nat (- stop)) l
  else take (Z.to_nat stop) l.

Definition msg_no_accounts : pystr := str "No accounts available on the connected node".

Definition msg_funder_unknown (funder_account : pystr) : pystr :=
  str "Specified funder " ++ funder_account ++ str " is not unlocked on the node".

Definition msg_creation_failed : pystr :=
  str "Insufficient voter accounts and failed to create new ones. Provide --accounts or reduce --tx-count.".

(** An account as the rows and the schedule name it. *)
Definition account_name (account : pystr) : string := String.string_of_list_ascii account.

(** What [resolve_accounts] returns, with the accounts it asked the
    node to unlock, in the order of the requests. *)
Record accounts : Type := Accounts {
  ac_funder : pystr;
  ac_voters : list pystr;
  ac_created : list pystr;
  ac_unlock_requests : list pystr
}.

Section Accounts.

(** The node and the library: the list [web3.eth.accounts], the
    function [Web3.to_checksum_address], and the answer of the node to the
    [k]-th [personal_newAccount] request. *)
Context (eth_accounts : reply (list pystr))
        (to_checksum_address : pystr -> reply pystr)
        (personal_new_account : nat -> reply pystr).

(** [[Web3.to_checksum_address(acc) for acc in accs]] *)
Fixpoint checksum_all (accs : list pystr) : outcome (list pystr) :=
  match accs with
  | [] => Return []
  | acc :: rest =>
      checksum ← call (to_checksum_address acc);
      checksums ← checksum_all rest;
      Return (checksum :: checksums)
  end.

(** The loop [for _ in range(needed)], from its [k]-th turn on. *)
Fixpoint create_accounts (needed k : nat) (voters created_accounts : list pystr)
    : outcome (list pystr * list pystr) :=
  match needed with
  | O => Return (voters, created_accounts)
  | S needed' =>
      match personal_new_account k with
      | Fault _ => Throw (Exn (ValueError msg_creation_failed))
      | Reply new_account =>
          checksum ← call (to_checksum_address new_account);
          create_accounts needed' (S k) (voters ++ [checksum]) (created_accounts ++ [checksum])
      end
  end.

(** [resolve_accounts].  A failed unlock is counted for a warning only,
    and [unlock_duration] goes to the unlock requests only. *)
Definition resolve_accounts (funder explicit_accounts : option pystr) (skip_unlock : bool)
    (required : Z) (fresh_accounts : bool) : outcome accounts :=
  accs ← call eth_accounts;
  chain_accounts ← checksum_all accs;
  match chain_accounts with
  | [] => Throw (RuntimeError msg_no_accounts)
  | first :: _ =>
      funder_account ←
        match truthy_text funder with
        | Some text =>
            funder_account ← call (to_checksum_address text);
            if decide (funder_account ∉ chain_accounts)
            then Throw (Exn (ValueError (msg_funder_unknown funder_account)))
            else Return funder_account
        | None => Return first
        end;
      voters ←
        match truthy_text explicit_accounts with
        | Some text => checksum_all (comma_fields text)
        | None =>
            Return (if fresh_accounts then []
                    else filter (fun acc => lower acc <> lower funder_account) chain_accounts)
        end;
      grown ←
        (if decide (Z.of_nat (length voters) < required)
         then create_accounts (Z.to_nat (required - Z.of_nat (length voters))) 0 voters []
         else Return (voters, []));
      let voters := slice_to grown.1 required in
      Return (Accounts funder_account voters grown.2
                (if skip_unlock then [] else funder_account :: voters))
  end.

(** The voters before any account is created. *)
Definition initial_voters (explicit_accounts : option pystr) (fresh_accounts : bool)
    (chain_accounts : list pystr) (funder_account : pystr) (voters : list pystr) : Prop :=
  match truthy_text explicit_accounts with
  | Some text => checksum_all (comma_fields text) = Return voters
  | None =>
      voters = if fresh_accounts then []
               else filter (fun acc => lower acc <> lower funder_account) chain_accounts
  end.

End Accounts.

(** ** The run of [main] *)

(** The benchmark that [main] runs on the resolved voters and what it
    returns: the phased run over the schedule of the plan when there is a
    plan, the sequential run otherwise. *)
Definition main_benchmark (label_string : string) (start_overall : Q)
    (phase_plan : option (list phase_entry)) (voters : list string)
    (obs : nat -> submit_obs) (receipt_workers : Z) (out : list row) : Prop :=
  if truthy_plan phase_plan
  then exists schedule,
         build_schedule voters (plan_entries phase_plan) = Ok schedule
         /\ phased_run label_string start_overall schedule obs receipt_workers out
  else sequential_run label_string start_overall voters obs receipt_workers out.

(** ** Block intervals *)

(** A block, as far as [fetch_block_stats] reads it: its
    ["timestamp"] entry, if it has one. *)
Record block : Type := Block {
  timestamp : option Z
}.

(** What the [except Exception] of [fetch_block_stats] caught: an
    exception of the node, kept as its text, or one of Python. *)
Inductive caught : Type :=
| NodeError (text : pystr)
| PythonError (e : exn).

Record block_stats : Type := BlockStats {
  bs_latest : option Z;
  bs_avg : option Q;
  bs_min : option Q;
  bs_max : option Q;
  bs_error : option caught
}.

(** [min(values)]: the first of the smallest elements. *)
Definition py_min (values : list Q) : result Q :=
  match values with
  | [] => Raise (ValueError (str "min() arg is an empty sequence"))
  | x :: rest => Ok (fold_left (fun m y => if decide (y < m)%Q then y else m) rest x)
  end.

(** [1e-9] *)
Definition raft_scale : Q := 1 # 1000000000.

(** [scale]: [1e-9] when [consensus_hint] is ["raft"] in any case of
    the letters, [1.0] otherwise. *)
Definition interval_scale (consensus_hint : option pystr) : Q :=
  match truthy_text consensus_hint with
  | Some hint => if decide (lower hint = str "raft") then raft_scale else 1%Q
  | None => 1%Q
  end.

(** [[(timestamps[index] - timestamps[index - 1]) * scale
      for index in range(1, len(timestamps))]] *)
Fixpoint intervals (scale : Q) (timestamps : list Z) : list Q :=
  match timestamps with
  | previous :: rest =>
      match rest with
      | current :: _ => (inject_Z (current - previous) * scale)%Q :: intervals scale rest
      | [] => []
      end
  | [] => []
  end.

(** [range(start_number, latest_block_number + 1)] with
    [start_number = max(0, latest_block_number - sample_count + 1)] *)
Definition sampled_blocks (latest_block_number sample_count : Z) : list Z :=
  let start_number := Z.max 0 (latest_block_number - sample_count + 1) in
  seqZ start_number (latest_block_number + 1 - start_number).

Section Blocks.

(** The node: [web3.eth.block_number] and [web3.eth.get_block]. *)
Context (block_number : reply Z) (get_block : Z -> reply (option block)).

(** The loop over the sampled block numbers: a falsy block is skipped,
    a block without timestamp counts as timestamp 0. *)
Fixpoint collect_timestamps (numbers : list Z) (timestamps : list Z) : reply (list Z) :=
  match numbers with
  | [] => Reply timestamps
  | number :: rest =>
      match get_block number with
      | Fault text => Fault text
      | Reply None => collect_timestamps rest timestamps
      | Reply (Some b) => collect_timestamps rest (timestamps ++ [default 0 (timestamp b)])
      end
  end.

Definition fetch_block_stats (sample_count : Z) (consensus_hint : option pystr)
    : block_stats :=
  match block_number with
  | Fault text => BlockStats None None None None (Some (NodeError text))
  | Reply latest_block_number =>
      match collect_timestamps (sampled_blocks latest_block_number sample_count) [] with
      | Fault text => BlockStats (Some latest_block_number) None None None (Some (NodeError text))
      | Reply timestamps =>
          if decide (length timestamps < 2)%nat
          then BlockStats (Some latest_block_number) None None None None
          else
            let scale := interval_scale consensus_hint in
            match intervals scale timestamps with
            | [] => BlockStats (Some latest_block_number) None None None None
            | ivs =>
                match (avg ← mean ivs; lo ← py_min ivs; hi ← py_max ivs; Ok (avg, lo, hi)) with
                | Ok (avg, lo, hi) =>
                    BlockStats (Some latest_block_number) (Some avg) (Some lo) (Some hi) None
                | Raise e =>
                    BlockStats (Some latest_block_number) None None None (Some (PythonError e))
                end
            end
      end
  end.

End Blocks.

(** The timestamps of the truthy blocks among [numbers], in order. *)
Definition window_timestamps (get_block : Z -> reply (option block)) (numbers : list Z)
    : list Z :=
  omap (fun number =>
          match get_block number with
          | Reply (Some b) => Some (default 0 (timestamp b))
          | _ => None
          end) numbers.

(** ** The report file *)

(** [str.isalnum] on one character: letters, digits and numeric
    characters. *)
Definition is_alnum (c : ascii) : bool :=
  let n := code c in
  ((48 <=? n) && (n <=? 57) || (65 <=? n) && (n <=? 90) || (97 <=? n) && (n <=? 122)
   || (n =? 170) || (n =? 178) || (n =? 179) || (n =? 181) || (n =? 185) || (n =? 186)
   || (188 <=? n) && (n <=? 190)
   || (192 <=? n) && negb (n =? 215) && negb (n =? 247))%nat.

(** [char.isalnum() or char in ("-", "_")] *)
Definition kept (char : ascii) : bool :=
  is_alnum char || ascii_eqb "-"%char char || ascii_eqb "_"%char char.

Definition sanitize_component (value : pystr) : pystr :=
  (fun char => if kept char then char else "_"%char) <$> value.

Definition slash : ascii := "/"%char.

(** [os.path.join(a, b)] of [posixpath]. *)
Definition path_join (a b : pystr) : pystr :=
  if startswith b [slash] then b
  else if bool_decide (a = []) || endswith a [slash] then a ++ b
  else a ++ slash :: b.

(** ["phase" if phase_plan else "sequential"] *)
Definition workload_part (phase_plan : option (list phase_entry)) : pystr :=
  if truthy_plan phase_plan then str "phase" else str "sequential".

(** [f"{date_prefix}_{consensus_part}_{workload_part}"], the part that
    the names tried by [generate_report_filename] share. *)
Definition report_stem (timestamp consensus : pystr)
    (phase_plan : option (list phase_entry)) : pystr :=
  take 8 timestamp ++ str "_" ++ sanitize_component (lower consensus)
  ++ str "_" ++ workload_part phase_plan.

Section Report.

(** The file system: [ensure_directory], which may fail, and
    [os.path.exists] as it answers once the directory is there. *)
Context (ensure_directory : pystr -> reply ()) (path_exists : pystr -> bool).

(** The [while os.path.exists(candidate)] loop, for at most [fuel]
    turns. *)
Fixpoint free_candidate (fuel : nat) (report_dir stem : pystr) (counter : Z)
    (candidate : pystr) : option pystr :=
  if path_exists candidate
  then match fuel with
       | O => None
       | S fuel' =>
           free_candidate fuel' report_dir stem (counter + 1)
             (path_join report_dir (stem ++ str "_run" ++ show_Z counter ++ str ".md"))
       end
  else Some candidate.

(** [generate_report_filename], with at most [fuel] turns of its loop:
    [None] when they do not suffice. *)
Definition generate_report_filename (fuel : nat) (report_dir timestamp consensus : pystr)
    (phase_plan : option (list phase_entry)) : option (reply pystr) :=
  match ensure_directory report_dir with
  | Fault text => Some (Fault text)
  | Reply _ =>
      let stem := report_stem timestamp consensus phase_plan in
      let base_name := stem ++ str ".md" in
      Reply <$> free_candidate fuel report_dir stem 2 (path_join report_dir base_name)
  end.

End Report.

(** The name of the [attempt]-th path tried: the base name first, then
    [_run2], [_run3], and so on. *)
Definition report_name (stem : pystr) (attempt : nat) : pystr :=
  match attempt with
  | O => stem ++ str ".md"
  | S _ => stem ++ str "_run" ++ show_Z (Z.of_nat attempt + 1) ++ str ".md"
  end.

(** ** Sample inputs *)

(** The plan of [--phase 2@2tps --phase 1@0.5s]. *)
Definition sample_plan : list phase_entry :=
  [PhaseEntry 2 (Fin 2) (Fin (1 # 2)) "phase1"; PhaseEntry 1 (Fin 2) (Fin (1 # 2)) "phase2"].

(** Its schedule for three voters. *)
Definition sample_schedule : list sched_item :=
  [SchedItem 0 "0xA1" (Fin (1 # 2)) "phase1"; SchedItem 1 "0xB2" (Fin (1 # 2)) "phase1";
   SchedItem 2 "0xC3" (Fin (1 # 2)) "phase2"].

(** A confirmed and a failed vote of [phase1]. *)
Definition sample_rows : list row :=
  [Row 0 "0xA1" (Some "0x01"%string) 1 (Some 21000) (Some (1 # 2)) None None "bench"
     (Some "phase1"%string) 0 (Some (1 # 2)) None;
   Row 1 "0xB2" None 0 None None None None "bench"
     (Some "phase1"%string) 0 None (Some (str "nonce too low"))].

(** A node with three accounts, on which checksums change nothing and
    the [k]-th new account is [0xC] followed by [k]. *)
Definition sample_eth_accounts : reply (list pystr) :=
  Reply [str "0xF0"; str "0xA1"; str "0xB2"].

Definition sample_checksum (address : pystr) : reply pystr := Reply address.

Definition sample_new_account (k : nat) : reply pystr :=
  Reply (str "0xC" ++ show_Z (Z.of_nat k)).

(** What [resolve_accounts] returns on this node for three voters. *)
Definition sample_resolved : accounts :=
  Accounts (str "0xF0") [str "0xA1"; str "0xB2"; str "0xC0"] [str "0xC0"]
    [str "0xF0"; str "0xA1"; str "0xB2"; str "0xC0"].

(** A chain whose block [n] has timestamp [12 * n]. *)
Definition sample_get_block (number : Z) : reply (option block) :=
  Reply (Some (Block (Some (12 * number)))).

(** A report directory that holds the first report of the day. *)
Definition sample_path_exists (path : pystr) : bool :=
  bool_decide (path = str "/reports/20240501_raft_phase.md").

(** * Properties *)

(** ** Order facts on rationals *)

#[global] Instance Qle_transitive : Transitive Qle.
Proof. intros x y z. apply Qle_trans. Qed.

#[global] Instance Qle_total : Total Qle.
Proof. intros x y. destruct (Qlt_le_dec x y); [left; lra | right; lra]. Qed.

Lemma sorted_is_sorted (values : list Q) : StronglySorted Qle (sorted values).
Proof. apply StronglySorted_merge_sort; apply _. Qed.

Lemma sorted_perm (values : list Q) : sorted values ≡ₚ values.
Proof. apply merge_sort_Permutation. Qed.

Lemma sorted_length (values : list Q) : length (sorted values) = length values.
Proof. apply Permutation_length, sorted_perm. Qed.

(** ** The statistics never raise *)

Lemma rank_index_bounds (n : nat) :
  (0 < n)%nat -> 0 <= rank_index p95_fraction n < Z.of_nat n.
Proof.
  intros Hn. unfold rank_index. split; [lia |].
  assert (Hc : Qceiling (p95_fraction * inject_Z (Z.of_nat n)) <= Z.of_nat n).
  { rewrite <- (Qceiling_Z (Z.of_nat n)) at 2. apply Qceiling_resp_le.
    assert (0 <= inject_Z (Z.of_nat n))%Q.
    { change 0%Q with (inject_Z 0). rewrite <- Zle_Qle. lia. }
    unfold p95_fraction. lra. }
  lia.
Qed.

Lemma item_at_in_range {A : Type} (l : list A) (index : Z) :
  0 <= index < Z.of_nat (length l) -> exists v, item_at l index = Ok v /\ l !! Z.to_nat index = Some v.
Proof.
  intros Hi. unfold item_at.
  destruct (lookup_lt_is_Some_2 l (Z.to_nat index)) as [v Hv]; [lia |].
  exists v. by rewrite Hv.
Qed.

Lemma fold_max_spec (rest : list Q) (x : Q) :
  let m := fold_left (fun m y => if decide (m < y)%Q then y else m) rest x in
  (m = x \/ m ∈ rest) /\ (x <= m)%Q /\ (forall y, y ∈ rest -> (y <= m)%Q).
Proof.
  revert x. induction rest as [| y rest IH]; intros x; simpl.
  - split; [by left |]. split; [lra |]. intros y Hy. by apply elem_of_nil in Hy.
  - destruct (IH (if decide (x < y)%Q then y else x)) as (Hin & Hle & Hall).
    case_decide as Hxy.
    + split; [| split].
      * right. destruct Hin as [-> | Hin]; [left | by right].
      * lra.
      * intros z [-> | Hz]%elem_of_cons; [done | by apply Hall].
    + split; [| split].
      * destruct Hin as [-> | Hin]; [by left | right; by right].
      * done.
      * intros z [-> | Hz]%elem_of_cons; [lra | by apply Hall].
Qed.

Lemma py_max_spec (x : Q) (rest : list Q) :
  exists m, py_max (x :: rest) = Ok m /\ m ∈ x :: rest /\ (forall y, y ∈ x :: rest -> (y <= m)%Q).
Proof.
  destruct (fold_max_spec rest x) as (Hin & Hle & Hall).
  eexists. split; [reflexivity |]. split.
  - destruct Hin as [-> | Hin]; [left | by right].
  - intros y [-> | Hy]%elem_of_cons; [done | by apply Hall].
Qed.

Lemma percentile_p95_spec (x : Q) (rest : list Q) :
  exists v, percentile (x :: rest) p95_fraction = Ok v
    /\ sorted (x :: rest) !! Z.to_nat (rank_index p95_fraction (length (x :: rest))) = Some v.
Proof.
  unfold percentile.
  destruct (item_at_in_range (sorted (x :: rest))
              (rank_index p95_fraction (length (sorted (x :: rest))))) as (v & Hv & Hl).
  { rewrite sorted_length. apply rank_index_bounds. simpl. lia. }
  exists v. split; [done |]. by rewrite sorted_length in Hl.
Qed.

Lemma calculate_latency_stats_total (latencies : list Q) :
  exists r, calculate_latency_stats latencies = Ok r
    /\ (latencies = [] -> r = None)
    /\ (latencies <> [] -> exists st, r = Some st /\ st_count st = length latencies).
Proof.
  destruct latencies as [| x rest].
  - exists None. by repeat split.
  - destruct (percentile_p95_spec x rest) as (p & Hp & _).
    destruct (py_max_spec x rest) as (m & Hm & _).
    unfold calculate_latency_stats. rewrite Hp, Hm. simpl.
    eexists. split; [reflexivity |]. split; [done |]. intros _. eexists. by split.
Qed.

(** ** The per-phase breakdown *)

Lemma latencies_of_app (a b : list row) :
  latencies_of (a ++ b) = latencies_of a ++ latencies_of b.
Proof. apply omap_app. Qed.

Lemma breakdown_fold (phase_plan : option (list phase_entry)) (results : list row)
    (o : list Q) (m : gmap string (list Q)) :
  exists m',
    fold_left (breakdown_step phase_plan) results (o, m) = (o ++ latencies_of results, m')
    /\ (truthy_plan phase_plan = true ->
        forall label, default [] (m' !! label)
                      = default [] (m !! label) ++ latencies_of (rows_of_phase label results)).
Proof.
  revert o m. induction results as [| r rs IH]; intros o m.
  - exists m. simpl. split; [by rewrite app_nil_r |]. intros _ label. by rewrite app_nil_r.
  - cbn [fold_left]. unfold breakdown_step at 2. unfold latencies_of at 1.
    unfold rows_of_phase. setoid_rewrite filter_cons. fold (rows_of_phase).
    cbn [omap list_omap fst snd].
    destruct (r_latency_sec r) as [v |] eqn:Hlat.
    + fold (latencies_of rs).
      destruct (truthy_label (r_phase r)) as [pl |] eqn:Hpl;
        [destruct (truthy_plan phase_plan) eqn:Htp |].
      * destruct (IH (o ++ [v]) (bucket_append pl v m)) as (m' & Hfold & Hb).
        exists m'. split; [by rewrite Hfold, <- app_assoc |].
        intros _ label. rewrite (Hb eq_refl label). unfold bucket_append.
        destruct (decide (pl = label)) as [-> | Hne].
        -- rewrite lookup_insert_eq. rewrite decide_True by done.
           unfold latencies_of at 2. cbn [omap list_omap]. rewrite Hlat.
           simpl. by rewrite <- app_assoc.
        -- rewrite lookup_insert_ne by done. rewrite decide_False by congruence. done.
      * destruct (IH (o ++ [v]) m) as (m' & Hfold & Hb).
        exists m'. split; [by rewrite Hfold, <- app_assoc |]. intros Habs. congruence.
      * destruct (IH (o ++ [v]) m) as (m' & Hfold & Hb).
        exists m'. split; [by rewrite Hfold, <- app_assoc |].
        intros Htp label. rewrite (Hb Htp label). by rewrite decide_False.
    + fold (latencies_of rs).
      destruct (IH o m) as (m' & Hfold & Hb).
      exists m'. split; [done |].
      intros Htp label. rewrite (Hb Htp label). case_decide; [| done].
      unfold latencies_of at 2. cbn [omap list_omap]. by rewrite Hlat.
Qed.

Lemma phase_stats_fold (pl : gmap string (list Q)) (entries : list phase_entry)
    (acc : gmap string latency_stats) :
  exists ps,
    fold_left (phase_stats_step pl) entries (Ok acc) = Ok ps
    /\ dom ps = dom acc ∪ list_to_set (pe_label <$> entries)
    /\ (forall label, label ∈ pe_label <$> entries ->
          exists st, calculate_latency_stats (default [] (pl !! label)) = Ok st
                     /\ ps !! label = Some (default no_data st))
    /\ (forall label, label ∉ pe_label <$> entries -> ps !! label = acc !! label).
Proof.
  revert acc. induction entries as [| e es IH]; intros acc.
  - exists acc. simpl. split; [done |]. split; [set_solver |].
    split; [| done]. intros label Hl. by apply elem_of_nil in Hl.
  - destruct (calculate_latency_stats_total (default [] (pl !! pe_label e)))
      as (st & Hst & _).
    destruct (IH (<[pe_label e := default no_data st]> acc)) as (ps & Hfold & Hdom & Hin & Hout).
    exists ps. split; [| split; [| split]].
    + cbn [fold_left]. unfold phase_stats_step at 2. simpl. rewrite Hst. simpl. exact Hfold.
    + rewrite Hdom, dom_insert_L. rewrite fmap_cons, list_to_set_cons. set_solver.
    + intros label Hl. destruct (decide (label ∈ pe_label <$> es)) as [Hes | Hes].
      * by apply Hin.
      * rewrite fmap_cons in Hl. apply elem_of_cons in Hl as [-> | Hl]; [| done].
        exists st. split; [done |]. rewrite (Hout _ Hes). by rewrite lookup_insert_eq.
    + intros label Hl. rewrite fmap_cons in Hl. apply not_elem_of_cons in Hl as [Hne Hl].
      rewrite (Hout _ Hl). by rewrite lookup_insert_ne.
Qed.

Lemma plan_labels_truthy (phase_plan : option (list phase_entry)) (label : string) :
  label ∈ plan_labels phase_plan -> truthy_plan phase_plan = true.
Proof.
  unfold plan_labels, truthy_plan. destruct (plan_entries phase_plan); [set_solver | done].
Qed.

Lemma collect_latency_breakdown_spec (results : list row)
    (phase_plan : option (list phase_entry)) :
  exists overall phase_stats,
    collect_latency_breakdown results phase_plan = Ok (overall, phase_stats)
    /\ calculate_latency_stats (latencies_of results) = Ok overall
    /\ dom phase_stats = plan_labels phase_plan
    /\ (forall label, label ∈ plan_labels phase_plan ->
          exists st,
            calculate_latency_stats (latencies_of (rows_of_phase label results)) = Ok st
            /\ phase_stats !! label = Some (default no_data st)).
Proof.
  destruct (breakdown_fold phase_plan results [] ∅) as (pl & Hfold & Hb).
  destruct (calculate_latency_stats_total (latencies_of results)) as (overall & Ho & _).
  destruct (phase_stats_fold pl (plan_entries phase_plan) ∅) as (ps & Hps & Hdom & Hin & _).
  exists overall, ps. unfold collect_latency_breakdown. rewrite Hfold. simpl.
  rewrite Ho. simpl. rewrite Hps. simpl. split; [done |]. split; [done |]. split.
  - rewrite Hdom. unfold plan_labels. set_solver.
  - intros label Hl. destruct (Hin label) as (st & Hst & Hlk).
    { unfold plan_labels in Hl. by apply elem_of_list_to_set in Hl. }
    exists st. split; [| done].
    rewrite (Hb (plan_labels_truthy _ _ Hl) label) in Hst. by rewrite lookup_empty in Hst.
Qed.

(** C6. [collect_latency_breakdown] never raises.  The overall statistics
    are those of every non-null latency, whatever the row's phase label;
    the entry of a phase is computed from the rows that carry its label
    only, so a row without a label feeds no phase; every label of the plan
    is a key, with the no-data entry (count 0, null avg/p95/max) when the
    phase has no latency; and the keys are exactly the labels of the plan. *)
Theorem breakdown_keys_and_buckets (results : list row)
    (phase_plan : option (list phase_entry)) :
  exists overall phase_stats,
    collect_latency_breakdown results phase_plan = Ok (overall, phase_stats)
    /\ calculate_latency_stats (latencies_of results) = Ok overall
    /\ dom phase_stats = plan_labels phase_plan
    /\ (forall label, label ∈ plan_labels phase_plan ->
          exists st,
            calculate_latency_stats (latencies_of (rows_of_phase label results)) = Ok st
            /\ phase_stats !! label = Some (default no_data st)
            /\ (latencies_of (rows_of_phase label results) = [] ->
                phase_stats !! label = Some (LatencyStats None None None 0)))
    /\ (forall r label, truthy_label (r_phase r) = None -> r ∉ rows_of_phase label results)
    /\ (forall r q, r ∈ results -> r_latency_sec r = Some q -> q ∈ latencies_of results).
Proof.
  destruct (collect_latency_breakdown_spec results phase_plan)
    as (overall & ps & Hc & Ho & Hdom & Hl).
  exists overall, ps. repeat split; try done.
  - intros label Hin. destruct (Hl label Hin) as (st & Hst & Hlk).
    exists st. repeat split; try done.
    intros Hnil. rewrite Hnil in Hst. simpl in Hst. injection Hst as <-. exact Hlk.
  - intros r label Hnone Hin. unfold rows_of_phase in Hin.
    apply list_elem_of_filter in Hin as [Hlab _]. congruence.
  - intros r q Hin Hq. unfold latencies_of. apply list_elem_of_omap. eauto.
Qed.

(** C6 on a plan with the phases [warm] and [peak] and three rows: one
    of [warm] with a latency, one without phase with a latency, one of
    [peak] without latency.  Both labels are keys, [peak] has no data. *)
Lemma breakdown_keys_and_buckets_two_phases :
  exists overall phase_stats,
    collect_latency_breakdown
      [worker_row "bench" 0 (Submission 0 "0xA1" "0x01" 0 0 (Some "warm")) (Receipt 1 1 None None None);
       worker_row "bench" 0 (Submission 1 "0xB2" "0x02" 0 0 None) (Receipt 3 1 None None None);
       worker_row "bench" 0 (Submission 2 "0xC3" "0x03" 0 0 (Some "peak")) TimeExhausted]
      (Some [PhaseEntry 1 (Fin 1) (Fin 1) "warm"; PhaseEntry 1 (Fin 1) (Fin 1) "peak"])
    = Ok (overall, phase_stats)
    /\ dom phase_stats = {["warm"; "peak"]}
    /\ phase_stats !! "peak" = Some no_data.
Proof.
  destruct (breakdown_keys_and_buckets
    [worker_row "bench" 0 (Submission 0 "0xA1" "0x01" 0 0 (Some "warm")) (Receipt 1 1 None None None);
     worker_row "bench" 0 (Submission 1 "0xB2" "0x02" 0 0 None) (Receipt 3 1 None None None);
     worker_row "bench" 0 (Submission 2 "0xC3" "0x03" 0 0 (Some "peak")) TimeExhausted]
    (Some [PhaseEntry 1 (Fin 1) (Fin 1) "warm"; PhaseEntry 1 (Fin 1) (Fin 1) "peak"]))
    as (overall & ps & Hc & _ & Hdom & Hl & _).
  exists overall, ps. split; [exact Hc |]. split.
  - rewrite Hdom. unfold plan_labels. simpl. by rewrite union_empty_r_L.
  - destruct (Hl "peak") as (st & _ & _ & Hnil).
    + unfold plan_labels. simpl. apply elem_of_union_r, elem_of_union_l, elem_of_singleton.
      reflexivity.
    + apply Hnil. reflexivity.
Defined.

(** ** Empty input *)

Lemma latencies_of_filter_nil (P : row -> Prop) `{!forall r, Decision (P r)}
    (results : list row) :
  latencies_of results = [] -> latencies_of (filter P results) = [].
Proof.
  unfold latencies_of. induction results as [| r rs IH]; [done |].
  cbn [omap list_omap]. rewrite filter_cons.
  destruct (r_latency_sec r) eqn:Hr; [done |]. intros Hnil.
  case_decide; [| by apply IH]. cbn [omap list_omap]. rewrite Hr. by apply IH.
Qed.

(** C9. Statistics of an empty list of latencies are [None], not an
    error; no list at all makes [calculate_latency_stats] raise; with no
    latency among the rows the overall statistics are [None], and a phase
    without latencies gets the no-data entry. *)
Theorem empty_latencies_no_data :
  calculate_latency_stats [] = Ok None
  /\ (forall latencies, exists r, calculate_latency_stats latencies = Ok r)
  /\ (forall results phase_plan,
        latencies_of results = [] ->
        exists phase_stats,
          collect_latency_breakdown results phase_plan = Ok (None, phase_stats)
          /\ forall label, label ∈ plan_labels phase_plan ->
                phase_stats !! label = Some no_data)
  /\ (forall results phase_plan label,
        label ∈ plan_labels phase_plan ->
        latencies_of (rows_of_phase label results) = [] ->
        exists overall phase_stats,
          collect_latency_breakdown results phase_plan = Ok (overall, phase_stats)
          /\ phase_stats !! label = Some no_data).
Proof.
  split; [done |]. split; [| split].
  - intros latencies. destruct (calculate_latency_stats_total latencies) as (r & Hr & _). eauto.
  - intros results phase_plan Hnil.
    destruct (collect_latency_breakdown_spec results phase_plan)
      as (overall & ps & Hc & Ho & _ & Hl).
    rewrite Hnil in Ho. simpl in Ho. injection Ho as <-.
    exists ps. split; [done |]. intros label Hin.
    destruct (Hl label Hin) as (st & Hst & Hlk).
    unfold rows_of_phase in Hst. rewrite (latencies_of_filter_nil _ _ Hnil) in Hst.
    simpl in Hst. by injection Hst as <-.
  - intros results phase_plan label Hin Hnil.
    destruct (collect_latency_breakdown_spec results phase_plan)
      as (overall & ps & Hc & _ & _ & Hl).
    exists overall, ps. split; [done |].
    destruct (Hl label Hin) as (st & Hst & Hlk).
    rewrite Hnil in Hst. simpl in Hst. by injection Hst as <-.
Qed.

(** C9 on two rows without latency and a plan of one phase. *)
Lemma empty_latencies_no_data_two_rows :
  exists phase_stats,
    collect_latency_breakdown
      [worker_row "bench" 0 (Submission 0 "0xA1" "0x01" 0 0 (Some "warm")) TimeExhausted;
       failure_row "bench" 0 1 "0xB2" (Some "warm") 1 (str "nonce too low")]
      (Some [PhaseEntry 2 (Fin 1) (Fin 1) "warm"])
    = Ok (None, phase_stats)
    /\ phase_stats !! "warm" = Some no_data.
Proof.
  destruct empty_latencies_no_data as (_ & _ & Hoverall & _).
  destruct (Hoverall
    [worker_row "bench" 0 (Submission 0 "0xA1" "0x01" 0 0 (Some "warm")) TimeExhausted;
     failure_row "bench" 0 1 "0xB2" (Some "warm") 1 (str "nonce too low")]
    (Some [PhaseEntry 2 (Fin 1) (Fin 1) "warm"]) eq_refl) as (ps & Hc & Hl).
  exists ps. split; [exact Hc |]. apply Hl.
  unfold plan_labels. simpl. apply elem_of_union_l, elem_of_singleton. reflexivity.
Defined.

(** ** Latency statistics *)

(** C2, at the input of the claim.  On [1..10] the index is
    ceil(9.5) - 1 = 9, so p95 is the largest element, 10, and not 9. *)
Lemma latency_stats_one_to_ten :
  rank_index p95_fraction 10 = 9
  /\ calculate_latency_stats [1; 2; 3; 4; 5; 6; 7; 8; 9; 10]%Q
     = Ok (Some (LatencyStats (Some (55 # 10)) (Some 10%Q) (Some 10%Q) 10))
  /\ ~ (10 == 9)%Q.
Proof. split; [reflexivity |]. split; [vm_compute; reflexivity | discriminate]. Qed.

(** C2, amended.  For a non-empty list the statistics exist: p95 is the
    element of the ascending-sorted list at index ceil(0.95 * n) - 1,
    clamped below at 0; the average is the sum divided by n; the max is an
    element no other exceeds; count is n.  On [1..10]: p95 = 10 (index 9),
    average = 5.5, max = 10, count = 10. *)
Theorem latency_stats_values :
  (forall (x : Q) (rest : list Q),
      exists avg p95 mx,
        calculate_latency_stats (x :: rest)
        = Ok (Some (LatencyStats (Some avg) (Some p95) (Some mx) (S (length rest))))
        /\ StronglySorted Qle (sorted (x :: rest))
        /\ sorted (x :: rest) ≡ₚ x :: rest
        /\ sorted (x :: rest)
             !! Z.to_nat (Z.max 0 (Qceiling ((95 # 100) * inject_Z (Z.of_nat (S (length rest)))) - 1))
           = Some p95
        /\ avg = (Qsum (x :: rest) / inject_Z (Z.of_nat (S (length rest))))%Q
        /\ mx ∈ x :: rest
        /\ (forall y, y ∈ x :: rest -> (y <= mx)%Q))
  /\ (exists avg,
        calculate_latency_stats [1; 2; 3; 4; 5; 6; 7; 8; 9; 10]%Q
        = Ok (Some (LatencyStats (Some avg) (Some 10%Q) (Some 10%Q) 10))
        /\ (avg == 11 # 2)%Q).
Proof.
  split.
  - intros x rest.
    destruct (percentile_p95_spec x rest) as (p & Hp & Hidx).
    destruct (py_max_spec x rest) as (m & Hm & Hin & Hall).
    exists (Qsum (x :: rest) / Qlen (x :: rest))%Q, p, m.
    split; [| split; [| split; [| split; [| split; [| split]]]]].
    + unfold calculate_latency_stats. rewrite Hp, Hm. reflexivity.
    + apply sorted_is_sorted.
    + apply sorted_perm.
    + exact Hidx.
    + reflexivity.
    + exact Hin.
    + exact Hall.
  - eexists. split; [vm_compute; reflexivity | reflexivity].
Qed.

(** ** The summary of [main] *)

Lemma summary_latency_total (results : list row) :
  exists r, summary_latency results = Ok r.
Proof.
  unfold summary_latency. destruct (success_latencies results) as [| x rest] eqn:Hl; [eauto |].
  destruct (item_at_in_range (sorted (x :: rest))
              (rank_index p95_fraction (length (sorted (x :: rest))))) as (v & Hv & _).
  { rewrite sorted_length. apply rank_index_bounds. simpl. lia. }
  simpl mean. cbn [mbind result_bind bind]. rewrite Hv. cbn [bind].
  unfold last_item. destruct (last (sorted (x :: rest))) as [mx |] eqn:Hlast; [eauto |].
  apply last_None in Hlast. apply (f_equal length) in Hlast.
  rewrite sorted_length in Hlast. done.
Qed.

Lemma tps_estimate_spec (successes : nat) (duration : Q) :
  exists tps, tps_estimate successes duration = Ok tps
    /\ ((0 < duration)%Q -> tps = (inject_Z (Z.of_nat successes) / duration)%Q)
    /\ ((duration <= 0)%Q -> tps = 0%Q).
Proof.
  unfold tps_estimate. case_decide as Hd.
  - unfold truediv. destruct (Qeq_bool duration 0) eqn:Hz.
    + apply Qeq_bool_iff in Hz. lra.
    + eexists. split; [reflexivity |]. split; [done | lra].
  - eexists. split; [reflexivity |]. split; [done | done].
Qed.

(** C7. The summary of [main] always exists (no division error); its
    throughput is successCount / duration when the duration is strictly
    positive and exactly 0 when the duration is zero or negative. *)
Theorem throughput_estimate (results : list row) (duration : Q) :
  exists sm,
    main_summary results duration = Ok sm
    /\ sm_success sm = success_count results
    /\ ((0 < duration)%Q ->
        sm_tps sm = (inject_Z (Z.of_nat (success_count results)) / duration)%Q)
    /\ ((duration <= 0)%Q -> sm_tps sm = 0%Q).
Proof.
  destruct (tps_estimate_spec (success_count results) duration) as (tps & Ht & Hpos & Hzero).
  destruct (summary_latency_total results) as (lat & Hlat).
  eexists. unfold main_summary. rewrite Ht, Hlat. cbn [mbind result_bind bind].
  split; [reflexivity |]. cbn [sm_success sm_tps]. done.
Qed.

(** C7 on one success and one rejected submission in 2 s: 0.5 tx/s; and
    on a zero duration: 0. *)
Lemma throughput_estimate_half :
  exists sm sm0,
    main_summary
      [worker_row "bench" 0 (Submission 0 "0xA1" "0x01" 0 0 None) (Receipt 1 1 None None None);
       failure_row "bench" 0 1 "0xB2" None 1 (str "nonce too low")] 2 = Ok sm
    /\ sm_tps sm = (1 / 2)%Q
    /\ main_summary
         [worker_row "bench" 0 (Submission 0 "0xA1" "0x01" 0 0 None) (Receipt 1 1 None None None);
          failure_row "bench" 0 1 "0xB2" None 1 (str "nonce too low")] 0 = Ok sm0
    /\ sm_tps sm0 = 0%Q.
Proof.
  destruct (throughput_estimate
    [worker_row "bench" 0 (Submission 0 "0xA1" "0x01" 0 0 None) (Receipt 1 1 None None None);
     failure_row "bench" 0 1 "0xB2" None 1 (str "nonce too low")] 2)
    as (sm & Hsm & _ & Hpos & _).
  destruct (throughput_estimate
    [worker_row "bench" 0 (Submission 0 "0xA1" "0x01" 0 0 None) (Receipt 1 1 None None None);
     failure_row "bench" 0 1 "0xB2" None 1 (str "nonce too low")] 0)
    as (sm0 & Hsm0 & _ & _ & Hzero).
  exists sm, sm0. split; [exact Hsm |]. split; [apply Hpos; reflexivity |].
  split; [exact Hsm0 | apply Hzero; discriminate].
Defined.

Lemma success_latencies_app (a b : list row) :
  success_latencies (a ++ b) = success_latencies a ++ success_latencies b.
Proof. apply omap_app. Qed.

Lemma summary_latency_ext (results results' : list row) :
  success_latencies results = success_latencies results' ->
  summary_latency results = summary_latency results'.
Proof. unfold summary_latency. by intros ->. Qed.

Lemma last_sorted_max (l : list Q) (m : Q) :
  StronglySorted Qle l -> last l = Some m -> m ∈ l /\ forall y, y ∈ l -> (y <= m)%Q.
Proof.
  induction 1 as [| x l Hs IH Hx]; [done |].
  destruct l as [| x' l'].
  - intros [= <-]. split; [left |]. intros y ->%list_elem_of_singleton. apply Qle_refl.
  - rewrite last_cons_cons. intros Hl. destruct (IH Hl) as [Hin Hmax]. split; [by right |].
    intros y [-> | Hy]%elem_of_cons; [| by apply Hmax].
    rewrite Forall_forall in Hx. by apply Hx.
Qed.

(** The latency statistics of the summary are those of the list
    [success_latencies]: none when it is empty; otherwise its mean, the
    element of its ascending sorting at index ceil(0.95 * n) - 1, and its
    largest element. *)
Lemma summary_latency_values (results : list row) :
  (success_latencies results = [] -> summary_latency results = Ok None)
  /\ (forall x rest,
        success_latencies results = x :: rest ->
        exists avg p95 mx,
          summary_latency results = Ok (Some (LatencySummary avg p95 mx))
          /\ avg = (Qsum (x :: rest) / inject_Z (Z.of_nat (S (length rest))))%Q
          /\ StronglySorted Qle (sorted (x :: rest))
          /\ sorted (x :: rest) ≡ₚ x :: rest
          /\ sorted (x :: rest)
               !! Z.to_nat (Z.max 0 (Qceiling ((95 # 100) * inject_Z (Z.of_nat (S (length rest)))) - 1))
             = Some p95
          /\ mx ∈ x :: rest
          /\ (forall y, y ∈ x :: rest -> (y <= mx)%Q)).
Proof.
  unfold summary_latency. split; [by intros -> |]. intros x rest ->.
  destruct (item_at_in_range (sorted (x :: rest))
              (rank_index p95_fraction (length (sorted (x :: rest))))) as (v & Hv & Hidx).
  { rewrite sorted_length. apply rank_index_bounds. simpl. lia. }
  simpl mean. cbn [mbind result_bind bind]. rewrite Hv. cbn [bind].
  unfold last_item. destruct (last (sorted (x :: rest))) as [mx |] eqn:Hlast.
  2: { apply last_None in Hlast. apply (f_equal length) in Hlast.
       by rewrite sorted_length in Hlast. }
  destruct (last_sorted_max _ _ (sorted_is_sorted (x :: rest)) Hlast) as [Hin Hmax].
  eexists _, v, mx. split; [reflexivity |]. split; [reflexivity |].
  split; [apply sorted_is_sorted |]. split; [apply sorted_perm |]. split.
  { rewrite sorted_length in Hidx. exact Hidx. }
  split.
  - by rewrite <- (sorted_perm (x :: rest)).
  - intros y Hy. apply Hmax. by rewrite (sorted_perm (x :: rest)).
Qed.

(** C10. The latency avg/p95/max of the summary are computed from the
    list [success_latencies], and from nothing else: there are none when
    the list is empty; otherwise avg is its mean, p95 the element of its
    ascending sorting at index ceil(0.95 * n) - 1, max its largest
    element.  A row adds its latency to that list exactly when
    [latency_sec] is neither null nor zero: a row whose latency is null or
    zero changes neither the list nor the statistics.  The receipt status
    plays no part: a collected receipt with status 0 is counted with its
    latency, unless that latency is exactly zero. *)
Theorem summary_latency_membership (pre post : list row) (r : row) :
  ((success_latencies (pre ++ r :: post) = [] ->
    summary_latency (pre ++ r :: post) = Ok None)
   /\ (forall x rest,
         success_latencies (pre ++ r :: post) = x :: rest ->
         exists avg p95 mx,
           summary_latency (pre ++ r :: post) = Ok (Some (LatencySummary avg p95 mx))
           /\ avg = (Qsum (x :: rest) / inject_Z (Z.of_nat (S (length rest))))%Q
           /\ StronglySorted Qle (sorted (x :: rest))
           /\ sorted (x :: rest) ≡ₚ x :: rest
           /\ sorted (x :: rest)
                !! Z.to_nat (Z.max 0 (Qceiling ((95 # 100) * inject_Z (Z.of_nat (S (length rest)))) - 1))
              = Some p95
           /\ mx ∈ x :: rest
           /\ (forall y, y ∈ x :: rest -> (y <= mx)%Q)))
  /\ (forall q, r_latency_sec r = Some q -> ~ (q == 0)%Q ->
     success_latencies (pre ++ r :: post)
     = success_latencies pre ++ q :: success_latencies post)
  /\ (r_latency_sec r = None \/ (exists q, r_latency_sec r = Some q /\ (q == 0)%Q) ->
      success_latencies (pre ++ r :: post) = success_latencies (pre ++ post)
      /\ summary_latency (pre ++ r :: post) = summary_latency (pre ++ post))
  /\ (forall status,
        success_latencies (pre ++ with_status status r :: post)
        = success_latencies (pre ++ r :: post)
        /\ summary_latency (pre ++ with_status status r :: post)
           = summary_latency (pre ++ r :: post))
  /\ (forall label_string start_overall item completion_time gas_used token_id proposal_id,
        success_latencies
          [worker_row label_string start_overall item
             (Receipt completion_time 0 gas_used token_id proposal_id)]
        = if Qeq_bool (completion_time - sb_start_time item) 0 then []
          else [(completion_time - sb_start_time item)%Q]).
Proof.
  split; [apply summary_latency_values |].
  split; [| split; [| split]].
  - intros q Hq Hnz. rewrite success_latencies_app. f_equal.
    unfold success_latencies at 1. cbn [omap list_omap]. unfold truthy_latency. rewrite Hq.
    destruct (Qeq_bool q 0) eqn:Hz; [by apply Qeq_bool_iff in Hz |]. reflexivity.
  - intros Hr.
    assert (Heq : success_latencies (pre ++ r :: post) = success_latencies (pre ++ post)).
    { rewrite !success_latencies_app. f_equal.
      unfold success_latencies at 1. cbn [omap list_omap]. unfold truthy_latency.
      destruct Hr as [-> | (q & -> & Hz)]; [reflexivity |].
      apply Qeq_bool_iff in Hz. rewrite Hz. reflexivity. }
    split; [exact Heq | by apply summary_latency_ext].
  - intros status.
    assert (Heq : success_latencies (pre ++ with_status status r :: post)
                  = success_latencies (pre ++ r :: post)).
    { rewrite !success_latencies_app. f_equal. }
    split; [exact Heq | by apply summary_latency_ext].
  - intros. unfold success_latencies, truthy_latency. cbn.
    by destruct (Qeq_bool _ _).
Qed.

(** C10 on three collected receipts: status 1 with latency 2, status 0
    with latency 3, status 1 with latency 0.  The first two are counted:
    the average is 2.5. *)
Lemma summary_latency_membership_three_rows :
  success_latencies
    [worker_row "bench" 0 (Submission 0 "0xA1" "0x01" 0 0 None) (Receipt 2 1 None None None);
     worker_row "bench" 0 (Submission 1 "0xB2" "0x02" 0 0 None) (Receipt 3 0 None None None);
     worker_row "bench" 0 (Submission 2 "0xC3" "0x03" 1 1 None) (Receipt 1 1 None None None)]
  = [(2 - 0)%Q; (3 - 0)%Q]
  /\ exists avg p95 mx,
       summary_latency
         [worker_row "bench" 0 (Submission 0 "0xA1" "0x01" 0 0 None) (Receipt 2 1 None None None);
          worker_row "bench" 0 (Submission 1 "0xB2" "0x02" 0 0 None) (Receipt 3 0 None None None);
          worker_row "bench" 0 (Submission 2 "0xC3" "0x03" 1 1 None) (Receipt 1 1 None None None)]
       = Ok (Some (LatencySummary avg p95 mx))
       /\ (avg == 5 # 2)%Q.
Proof.
  pose proof (summary_latency_membership
    [worker_row "bench" 0 (Submission 0 "0xA1" "0x01" 0 0 None) (Receipt 2 1 None None None)]
    [worker_row "bench" 0 (Submission 2 "0xC3" "0x03" 1 1 None) (Receipt 1 1 None None None)]
    (worker_row "bench" 0 (Submission 1 "0xB2" "0x02" 0 0 None) (Receipt 3 0 None None None)))
    as ((_ & Hstats) & Hin & _).
  assert (Hlist : success_latencies
            ([worker_row "bench" 0 (Submission 0 "0xA1" "0x01" 0 0 None)
                (Receipt 2 1 None None None)]
             ++ worker_row "bench" 0 (Submission 1 "0xB2" "0x02" 0 0 None)
                  (Receipt 3 0 None None None)
                :: [worker_row "bench" 0 (Submission 2 "0xC3" "0x03" 1 1 None)
                      (Receipt 1 1 None None None)])
          = [(2 - 0)%Q; (3 - 0)%Q]).
  { etrans; [apply (Hin (3 - 0)%Q eq_refl); discriminate | reflexivity]. }
  split; [exact Hlist |].
  destruct (Hstats _ _ Hlist) as (avg & p95 & mx & Hs & Havg & _).
  exists avg, p95, mx. split; [exact Hs |]. rewrite Havg. reflexivity.
Defined.

(** ** String primitives *)

Lemma ascii_eqb_eq (a b : ascii) : ascii_eqb a b = true <-> a = b.
Proof.
  unfold ascii_eqb, code. rewrite Nat.eqb_eq. split; [| by intros ->].
  intros H. rewrite <- (ascii_nat_embedding a), <- (ascii_nat_embedding b). by rewrite H.
Qed.

Lemma ascii_eqb_neq (a b : ascii) : ascii_eqb a b = false <-> a <> b.
Proof.
  rewrite <- ascii_eqb_eq. destruct (ascii_eqb a b); split; intros; congruence.
Qed.

Lemma contains_at_spec (s : pystr) : contains_at s = true <-> at_sign ∈ s.
Proof.
  unfold contains_at. rewrite existsb_exists. split.
  - intros (c & Hin & Heq). apply ascii_eqb_eq in Heq. subst c. by apply list_elem_of_In.
  - intros Hin. exists at_sign. split; [by apply list_elem_of_In | by apply ascii_eqb_eq].
Qed.

Lemma contains_at_false (s : pystr) : contains_at s = false <-> at_sign ∉ s.
Proof.
  rewrite <- contains_at_spec. destruct (contains_at s); split; intros; congruence.
Qed.

Lemma split_at_spec (s : pystr) :
  at_sign ∈ s ->
  s = (split_at s).1 ++ at_sign :: (split_at s).2 /\ at_sign ∉ (split_at s).1.
Proof.
  induction s as [| c s IH]; intros Hin; [by apply elem_of_nil in Hin |].
  simpl. destruct (ascii_eqb at_sign c) eqn:Hc.
  - apply ascii_eqb_eq in Hc. subst c. simpl. split; [done | apply not_elem_of_nil].
  - apply ascii_eqb_neq in Hc. apply elem_of_cons in Hin as [Heq | Hin]; [done |].
    destruct (IH Hin) as [Hs Hnot]. destruct (split_at s) as [a b]. simpl in *.
    split; [by f_equal |]. apply not_elem_of_cons. done.
Qed.

Lemma split_at_app (a b : pystr) :
  at_sign ∉ a -> split_at (a ++ at_sign :: b) = (a, b).
Proof.
  induction a as [| c a IH]; intros Hnot; simpl.
  - done.
  - apply not_elem_of_cons in Hnot as [Hne Hnot].
    assert (ascii_eqb at_sign c = false) as -> by by apply ascii_eqb_neq.
    by rewrite IH.
Qed.

Lemma startswith_spec (s p : pystr) : startswith s p = true <-> exists r, s = p ++ r.
Proof.
  revert s. induction p as [| a p IH]; intros s.
  - destruct s; simpl; split; eauto.
  - destruct s as [| b s]; simpl.
    + split; [done | intros (r & Hr); done].
    + rewrite andb_true_iff, ascii_eqb_eq, IH. split.
      * intros (-> & r & ->). eauto.
      * intros (r & Hr). injection Hr as -> ->. eauto.
Qed.

Lemma endswith_spec (s suffix : pystr) :
  endswith s suffix = true <-> exists r, s = r ++ suffix.
Proof.
  unfold endswith. rewrite startswith_spec. split.
  - intros (r & Hr). exists (rev r). apply (f_equal (@rev ascii)) in Hr.
    by rewrite rev_involutive, rev_app_distr, rev_involutive in Hr.
  - intros (r & ->). exists (rev r). by rewrite rev_app_distr.
Qed.

Lemma drop_last_app (r suffix : pystr) : drop_last (length suffix) (r ++ suffix) = r.
Proof.
  unfold drop_last. rewrite length_app.
  replace (length r + length suffix - length suffix)%nat with (length r) by lia.
  by rewrite take_app_length.
Qed.

Lemma lstrip_spec (s : pystr) :
  exists a, s = a ++ lstrip s /\ Forall (fun c => is_space c = true) a.
Proof.
  induction s as [| c s (a & Hs & Ha)]; [by exists [] |].
  simpl. destruct (is_space c) eqn:Hc.
  - exists (c :: a). split; [simpl; by f_equal | by constructor].
  - by exists [].
Qed.

Lemma strip_spec (s : pystr) :
  exists a b, s = a ++ strip s ++ b
    /\ Forall (fun c => is_space c = true) a /\ Forall (fun c => is_space c = true) b.
Proof.
  destruct (lstrip_spec s) as (a & Hs & Ha).
  destruct (lstrip_spec (rev (lstrip s))) as (b & Hr & Hb).
  exists a, (rev b). unfold strip, rstrip. split; [| split; [done |]].
  - rewrite Hs at 1. f_equal. apply (f_equal (@rev ascii)) in Hr.
    by rewrite rev_involutive, rev_app_distr in Hr.
  - by apply Forall_rev.
Qed.

Lemma skip_blanks_spec (s : pystr) :
  exists a, s = a ++ skip_blanks s /\ Forall (fun c => is_blank c = true) a.
Proof.
  induction s as [| c s (a & Hs & Ha)]; [by exists [] |].
  simpl. destruct (is_blank c) eqn:Hc.
  - exists (c :: a). split; [simpl; by f_equal | by constructor].
  - by exists [].
Qed.

Lemma unblank_spec (s : pystr) :
  exists a b, s = a ++ unblank s ++ b
    /\ Forall (fun c => is_blank c = true) a /\ Forall (fun c => is_blank c = true) b.
Proof.
  destruct (skip_blanks_spec s) as (a & Hs & Ha).
  destruct (skip_blanks_spec (rev (skip_blanks s))) as (b & Hr & Hb).
  exists a, (rev b). unfold unblank. split; [| split; [done |]].
  - rewrite Hs at 1. f_equal. apply (f_equal (@rev ascii)) in Hr.
    by rewrite rev_involutive, rev_app_distr in Hr.
  - by apply Forall_rev.
Qed.

Lemma blank_is_space (c : ascii) : is_blank c = true -> is_space c = true.
Proof.
  unfold is_blank, is_space. cbv zeta.
  rewrite !orb_true_iff, !andb_true_iff, !Nat.leb_le, !Nat.eqb_eq. lia.
Qed.

(** ** The character set of [float()] *)

Lemma all_ascii (P : ascii -> bool) :
  forallb (fun n => P (ascii_of_nat n)) (seq 0 256) = true -> forall c, P c = true.
Proof.
  intros H c. rewrite forallb_forall in H.
  rewrite <- (ascii_nat_embedding c). apply H. apply in_seq.
  pose proof (nat_ascii_bounded c). lia.
Qed.

Lemma digit_float_char (c : ascii) (d : Z) : digit_of c = Some d -> float_char c = true.
Proof.
  revert d. cut ((fun c => negb (bool_decide (is_Some (digit_of c))) || float_char c) c = true).
  { intros H d Hd. cbv beta in H. rewrite Hd in H.
    rewrite bool_decide_eq_true_2 in H by eauto. done. }
  apply all_ascii. vm_compute. reflexivity.
Qed.

Lemma underscore_float_char (c : ascii) : is_underscore c = true -> float_char c = true.
Proof. unfold is_underscore. intros H%ascii_eqb_eq. subst c. reflexivity. Qed.

Lemma space_float_char (c : ascii) : is_space c = true -> float_char c = true.
Proof. unfold float_char. by intros ->. Qed.

Lemma digits_tail_consumes (n : nat) (s : pystr) (acc : Z) (k : nat) v k' r :
  (length s <= n)%nat ->
  digits_tail acc k s = (v, k', r) ->
  exists pre, s = pre ++ r /\ Forall (fun c => float_char c = true) pre.
Proof.
  revert s acc k. induction n as [| n IH]; intros s acc k Hlen Hd.
  - destruct s; [| simpl in Hlen; lia]. simpl in Hd. injection Hd as <- <- <-. by exists [].
  - destruct s as [| c s]; simpl in Hd.
    { injection Hd as <- <- <-. by exists []. }
    simpl in Hlen. destruct (digit_of c) as [d |] eqn:Hc.
    + destruct (IH s _ _ ltac:(lia) Hd) as (pre & -> & Hpre).
      exists (c :: pre). split; [done |]. constructor; [by eapply digit_float_char | done].
    + destruct (is_underscore c) eqn:Hu; [| injection Hd as <- <- <-; by exists []].
      destruct s as [| c' s]; [injection Hd as <- <- <-; by exists [] |].
      destruct (digit_of c') as [d |] eqn:Hc'; [| injection Hd as <- <- <-; by exists []].
      simpl in Hlen. destruct (IH s _ _ ltac:(lia) Hd) as (pre & -> & Hpre).
      exists (c :: c' :: pre). split; [done |].
      constructor; [by apply underscore_float_char |].
      constructor; [by eapply digit_float_char | done].
Qed.

Lemma digitpart_consumes (s : pystr) v k r :
  digitpart s = Some (v, k, r) ->
  exists pre, s = pre ++ r /\ Forall (fun c => float_char c = true) pre.
Proof.
  unfold digitpart. destruct s as [| c s]; [done |].
  destruct (digit_of c) as [d |] eqn:Hc; [| done]. intros [= Hd].
  destruct (digits_tail_consumes (length s) s _ _ _ _ _ ltac:(lia) Hd) as (pre & -> & Hpre).
  exists (c :: pre). split; [done |]. constructor; [by eapply digit_float_char | done].
Qed.

Lemma read_sign_consumes (s : pystr) neg body :
  read_sign s = (neg, body) ->
  exists pre, s = pre ++ body /\ Forall (fun c => float_char c = true) pre.
Proof.
  unfold read_sign. destruct s as [| c s]; [intros [= <- <-]; by exists [] |].
  destruct (ascii_eqb "-" c) eqn:Hm.
  { apply ascii_eqb_eq in Hm. subst c. intros [= <- <-]. exists ["-"%char]. by repeat constructor. }
  destruct (ascii_eqb "+" c) eqn:Hp.
  { apply ascii_eqb_eq in Hp. subst c. intros [= <- <-]. exists ["+"%char]. by repeat constructor. }
  intros [= <- <-]. by exists [].
Qed.

Lemma exp_mark_float_char (c : ascii) : is_exp_mark c = true -> float_char c = true.
Proof.
  unfold is_exp_mark, float_char. intros H%ascii_eqb_eq. rewrite <- H.
  by rewrite orb_true_r.
Qed.

Lemma read_exponent_chars (s : pystr) e :
  read_exponent s = Some e -> Forall (fun c => float_char c = true) s.
Proof.
  unfold read_exponent. destruct s as [| c s]; [by constructor |].
  destruct (is_exp_mark c) eqn:Hc; [| done].
  destruct (read_sign s) as [neg body] eqn:Hs.
  destruct (digitpart body) as [[[v k] r] |] eqn:Hd; [| done].
  destruct r; [| done]. intros _.
  apply read_sign_consumes in Hs as (pre & -> & Hpre).
  apply digitpart_consumes in Hd as (pre' & -> & Hpre').
  constructor; [by apply exp_mark_float_char |].
  rewrite app_nil_r. by apply Forall_app.
Qed.

Lemma read_int_part_consumes (s : pystr) v b r :
  read_int_part s = (v, b, r) ->
  exists pre, s = pre ++ r /\ Forall (fun c => float_char c = true) pre.
Proof.
  unfold read_int_part. destruct (digitpart s) as [[[v' k] r'] |] eqn:Hd.
  - intros [= <- <- <-]. by eapply digitpart_consumes.
  - intros [= <- <- <-]. by exists [].
Qed.

Lemma read_fraction_consumes (s : pystr) v k b r :
  read_fraction s = (v, k, b, r) ->
  exists pre, s = pre ++ r /\ Forall (fun c => float_char c = true) pre.
Proof.
  unfold read_fraction. destruct s as [| c s]; [intros [= <- <- <- <-]; by exists [] |].
  destruct (ascii_eqb "." c) eqn:Hc; [| intros [= <- <- <- <-]; by exists []].
  apply ascii_eqb_eq in Hc. subst c.
  destruct (digitpart s) as [[[v' k'] r'] |] eqn:Hd.
  - intros [= <- <- <- <-]. apply digitpart_consumes in Hd as (pre & -> & Hpre).
    exists ("."%char :: pre). split; [done |]. by constructor.
  - intros [= <- <- <- <-]. exists ["."%char]. split; [done |]. by repeat constructor.
Qed.

Lemma float_number_chars (s : pystr) q :
  float_number s = Some q -> Forall (fun c => float_char c = true) s.
Proof.
  unfold float_number.
  destruct (read_int_part s) as [[ip has_int] r] eqn:Hi.
  destruct (read_fraction r) as [[[fp k] has_frac] r'] eqn:Hf.
  destruct (has_int || has_frac); [| done].
  destruct (read_exponent r') as [e |] eqn:He; [| done]. intros _.
  apply read_int_part_consumes in Hi as (pre & -> & Hpre).
  apply read_fraction_consumes in Hf as (pre' & -> & Hpre').
  apply read_exponent_chars in He. by repeat apply Forall_app_2.
Qed.

Lemma lower_word_chars (w body : pystr) :
  lower body = w ->
  Forall (fun c => bool_decide (c ∈ float_letters) = true) w ->
  Forall (fun c => float_char c = true) body.
Proof.
  intros <- H. unfold lower in H. apply Forall_fmap in H.
  eapply Forall_impl; [exact H |]. intros c Hc. unfold float_char. simpl in Hc.
  rewrite Hc. by rewrite orb_true_r.
Qed.

Lemma pystr_eqb_eq (a b : pystr) : pystr_eqb a b = true -> a = b.
Proof. unfold pystr_eqb. by intros H%bool_decide_eq_true. Qed.

Lemma py_float_chars (s : pystr) v :
  py_float s = Some v -> Forall (fun c => float_char c = true) s.
Proof.
  unfold py_float. destruct (read_sign (unblank s)) as [neg body] eqn:Hs. intros Hv.
  destruct (unblank_spec s) as (a & b & Hsab & Ha & Hb).
  apply read_sign_consumes in Hs as (pre & Hstrip & Hpre).
  assert (Hbody : Forall (fun c => float_char c = true) body).
  { destruct (pystr_eqb (lower body) (str "inf")) eqn:H1.
    { apply pystr_eqb_eq in H1. eapply lower_word_chars; [exact H1 |]. by repeat constructor. }
    destruct (pystr_eqb (lower body) (str "infinity")) eqn:H2.
    { apply pystr_eqb_eq in H2. eapply lower_word_chars; [exact H2 |]. by repeat constructor. }
    destruct (pystr_eqb (lower body) (str "nan")) eqn:H3.
    { apply pystr_eqb_eq in H3. eapply lower_word_chars; [exact H3 |]. by repeat constructor. }
    simpl in Hv. destruct (float_number body) as [q |] eqn:Hq; [| done].
    by eapply float_number_chars. }
  rewrite Hsab, Hstrip. repeat apply Forall_app_2; try done.
  - eapply Forall_impl; [exact Ha |]. intros c Hc. by apply space_float_char, blank_is_space.
  - eapply Forall_impl; [exact Hb |]. intros c Hc. by apply space_float_char, blank_is_space.
Qed.

(** ** [parse_phase_spec] *)

Lemma lower_char_at (c : ascii) : lower_char c = at_sign -> c = at_sign.
Proof.
  intros H. apply ascii_eqb_eq.
  cut ((fun c => negb (ascii_eqb (lower_char c) at_sign) || ascii_eqb c at_sign) c = true).
  { cbv beta. rewrite H. done. }
  apply all_ascii. vm_compute. reflexivity.
Qed.

Lemma py_float_no_char (s : pystr) v (c : ascii) :
  float_char c = false -> py_float s = Some v -> c ∉ s.
Proof.
  intros Hc Hv Hin. apply py_float_chars in Hv.
  rewrite Forall_forall in Hv. specialize (Hv c Hin). congruence.
Qed.

Lemma rate_part_no_at (rate_part r suffix : pystr) v :
  rate_str_of rate_part = r ++ suffix ->
  at_sign ∉ suffix ->
  py_float r = Some v ->
  at_sign ∉ rate_part.
Proof.
  intros Hrs Hsuf Hv Hin.
  destruct (strip_spec rate_part) as (a & b & Hab & Ha & Hb).
  rewrite Hab in Hin. rewrite !elem_of_app in Hin.
  assert (Hsp : forall l, Forall (fun c => is_space c = true) l -> at_sign ∉ l).
  { intros l Hl Hat. rewrite Forall_forall in Hl. by specialize (Hl _ Hat). }
  destruct Hin as [Hin | [Hin | Hin]]; [exact (Hsp _ Ha Hin) | | exact (Hsp _ Hb Hin)].
  assert (Hlow : at_sign ∈ rate_str_of rate_part).
  { unfold rate_str_of, lower. apply list_elem_of_fmap. by exists at_sign. }
  rewrite Hrs in Hlow. apply elem_of_app in Hlow as [Hlow | Hlow]; [| done].
  exact (py_float_no_char r v at_sign eq_refl Hv Hlow).
Qed.

Lemma fle0_finite (x : Q) : fle0 (Fin x) = false -> (0 < x)%Q.
Proof.
  simpl. intros H. destruct (Qlt_le_dec 0 x) as [Hx | Hx]; [done |].
  apply Qle_bool_iff in Hx. congruence.
Qed.

Lemma frecip_positive (v : pyfloat) : fle0 v = false -> exists w, frecip v = Ok w.
Proof.
  destruct v as [q | | |]; simpl; [| by eauto | done | by eauto].
  intros Hq. destruct (Qeq_bool q 0) eqn:Hz; [| eauto].
  apply Qeq_bool_iff in Hz. assert (Qle_bool q 0 = true); [| congruence].
  apply Qle_bool_iff. lra.
Qed.

Lemma quotes_invalid_spec (spec : pystr) : quotes spec (msg_invalid_spec spec).
Proof.
  exists (str "Invalid phase specification "), (str ". Expected format COUNT@RATE (e.g. 6000@2tps).").
  reflexivity.
Qed.

Lemma quotes_bad_count (t : pystr) : quotes t (msg_bad_count t).
Proof.
  exists (str "Phase count must be an integer, received "), (str ".").
  reflexivity.
Qed.

Lemma quotes_bad_tps (t : pystr) : quotes t (msg_bad_tps t).
Proof.
  exists (str "Unable to parse TPS value from "), (str ".").
  reflexivity.
Qed.

Lemma quotes_bad_interval (t : pystr) : quotes t (msg_bad_interval t).
Proof.
  exists (str "Unable to parse interval seconds from "), (str ".").
  reflexivity.
Qed.

Lemma quotes_bad_suffix (t : pystr) : quotes t (msg_bad_suffix t).
Proof.
  exists (str "Unknown rate suffix in "), (str ". Use values like '2tps' or '0.5s'.").
  reflexivity.
Qed.

(** The outcome of [parse_phase_spec] on a text that holds the separator
    and whose count text is an integer: the dispatch on the suffix. *)
Lemma parse_phase_spec_unfold (count_part rate_part : pystr) (count : Z) :
  (at_sign ∉ count_part) ->
  py_int count_part = Some count ->
  parse_phase_spec (count_part ++ at_sign :: rate_part)
  = if endswith (rate_str_of rate_part) (str "tps") then
      match py_float (drop_last 3 (rate_str_of rate_part)) with
      | None => Raise (ValueError (msg_bad_tps rate_part))
      | Some tps =>
          if fle0 tps then Raise (ValueError msg_tps_not_positive)
          else interval ← frecip tps; Ok (PhaseSpec count tps interval)
      end
    else if endswith (rate_str_of rate_part) (str "s") then
      match py_float (drop_last 1 (rate_str_of rate_part)) with
      | None => Raise (ValueError (msg_bad_interval rate_part))
      | Some interval =>
          if fle0 interval then Raise (ValueError msg_interval_not_positive)
          else tps ← frecip interval; Ok (PhaseSpec count tps interval)
      end
    else Raise (ValueError (msg_bad_suffix rate_part)).
Proof.
  intros Hat Hcount. unfold parse_phase_spec.
  assert (contains_at (count_part ++ at_sign :: rate_part) = true) as ->.
  { apply contains_at_spec, elem_of_app. right. by left. }
  rewrite split_at_app by done. cbn [negb]. by rewrite Hcount.
Qed.

(** Either the separator is missing, or the text splits at its first
    ["@"]. *)
Lemma spec_split (spec : pystr) :
  ((at_sign ∉ spec) /\ parse_phase_spec spec = Raise (ValueError (msg_invalid_spec spec)))
  \/ exists count_part rate_part,
       spec = count_part ++ at_sign :: rate_part /\ (at_sign ∉ count_part)
       /\ split_at spec = (count_part, rate_part).
Proof.
  destruct (contains_at spec) eqn:Hat.
  - right. apply contains_at_spec in Hat. destruct (split_at_spec spec Hat) as [Hspec Hcp].
    destruct (split_at spec) as [count_part rate_part]. simpl in *. eauto.
  - left. split; [by apply contains_at_false |]. unfold parse_phase_spec. by rewrite Hat.
Qed.

Lemma bad_count (count_part rate_part : pystr) :
  (at_sign ∉ count_part) ->
  py_int count_part = None ->
  parse_phase_spec (count_part ++ at_sign :: rate_part)
  = Raise (ValueError (msg_bad_count count_part)).
Proof.
  intros Hat Hcount. unfold parse_phase_spec.
  assert (contains_at (count_part ++ at_sign :: rate_part) = true) as ->.
  { apply contains_at_spec, elem_of_app. right. by left. }
  rewrite split_at_app by done. cbn [negb]. by rewrite Hcount.
Qed.

(** What an accepted text looks like. *)
Lemma parse_ok_inv (spec : pystr) (p : phase_spec) :
  parse_phase_spec spec = Ok p ->
  exists count_part rate_part,
    spec = count_part ++ at_sign :: rate_part
    /\ (at_sign ∉ count_part)
    /\ (at_sign ∉ rate_part)
    /\ py_int count_part = Some (ps_count p)
    /\ ((endswith (rate_str_of rate_part) (str "tps") = true
         /\ py_float (drop_last 3 (rate_str_of rate_part)) = Some (ps_tps p)
         /\ fle0 (ps_tps p) = false
         /\ frecip (ps_tps p) = Ok (ps_interval p))
        \/ (endswith (rate_str_of rate_part) (str "tps") = false
            /\ endswith (rate_str_of rate_part) (str "s") = true
            /\ py_float (drop_last 1 (rate_str_of rate_part)) = Some (ps_interval p)
            /\ fle0 (ps_interval p) = false
            /\ frecip (ps_interval p) = Ok (ps_tps p))).
Proof.
  destruct (spec_split spec) as [[_ Hraise] | (count_part & rate_part & -> & Hat & _)];
    [congruence |].
  destruct (py_int count_part) as [count |] eqn:Hcount;
    [| by rewrite bad_count].
  rewrite (parse_phase_spec_unfold _ _ _ Hat Hcount). intros Hp.
  exists count_part, rate_part. split; [done |]. split; [done |].
  destruct (endswith (rate_str_of rate_part) (str "tps")) eqn:Htps.
  - destruct (py_float (drop_last 3 (rate_str_of rate_part))) as [tps |] eqn:Hf; [| done].
    destruct (fle0 tps) eqn:Hle; [done |].
    destruct (frecip tps) as [interval | e] eqn:Hr; [| done].
    injection Hp as <-. cbn [ps_count ps_tps ps_interval].
    split; [| split; [done | by left]].
    apply endswith_spec in Htps as (r & Hrs).
    eapply (rate_part_no_at rate_part r (str "tps")); [done | by apply contains_at_false |].
    rewrite Hrs in Hf. change 3%nat with (length (str "tps")) in Hf.
    by rewrite drop_last_app in Hf.
  - destruct (endswith (rate_str_of rate_part) (str "s")) eqn:Hs; [| done].
    destruct (py_float (drop_last 1 (rate_str_of rate_part))) as [interval |] eqn:Hf; [| done].
    destruct (fle0 interval) eqn:Hle; [done |].
    destruct (frecip interval) as [tps | e] eqn:Hr; [| done].
    injection Hp as <-. cbn [ps_count ps_tps ps_interval].
    split; [| split; [done | by right]].
    apply endswith_spec in Hs as (r & Hrs).
    eapply (rate_part_no_at rate_part r (str "s")); [done | by apply contains_at_false |].
    rewrite Hrs in Hf. change 1%nat with (length (str "s")) in Hf.
    by rewrite drop_last_app in Hf.
Qed.

(** The frame of every failure after the separator is found. *)
Ltac raise_case :=
  eexists; split; [reflexivity |]; right; do 2 eexists;
  split; [reflexivity |]; split; [eassumption |].

(** C3, at inputs that the claim rules out.  A count of zero and a
    negative count are accepted, and the error for a rate that is not
    positive is a fixed sentence that quotes no part of the input. *)
Lemma parse_phase_spec_accepts_more :
  parse_phase_spec (str "0@2tps") = Ok (PhaseSpec 0 (Fin 2) (Fin (1 # 2)))
  /\ parse_phase_spec (str "-3@2tps") = Ok (PhaseSpec (-3) (Fin 2) (Fin (1 # 2)))
  /\ parse_phase_spec (str "5@0tps")
     = Raise (ValueError (str "Phase TPS must be greater than zero."))
  /\ parse_phase_spec (str "5@-1s")
     = Raise (ValueError (str "Phase interval must be greater than zero seconds.")).
Proof. repeat split; vm_compute; reflexivity. Qed.

(** C3, amended.  Parsing succeeds only when the text holds an ["@"], the
    text before the first ["@"] is an integer literal (of any sign) and
    the rate text after it, stripped and lower-cased, ends in ["tps"], or
    else in ["s"], after a float literal of a number greater than zero:
    a finite number above zero, or [inf]; the other field is then the
    rounded reciprocal.  (The statement is about rates that are numbers:
    what the guard does with [nan] is not part of it.)  The rate text
    holds no further ["@"].  Every failure is a [ValueError]: it quotes
    the whole text when the separator is missing, the count text when
    that is no integer, the rate text when its number does not parse or
    its suffix is unknown, and is a fixed sentence when the rate is
    [<= 0]. *)
Theorem parse_phase_spec_contract (spec : pystr) :
  (forall p, parse_phase_spec spec = Ok p ->
     exists count_part rate_part,
       spec = count_part ++ at_sign :: rate_part
       /\ (at_sign ∉ count_part)
       /\ (at_sign ∉ rate_part)
       /\ py_int count_part = Some (ps_count p)
       /\ ((endswith (rate_str_of rate_part) (str "tps") = true
            /\ py_float (drop_last 3 (rate_str_of rate_part)) = Some (ps_tps p)
            /\ (forall q, ps_tps p = Fin q -> (0 < q)%Q)
            /\ ps_tps p <> NegInf
            /\ frecip (ps_tps p) = Ok (ps_interval p))
           \/ (endswith (rate_str_of rate_part) (str "tps") = false
               /\ endswith (rate_str_of rate_part) (str "s") = true
               /\ py_float (drop_last 1 (rate_str_of rate_part)) = Some (ps_interval p)
               /\ (forall q, ps_interval p = Fin q -> (0 < q)%Q)
               /\ ps_interval p <> NegInf
               /\ frecip (ps_interval p) = Ok (ps_tps p))))
  /\ (forall e, parse_phase_spec spec = Raise e ->
        exists msg, e = ValueError msg
          /\ (((at_sign ∉ spec) /\ msg = msg_invalid_spec spec /\ quotes spec msg)
              \/ exists count_part rate_part,
                   spec = count_part ++ at_sign :: rate_part
                   /\ (at_sign ∉ count_part)
                   /\ ((py_int count_part = None
                        /\ msg = msg_bad_count count_part /\ quotes count_part msg)
                       \/ (is_Some (py_int count_part)
                           /\ ((endswith (rate_str_of rate_part) (str "tps") = true
                                /\ py_float (drop_last 3 (rate_str_of rate_part)) = None
                                /\ msg = msg_bad_tps rate_part /\ quotes rate_part msg)
                               \/ (endswith (rate_str_of rate_part) (str "tps") = true
                                   /\ (exists v, py_float (drop_last 3 (rate_str_of rate_part)) = Some v
                                                 /\ fle0 v = true)
                                   /\ msg = msg_tps_not_positive)
                               \/ (endswith (rate_str_of rate_part) (str "tps") = false
                                   /\ endswith (rate_str_of rate_part) (str "s") = true
                                   /\ py_float (drop_last 1 (rate_str_of rate_part)) = None
                                   /\ msg = msg_bad_interval rate_part /\ quotes rate_part msg)
                               \/ (endswith (rate_str_of rate_part) (str "tps") = false
                                   /\ endswith (rate_str_of rate_part) (str "s") = true
                                   /\ (exists v, py_float (drop_last 1 (rate_str_of rate_part)) = Some v
                                                 /\ fle0 v = true)
                                   /\ msg = msg_interval_not_positive)
                               \/ (endswith (rate_str_of rate_part) (str "tps") = false
                                   /\ endswith (rate_str_of rate_part) (str "s") = false
                                   /\ msg = msg_bad_suffix rate_part
                                   /\ quotes rate_part msg)))))).
Proof.
  split.
  { intros p Hp.
    destruct (parse_ok_inv spec p Hp) as (count_part & rate_part & Hs & Hc & Hr & Hn & Hrate).
    exists count_part, rate_part. split_and!; try done.
    destruct Hrate as [(Ht & Hf & Hle & Hq) | (Ht & Hs' & Hf & Hle & Hq)]; [left | right];
      split_and!; try done; try (intros q Hfin; rewrite Hfin in Hle; by apply fle0_finite);
      intros Hinf; by rewrite Hinf in Hle. }
  destruct (spec_split spec) as [[Hno Hraise] | (count_part & rate_part & -> & Hat & _)].
  { rewrite Hraise. intros e [= <-]. eexists. split; [reflexivity |]. left.
    split; [done |]. split; [done | apply quotes_invalid_spec]. }
  intros e He.
  destruct (py_int count_part) as [count |] eqn:Hcount.
  2:{ rewrite bad_count in He by done. injection He as <-. raise_case.
      left. split; [done |]. split; [done | apply quotes_bad_count]. }
  rewrite (parse_phase_spec_unfold _ _ _ Hat Hcount) in He.
  destruct (endswith (rate_str_of rate_part) (str "tps")) eqn:Htps.
  - destruct (py_float (drop_last 3 (rate_str_of rate_part))) as [tps |] eqn:Hf.
    2:{ injection He as <-. raise_case. right. split; [done |].
        left. repeat split; try done. apply quotes_bad_tps. }
    destruct (fle0 tps) eqn:Hle.
    { injection He as <-. raise_case. right. split; [done |].
      right. left. split; [done |]. split; [eauto | done]. }
    destruct (frecip_positive tps Hle) as (interval & Hr). by rewrite Hr in He.
  - destruct (endswith (rate_str_of rate_part) (str "s")) eqn:Hs.
    2:{ injection He as <-. raise_case. right. split; [done |].
        do 4 right. repeat split; try done. apply quotes_bad_suffix. }
    destruct (py_float (drop_last 1 (rate_str_of rate_part))) as [interval |] eqn:Hf.
    2:{ injection He as <-. raise_case. right. split; [done |].
        do 2 right. left. repeat split; try done. apply quotes_bad_interval. }
    destruct (fle0 interval) eqn:Hle.
    { injection He as <-. raise_case. right. split; [done |].
      do 3 right. left. repeat split; try done. eauto. }
    destruct (frecip_positive interval Hle) as (tps & Hr). by rewrite Hr in He.
Qed.

(** A use of the contract at ["6000@2tps"]. *)
Lemma parse_phase_spec_contract_at_6000 :
  exists count_part rate_part,
    str "6000@2tps" = count_part ++ at_sign :: rate_part
    /\ (at_sign ∉ rate_part)
    /\ py_int count_part = Some 6000.
Proof.
  destruct (proj1 (parse_phase_spec_contract (str "6000@2tps"))
              (PhaseSpec 6000 (Fin 2) (Fin (1 # 2)))) as (c & r & H1 & _ & H2 & H3 & _).
  - vm_compute. reflexivity.
  - exists c, r. auto.
Defined.

(** ** Rounding to binary64 *)

Lemma pow2_pos (e : Z) : (0 < pow2 e)%Q.
Proof. unfold pow2. by apply Qpower_0_lt. Qed.

Lemma pow2_add (a b : Z) : (pow2 (a + b) == pow2 a * pow2 b)%Q.
Proof. unfold pow2. by apply Qpower_plus. Qed.

Lemma pow2_Z (e : Z) : 0 <= e -> (pow2 e == inject_Z (2 ^ e))%Q.
Proof. intros He. unfold pow2. by rewrite Zpower_Qpower. Qed.

Lemma round_half_even_error (q : Q) :
  (Qabs (q - inject_Z (round_half_even q)) <= 1 # 2)%Q.
Proof.
  unfold round_half_even. pose proof (Qfloor_le q) as Hlo. pose proof (Qlt_floor q) as Hhi.
  rewrite inject_Z_plus in Hhi. change (inject_Z 1) with 1%Q in Hhi.
  destruct (q - inject_Z (Qfloor q) ?= 1 # 2)%Q eqn:Hc.
  - apply Qeq_alt in Hc. destruct (Z.even (Qfloor q)).
    + apply Qabs_case; intros; lra.
    + rewrite inject_Z_plus. change (inject_Z 1) with 1%Q. apply Qabs_case; intros; lra.
  - apply Qlt_alt in Hc. apply Qabs_case; intros; lra.
  - apply Qgt_alt in Hc. rewrite inject_Z_plus. change (inject_Z 1) with 1%Q.
    apply Qabs_case; intros; lra.
Qed.

(** A finite result of the rounding is within half a spacing of the
    number. *)
Lemma round64_error (q v : Q) :
  round64 q = Fin v -> (Qabs (v - q) <= ulp64 (Qabs q) * (1 # 2))%Q.
Proof.
  unfold round64. pose proof (pow2_pos (Z.max (floor_log2 (Qabs q)) (-1022) - 52)) as Hu.
  fold (ulp64 (Qabs q)) in Hu.
  destruct (Qeq_bool q 0) eqn:Hz.
  { intros [= <-]. apply Qeq_bool_iff in Hz. apply Qabs_case; intros; lra. }
  pose proof (round_half_even_error (Qabs q / ulp64 (Qabs q))) as Hm.
  set (m := inject_Z (round_half_even (Qabs q / ulp64 (Qabs q)))) in *.
  set (u := ulp64 (Qabs q)) in *.
  assert (Hmu : (Qabs (m * u - Qabs q) <= u * (1 # 2))%Q).
  { assert (Heq : (m * u - Qabs q == - (Qabs q / u - m) * u)%Q) by (field; lra).
    rewrite Heq, Qabs_Qmult, Qabs_opp, (Qabs_pos u) by lra.
    apply Qmult_le_compat_r with (z := u) in Hm; lra. }
  destruct (Qle_bool (pow2 1024) (m * u)); [by destruct (Qle_bool 0 q) |].
  intros [= <-]. rewrite Qred_correct.
  destruct (Qle_bool 0 q) eqn:Hs.
  - apply Qle_bool_iff in Hs. rewrite (Qabs_pos q) in Hmu by done. done.
  - assert (Hneg : (q <= 0)%Q).
    { destruct (Qlt_le_dec 0 q) as [Hp | Hp]; [| done].
      apply Qlt_le_weak, Qle_bool_iff in Hp. congruence. }
    rewrite (Qabs_neg q) in Hmu by done.
    assert (Heq : (- (m * u) - q == - (m * u - - q))%Q) by ring.
    by rewrite Heq, Qabs_opp.
Qed.

Lemma floor_log2_le (q : Q) : (0 < q)%Q -> (pow2 (floor_log2 q) <= q)%Q.
Proof.
  intros Hq. unfold floor_log2.
  destruct (Qle_bool _ q) eqn:Hle; [by apply Qle_bool_iff in Hle |]. clear Hle.
  destruct q as [n d]. cbn [Qnum Qden].
  assert (Hn : 0 < n) by (unfold Qlt in Hq; cbn [Qnum Qden] in Hq; lia).
  pose proof (Z.log2_spec n Hn) as [Hn1 _].
  pose proof (Z.log2_spec (Z.pos d) ltac:(lia)) as [_ Hd2].
  pose proof (Z.log2_nonneg n) as Ha. pose proof (Z.log2_nonneg (Z.pos d)) as Hb.
  set (a := Z.log2 n) in *. set (b := Z.log2 (Z.pos d)) in *.
  replace (a - b - 1) with (a + - (b + 1)) by lia.
  rewrite pow2_add. unfold pow2 at 2. rewrite Qpower_opp. fold (pow2 (b + 1)).
  rewrite (pow2_Z a), (pow2_Z (b + 1)) by lia.
  rewrite <- Z.add_1_r in Hd2.
  assert (Hpos : 0 < 2 ^ (b + 1)) by (apply Z.pow_pos_nonneg; lia).
  rewrite (Qmake_Qdiv n d).
  apply Qle_shift_div_l; [change 0%Q with (inject_Z 0); rewrite <- Zlt_Qlt; lia |].
  assert (Heq : (inject_Z (2 ^ a) * / inject_Z (2 ^ (b + 1)) * inject_Z (Z.pos d)
                 == inject_Z (2 ^ a) * (inject_Z (Z.pos d) / inject_Z (2 ^ (b + 1))))%Q).
  { field. assert (0 < inject_Z (2 ^ (b + 1)))%Q; [| lra].
    change 0%Q with (inject_Z 0). rewrite <- Zlt_Qlt. lia. }
  rewrite Heq.
  assert (Hfrac : (inject_Z (Z.pos d) / inject_Z (2 ^ (b + 1)) <= 1)%Q).
  { apply Qle_shift_div_r; [change 0%Q with (inject_Z 0); rewrite <- Zlt_Qlt; lia |].
    rewrite Qmult_1_l. rewrite <- Zle_Qle. lia. }
  assert (H0 : (0 <= inject_Z (2 ^ a))%Q).
  { change 0%Q with (inject_Z 0). rewrite <- Zle_Qle. lia. }
  assert (Hna : (inject_Z (2 ^ a) <= inject_Z n)%Q) by (rewrite <- Zle_Qle; lia).
  assert (H1 : (0 <= inject_Z (Z.pos d) / inject_Z (2 ^ (b + 1)))%Q).
  { apply Qle_shift_div_l; [change 0%Q with (inject_Z 0); rewrite <- Zlt_Qlt; lia |].
    rewrite Qmult_0_l. change 0%Q with (inject_Z 0). rewrite <- Zle_Qle. lia. }
  nra.
Qed.

(** In the normal range the rounding changes a number by at most one
    part in [2 ^ 53]. *)
Lemma round64_relative (q v : Q) :
  round64 q = Fin v ->
  (pow2 (-1022) <= Qabs q)%Q ->
  (Qabs (v - q) <= Qabs q * pow2 (-53))%Q.
Proof.
  intros Hv Hq. apply round64_error in Hv. etrans; [exact Hv |].
  unfold ulp64.
  assert (Hpos : (0 < Qabs q)%Q) by (pose proof (pow2_pos (-1022)); lra).
  pose proof (floor_log2_le _ Hpos) as Hfl.
  assert (Hulp : (pow2 (Z.max (floor_log2 (Qabs q)) (-1022)) <= Qabs q)%Q).
  { destruct (Z.max_spec (floor_log2 (Qabs q)) (-1022)) as [[_ ->] | [_ ->]]; done. }
  replace (Z.max (floor_log2 (Qabs q)) (-1022) - 52)
    with (Z.max (floor_log2 (Qabs q)) (-1022) + -52) by lia.
  rewrite pow2_add.
  assert (H52 : (pow2 (-52) * (1 # 2) == pow2 (-53))%Q) by reflexivity.
  rewrite <- H52. pose proof (pow2_pos (-52)).
  pose proof (pow2_pos (Z.max (floor_log2 (Qabs q)) (-1022))).
  nra.
Qed.

Lemma Qabs_inv_pos (x : Q) : (0 < x)%Q -> Qabs (/ x) = (/ x)%Q.
Proof. destruct x as [[| n | n] d]; intros Hx; try done. Qed.

(** ** The two rate notations *)

Lemma fle0_positive (x : Q) : (0 < x)%Q -> fle0 (Fin x) = false /\ Qeq_bool x 0 = false.
Proof.
  intros Hx. split.
  - simpl. destruct (Qle_bool x 0) eqn:H; [| done]. apply Qle_bool_iff in H. lra.
  - destruct (Qeq_bool x 0) eqn:H; [| done]. apply Qeq_bool_iff in H. lra.
Qed.

Lemma frecip_finite (x : Q) (w : pyfloat) :
  (0 < x)%Q -> frecip (Fin x) = Ok w -> w = round64 (/ x).
Proof.
  intros Hx. destruct (fle0_positive x Hx) as [_ Hz]. unfold frecip. rewrite Hz. congruence.
Qed.

(** The rounded reciprocal of a positive number is the binary64 number
    nearest to the exact one. *)
Lemma frecip_nearest (x i : Q) :
  (0 < x)%Q -> round64 (/ x) = Fin i ->
  (Qabs (i - / x) <= ulp64 (/ x) * (1 # 2))%Q
  /\ ((pow2 (-1022) <= / x)%Q -> (Qabs (i - / x) <= / x * pow2 (-53))%Q).
Proof.
  intros Hx Hi. split.
  - rewrite <- (Qabs_inv_pos x Hx) at 2. by apply round64_error.
  - intros Hn. pose proof (round64_relative (/ x) i Hi) as Hr.
    rewrite (Qabs_inv_pos x Hx) in Hr. by apply Hr.
Qed.

(** A float literal followed by ["s"] does not end in ["tps"]. *)
Lemma seconds_not_tps (ys : pystr) (v : pyfloat) :
  py_float ys = Some v -> endswith (ys ++ str "s") (str "tps") = false.
Proof.
  intros Hy. destruct (endswith (ys ++ str "s") (str "tps")) eqn:He; [| done].
  apply endswith_spec in He as (r & Hr).
  change (str "tps") with (str "tp" ++ str "s") in Hr. rewrite app_assoc in Hr.
  apply app_inj_tail in Hr as [-> _].
  exfalso. apply (py_float_no_char _ _ "p"%char eq_refl Hy).
  apply elem_of_app. right. right. left.
Qed.


(** The plain form ["N@Ys"] is accepted.  When the count text is an
    integer literal of [n] without ["@"] and the rate text is, as it
    stands, a float literal of the positive binary64 number [y] followed
    by ["s"], the result has count [n], interval [y] and, as tps, the
    binary64 number nearest to [1 / y]; the ["tps"] branch is not taken. *)
Lemma parse_seconds_form (count_part ys : pystr) (n : Z) (y : Q) :
  (at_sign ∉ count_part) ->
  py_int count_part = Some n ->
  rate_str_of (ys ++ str "s") = ys ++ str "s" ->
  py_float ys = Some (Fin y) ->
  (0 < y)%Q ->
  parse_phase_spec (count_part ++ at_sign :: ys ++ str "s")
  = Ok (PhaseSpec n (round64 (/ y)) (Fin y)).
Proof.
  intros Hat Hn Hrs Hy Hpos. destruct (fle0_positive y Hpos) as [Hle Hz].
  rewrite (parse_phase_spec_unfold _ _ _ Hat Hn), Hrs.
  rewrite (seconds_not_tps ys _ Hy).
  assert (endswith (ys ++ str "s") (str "s") = true) as -> by (apply endswith_spec; eauto).
  change 1%nat with (length (str "s")). rewrite drop_last_app, Hy, Hle.
  unfold frecip. rewrite Hz. reflexivity.
Qed.

(** C8, at two specs of equivalent rates: [1.0 / 3125] is the float
    [0.00032], so both specs have the same tps; but [1.0 / 0.00032] is
    not [3125.0], it is the float just below, so the intervals differ. *)
Lemma rate_round_trip_breaks :
  exists p q,
    parse_phase_spec (str "1@0.00032tps") = Ok p
    /\ parse_phase_spec (str "1@3125s") = Ok q
    /\ ps_tps p = ps_tps q
    /\ ps_interval q = Fin 3125
    /\ ps_interval p = Fin (6871947673599999 # 2199023255552)
    /\ ~ feq (ps_interval p) (ps_interval q).
Proof.
  eexists. eexists. split; [vm_compute; reflexivity |]. split; [vm_compute; reflexivity |].
  cbn [ps_tps ps_interval]. split; [reflexivity |]. split; [reflexivity |].
  split; [reflexivity |]. discriminate.
Qed.

(** C8, amended.  Take an accepted spec whose rate text, stripped and
    lower-cased, is a literal of the finite float X followed by ["tps"],
    and an accepted spec whose rate text is a literal of the finite float
    Y followed by ["s"].  The first yields tps = X and interval = 1.0 / X,
    the second interval = Y and tps = 1.0 / Y; both numbers are positive,
    and each quotient is the binary64 number nearest to the exact
    reciprocal: within half a spacing of it, which in the normal range is
    one part in [2 ^ 53].  When X = 1.0 / Y the two results have the same
    tps; they have the same interval exactly when also 1.0 / X = Y. *)
Theorem rate_notations_reciprocal (spec_tps spec_s xs ys : pystr)
    (p q : phase_spec) (x y : Q) :
  parse_phase_spec spec_tps = Ok p ->
  rate_str_of (split_at spec_tps).2 = xs ++ str "tps" ->
  py_float xs = Some (Fin x) ->
  parse_phase_spec spec_s = Ok q ->
  rate_str_of (split_at spec_s).2 = ys ++ str "s" ->
  py_float ys = Some (Fin y) ->
  (ps_tps p = Fin x /\ (0 < x)%Q /\ ps_interval p = round64 (/ x)
   /\ forall i, ps_interval p = Fin i ->
        (Qabs (i - / x) <= ulp64 (/ x) * (1 # 2))%Q
        /\ ((pow2 (-1022) <= / x)%Q -> (Qabs (i - / x) <= / x * pow2 (-53))%Q))
  /\ (ps_interval q = Fin y /\ (0 < y)%Q /\ ps_tps q = round64 (/ y)
      /\ forall t, ps_tps q = Fin t ->
           (Qabs (t - / y) <= ulp64 (/ y) * (1 # 2))%Q
           /\ ((pow2 (-1022) <= / y)%Q -> (Qabs (t - / y) <= / y * pow2 (-53))%Q))
  /\ (feq (Fin x) (round64 (/ y)) ->
      feq (ps_tps p) (ps_tps q)
      /\ (feq (ps_interval p) (ps_interval q) <-> feq (round64 (/ x)) (Fin y))).
Proof.
  intros Hp Hxs Hx Hq Hys Hy.
  assert (Hleft : ps_tps p = Fin x /\ (0 < x)%Q /\ ps_interval p = round64 (/ x)).
  { destruct (parse_ok_inv _ _ Hp) as (cp & rp & -> & Hat & _ & _ & Hrate).
    rewrite split_at_app in Hxs by done. cbn [snd] in Hxs. rewrite Hxs in Hrate.
    assert (endswith (xs ++ str "tps") (str "tps") = true) as He
      by (apply endswith_spec; eauto).
    destruct Hrate as [(_ & Hf & Hle & Hr) | (Hno & _)]; [| congruence].
    change 3%nat with (length (str "tps")) in Hf. rewrite drop_last_app, Hx in Hf.
    injection Hf as Htps. rewrite <- Htps in Hle, Hr.
    pose proof (fle0_finite x Hle) as Hpos.
    split; [done |]. split; [done |]. by apply frecip_finite. }
  assert (Hright : ps_interval q = Fin y /\ (0 < y)%Q /\ ps_tps q = round64 (/ y)).
  { destruct (parse_ok_inv _ _ Hq) as (cp & rp & -> & Hat & _ & _ & Hrate).
    rewrite split_at_app in Hys by done. cbn [snd] in Hys. rewrite Hys in Hrate.
    rewrite (seconds_not_tps ys _ Hy) in Hrate.
    destruct Hrate as [(Habs & _) | (_ & _ & Hf & Hle & Hr)]; [done |].
    change 1%nat with (length (str "s")) in Hf. rewrite drop_last_app, Hy in Hf.
    injection Hf as Hint. rewrite <- Hint in Hle, Hr.
    pose proof (fle0_finite y Hle) as Hpos.
    split; [done |]. split; [done |]. by apply frecip_finite. }
  destruct Hleft as (Hpt & Hxpos & Hpi), Hright as (Hqi & Hypos & Hqt).
  split; [| split].
  - split_and!; try done. intros i Hi. rewrite Hpi in Hi. by apply frecip_nearest.
  - split_and!; try done. intros t Ht. rewrite Hqt in Ht. by apply frecip_nearest.
  - intros Hxy. rewrite Hpt, Hqt, Hpi, Hqi. done.
Qed.

(** C8 at ["4@2tps"] and ["4@0.5s"]. *)
Lemma rate_notations_reciprocal_at_2 :
  exists p q,
    parse_phase_spec (str "4@2tps") = Ok p
    /\ parse_phase_spec (str "4@0.5s") = Ok q
    /\ ps_interval p = round64 (/ 2)
    /\ ps_tps q = round64 (/ (1 # 2))
    /\ feq (ps_tps p) (ps_tps q)
    /\ feq (ps_interval p) (ps_interval q).
Proof.
  exists (PhaseSpec 4 (Fin 2) (Fin (1 # 2))), (PhaseSpec 4 (Fin 2) (Fin (1 # 2))).
  destruct (rate_notations_reciprocal (str "4@2tps") (str "4@0.5s") (str "2") (str "0.5")
              (PhaseSpec 4 (Fin 2) (Fin (1 # 2))) (PhaseSpec 4 (Fin 2) (Fin (1 # 2)))
              2 (1 # 2)) as ((_ & _ & Hpi & _) & (_ & _ & Hqt & _) & Hsame);
    try (vm_compute; reflexivity).
  destruct Hsame as [Ht Hi]; [vm_compute; reflexivity |].
  split; [vm_compute; reflexivity |]. split; [vm_compute; reflexivity |].
  split; [exact Hpi |]. split; [exact Hqt |]. split; [exact Ht |].
  apply Hi. vm_compute. reflexivity.
Defined.

(** ** Pacing *)

Lemma fgt_sub (d : pyfloat) (now : Q) :
  fgt (fsub d (Fin now)) (Fin 0) = fgt d (Fin now).
Proof.
  destruct d as [q | | |]; try reflexivity.
  simpl. apply bool_decide_ext. split; intros; lra.
Qed.

Section Pacing.

Context (label_string : string) (start_overall : Q).

Lemma phased_loop_length (schedule : list sched_item) (obs : nat -> submit_obs) d0 i0 :
  length (phased_loop label_string start_overall d0 i0 schedule obs) = length schedule.
Proof.
  revert d0 i0. induction schedule as [| item rest IH]; intros d0 i0; [done |].
  simpl. by rewrite IH.
Qed.

Lemma phased_loop_lookup (schedule : list sched_item) (obs : nat -> submit_obs) d0 i0 i item :
  schedule !! i = Some item ->
  phased_loop label_string start_overall d0 i0 schedule obs !! i
  = Some (phased_iteration label_string start_overall
            (match i with
             | O => d0
             | S j => default d0 (it_next_emit_time
                        <$> phased_loop label_string start_overall d0 i0 schedule obs !! j)
             end)
            (i0 + i) item (obs (i0 + i)%nat)).
Proof.
  revert d0 i0 i. induction schedule as [| first rest IH]; intros d0 i0 i Hi; [done |].
  destruct i as [| j]; simpl in Hi.
  - injection Hi as ->. simpl. by rewrite Nat.add_0_r.
  - cbn [phased_loop]. rewrite lookup_cons_ne_0 by done. simpl pred.
    rewrite (IH _ _ j Hi). replace (S i0 + j)%nat with (i0 + S j)%nat by lia.
    do 2 f_equal. destruct j as [| k]; [done |].
    rewrite lookup_cons_ne_0 by done. simpl pred.
    destruct (lookup_lt_is_Some_2
                (phased_loop label_string start_overall
                   (it_next_emit_time
                      (phased_iteration label_string start_overall d0 i0 first (obs i0)))
                   (S i0) rest obs) k) as [x Hx].
    { rewrite phased_loop_length. apply lookup_lt_Some in Hi. lia. }
    by rewrite Hx.
Qed.

End Pacing.

(** ** The collector pool: every call ends in exactly one row *)

Lemma held_keys_insert (ws : list wstate) (w : nat) (old new : wstate) :
  ws !! w = Some old ->
  option_list (held_key old) ++ omap held_key (<[w := new]> ws)
  ≡ₚ option_list (held_key new) ++ omap held_key ws.
Proof.
  intros Hw. rewrite insert_take_drop by (by eapply lookup_lt_Some).
  rewrite <- (take_drop_middle ws w old Hw) at 3.
  rewrite !omap_app. cbn [omap list_omap].
  destruct (held_key old), (held_key new); simpl; solve_Permutation.
Qed.

Section Collector.

Context (label_string : string) (start_overall : Q).

Lemma worker_row_key (item : submission) (oc : receipt_outcome) :
  row_key (worker_row label_string start_overall item oc) = submission_key item.
Proof. by destruct oc. Qed.

Lemma step_pool (s s' : sys) : step label_string start_overall s s' -> pool s' ≡ₚ pool s.
Proof.
  intros Hstep. destruct Hstep; unfold pool; cbn [results queue workers todo].
  - rewrite omap_app. cbn. solve_Permutation.
  - rewrite fmap_app. cbn. solve_Permutation.
  - rewrite omap_app. cbn. by rewrite app_nil_r.
  - pose proof (held_keys_insert ws w Idle (Busy item) H) as Hk. cbn in Hk.
    cbn [omap list_omap fmap option_fmap option_map]. rewrite Hk. solve_Permutation.
  - pose proof (held_keys_insert ws w Idle Done H) as Hk. cbn in Hk.
    cbn [omap list_omap fmap option_fmap option_map]. by rewrite Hk.
  - pose proof (held_keys_insert ws w (Busy item) Idle H) as Hk. cbn in Hk.
    rewrite fmap_app. cbn [fmap list_fmap]. rewrite worker_row_key.
    rewrite <- Hk. solve_Permutation.
Qed.

Lemma steps_pool (s s' : sys) : rtc (step label_string start_overall) s s' -> pool s' ≡ₚ pool s.
Proof.
  induction 1 as [| s1 s2 s3 H12 _ IH]; [done |].
  rewrite IH. by apply step_pool.
Qed.

Lemma init_pool (actions : list action) (receipt_workers : Z) :
  pool (init actions receipt_workers) = action_key <$> actions.
Proof.
  unfold pool, init. cbn [results queue workers todo]. simpl.
  induction (worker_count receipt_workers) as [| n IH]; [done |]. exact IH.
Qed.

Lemma terminated_pool (s : sys) : terminated s -> pool s = row_key <$> results s.
Proof.
  intros (Htd & _ & Hq & Hws). unfold pool. rewrite Htd, Hq. cbn.
  assert (omap held_key (workers s) = []) as ->.
  { induction Hws as [| w ws Hw _ IH]; [done |]. subst w. exact IH. }
  by rewrite !app_nil_r.
Qed.

End Collector.

(** ** Sorting by index *)

#[global] Instance by_index_transitive : Transitive by_index.
Proof. unfold by_index. intros a b c. lia. Qed.

#[global] Instance by_index_total : Total by_index.
Proof. unfold by_index. intros a b. lia. Qed.

Lemma sorted_of_seq (l : list call_key) (j : nat) :
  key_index <$> l = seq j (length l) -> StronglySorted key_le l.
Proof.
  revert j. induction l as [| k l IH]; intros j Hseq; [constructor |].
  simpl in Hseq. injection Hseq as Hk Hl. constructor; [by eapply IH |].
  apply Forall_forall. intros k' Hin.
  assert (Hk' : key_index k' ∈ seq (S j) (length l)).
  { rewrite <- Hl. apply list_elem_of_fmap. eauto. }
  apply elem_of_seq in Hk'. unfold key_le. lia.
Qed.

Lemma same_index_same_key (l : list call_key) (j : nat) (a b : call_key) :
  key_index <$> l = seq j (length l) ->
  a ∈ l -> b ∈ l -> key_index a = key_index b -> a = b.
Proof.
  intros Hseq [ia Ha]%list_elem_of_lookup [ib Hb]%list_elem_of_lookup Hab.
  assert (Hnd : NoDup (key_index <$> l)) by (rewrite Hseq; apply NoDup_seq).
  assert (ia = ib).
  { eapply (NoDup_lookup _ _ _ (key_index a) Hnd).
    - by rewrite list_lookup_fmap, Ha.
    - by rewrite list_lookup_fmap, Hb, Hab. }
  subst ib. congruence.
Qed.

Lemma sorted_keys_unique (l1 l2 : list call_key) (j : nat) :
  l1 ≡ₚ l2 ->
  StronglySorted key_le l1 ->
  key_index <$> l2 = seq j (length l2) ->
  l1 = l2.
Proof.
  intros Hperm Hs1 Hseq. apply (StronglySorted_unique_strong key_le); try done.
  - intros a b Ha Hb Hab Hba. rewrite Hperm in Ha.
    eapply same_index_same_key; eauto. unfold key_le in *. lia.
  - by eapply sorted_of_seq.
Qed.

Lemma sort_results_keys (rs : list row) (keys : list call_key) :
  row_key <$> rs ≡ₚ keys ->
  key_index <$> keys = seq 0 (length keys) ->
  row_key <$> sort_results rs = keys.
Proof.
  intros Hperm Hseq. apply (sorted_keys_unique _ _ 0); [| | done].
  - rewrite <- Hperm. unfold sort_results. by rewrite merge_sort_Permutation.
  - apply (StronglySorted_fmap row_key by_index key_le); [done |].
    unfold sort_results. apply StronglySorted_merge_sort; apply _.
Qed.

Lemma keys_give_indices (out : list row) (keys : list call_key) :
  row_key <$> out = keys ->
  key_index <$> keys = seq 0 (length keys) ->
  length out = length keys /\ r_index <$> out = seq 0 (length keys).
Proof.
  intros Hk Hseq. split.
  - by rewrite <- Hk, length_fmap.
  - rewrite <- Hseq, <- Hk, <- list_fmap_compose. done.
Qed.

(** ** The keys of the submitter's actions *)

Section Actions.

Context (label_string : string) (start_overall : Q).

Lemma submit_call_key (index : nat) (account : string) (phase : option string)
    (ob : submit_obs) :
  action_key (submit_call label_string start_overall index account phase ob)
  = (index, account, phase).
Proof. unfold submit_call. by destruct (ob_transact ob). Qed.

Lemma sequential_actions_keys (voters : list string) (obs : nat -> submit_obs) :
  action_key <$> sequential_actions label_string start_overall voters obs
  = sequential_keys voters.
Proof.
  unfold sequential_actions, sequential_keys. rewrite fmap_imap.
  apply imap_ext. intros i v _. simpl. apply submit_call_key.
Qed.

Lemma sequential_keys_indices (voters : list string) :
  key_index <$> sequential_keys voters = seq 0 (length (sequential_keys voters)).
Proof.
  unfold sequential_keys. rewrite length_imap, fmap_imap.
  rewrite (imap_ext _ (fun i _ => i)) by done.
  rewrite imap_seq_0. by rewrite list_fmap_id.
Qed.

Lemma phased_loop_keys (schedule : list sched_item) (obs : nat -> submit_obs) d0 i0 :
  action_key <$> (it_action <$> phased_loop label_string start_overall d0 i0 schedule obs)
  = schedule_keys schedule.
Proof.
  revert d0 i0. induction schedule as [| item rest IH]; intros d0 i0; [done |].
  cbn [phased_loop fmap list_fmap]. unfold schedule_keys. cbn [fmap list_fmap].
  f_equal; [apply submit_call_key | apply IH].
Qed.

End Actions.

(** ** Building the schedule *)

Lemma expand_phase_ok (voters : list string) (entry : phase_entry) (n : nat)
    (acc acc' : list sched_item * nat) :
  expand_phase voters entry n acc = Ok acc' ->
  schedule_ok voters acc ->
  schedule_ok voters acc' /\ length acc'.1 = (length acc.1 + n)%nat.
Proof.
  revert acc. induction n as [| n IH]; intros [schedule vi] Hexp Hok.
  - injection Hexp as <-. split; [done | simpl; lia].
  - cbn [expand_phase] in Hexp.
    destruct (voters !! vi) as [account |] eqn:Hv; [| done].
    apply IH in Hexp as [Hok' Hlen].
    + split; [done |]. rewrite Hlen. cbn [fst]. rewrite length_app. simpl. lia.
    + destruct Hok as (Hvi & Hidx & Hacc). cbn [fst snd] in *. subst vi.
      split; [| split]; cbn [fst snd].
      * rewrite length_app. simpl. lia.
      * rewrite fmap_app, length_app, Hidx. simpl. rewrite seq_app. done.
      * apply Forall_app. split; [done |]. by repeat constructor.
Qed.

Lemma fold_expand_raise (voters : list string) (phase_plan : list phase_entry) (e : exn) :
  fold_left
    (fun acc entry => st ← acc; expand_phase voters entry (Z.to_nat (pe_count entry)) st)
    phase_plan (Raise e) = Raise e.
Proof. induction phase_plan as [| entry rest IH]; [done | exact IH]. Qed.

Lemma fold_expand_ok (voters : list string) (phase_plan : list phase_entry)
    (acc acc' : list sched_item * nat) :
  fold_left
    (fun acc entry => st ← acc; expand_phase voters entry (Z.to_nat (pe_count entry)) st)
    phase_plan (Ok acc) = Ok acc' ->
  schedule_ok voters acc ->
  schedule_ok voters acc' /\ length acc'.1 = (length acc.1 + planned_calls phase_plan)%nat.
Proof.
  revert acc. induction phase_plan as [| entry rest IH]; intros acc Hfold Hok.
  - injection Hfold as <-. split; [done | simpl; lia].
  - cbn [fold_left] in Hfold. cbn [mbind result_bind bind] in Hfold.
    destruct (expand_phase voters entry (Z.to_nat (pe_count entry)) acc) as [acc1 | e] eqn:He.
    + destruct (expand_phase_ok _ _ _ _ _ He Hok) as [Hok1 Hlen1].
      destruct (IH _ Hfold Hok1) as [Hok' Hlen']. split; [done |].
      rewrite Hlen', Hlen1. simpl. lia.
    + by rewrite fold_expand_raise in Hfold.
Qed.

Lemma build_schedule_ok (voters : list string) (phase_plan : list phase_entry)
    (schedule : list sched_item) :
  build_schedule voters phase_plan = Ok schedule ->
  si_index <$> schedule = seq 0 (length schedule)
  /\ Forall (fun item => voters !! si_index item = Some (si_account item)) schedule
  /\ length schedule = planned_calls phase_plan
  /\ total_required phase_plan <= Z.of_nat (length voters).
Proof.
  unfold build_schedule. case_decide as Hreq; [done |].
  destruct (fold_left _ phase_plan (Ok ([], O))) as [acc | e] eqn:Hfold; [| done].
  cbn [mbind result_bind bind]. intros [= <-].
  destruct (fold_expand_ok _ _ _ _ Hfold) as [(_ & Hidx & Hacc) Hlen].
  { split; [done |]. split; [done | constructor]. }
  split; [done |]. split; [done |]. split; [exact Hlen | lia].
Qed.

Lemma planned_calls_total (phase_plan : list phase_entry) :
  Forall (fun entry => 0 <= pe_count entry) phase_plan ->
  Z.of_nat (planned_calls phase_plan) = total_required phase_plan.
Proof.
  induction 1 as [| entry rest Hc _ IH]; [done |].
  simpl. rewrite Nat2Z.inj_add, IH. lia.
Qed.

Lemma schedule_keys_indices (schedule : list sched_item) :
  si_index <$> schedule = seq 0 (length schedule) ->
  key_index <$> schedule_keys schedule = seq 0 (length (schedule_keys schedule)).
Proof.
  intros Hidx. unfold schedule_keys. rewrite length_fmap, <- list_fmap_compose. exact Hidx.
Qed.

(** ** A full run exists *)

Section Progress.

Context (label_string : string) (start_overall : Q).

Lemma run_submitter (actions : list action) (k : nat) (ws : list wstate) (rs : list row) :
  ws !! O = Some Idle ->
  exists rs', rtc (step label_string start_overall) (Sys actions k [] ws rs) (Sys [] k [] ws rs').
Proof.
  intros Hw. revert rs. induction actions as [| a rest IH]; intros rs.
  - exists rs. apply rtc_refl.
  - destruct a as [item | r].
    + destruct (IH (rs ++ [worker_row label_string start_overall item TimeExhausted]))
        as (rs' & Hrun).
      exists rs'. eapply rtc_l; [apply step_put |].
      eapply rtc_l; [apply (step_get_item _ _ O); exact Hw |].
      eapply rtc_l.
      { apply (step_collect _ _ O item TimeExhausted).
        apply list_lookup_insert_eq. by eapply lookup_lt_Some. }
      rewrite list_insert_insert_eq, list_insert_id by done. exact Hrun.
    + destruct (IH (rs ++ [r])) as (rs' & Hrun).
      exists rs'. eapply rtc_l; [apply step_append | exact Hrun].
Qed.

Lemma run_shutdown (k d : nat) (rs : list row) :
  rtc (step label_string start_overall) (Sys [] k [] (replicate d Done ++ replicate k Idle) rs)
           (Sys [] O [] (replicate (d + k) Done) rs).
Proof.
  revert d. induction k as [| k IH]; intros d.
  - rewrite Nat.add_0_r. simpl. rewrite app_nil_r. apply rtc_refl.
  - eapply rtc_l; [apply step_sentinel |]. simpl app.
    eapply rtc_l.
    { apply (step_get_sentinel _ _ d).
      rewrite lookup_app_r by (by rewrite length_replicate).
      rewrite length_replicate, Nat.sub_diag. done. }
    replace (<[d := Done]> (replicate d Done ++ replicate (S k) Idle))
      with (replicate (S d) Done ++ replicate k Idle).
    { replace (d + S k)%nat with (S d + k)%nat by lia. apply IH. }
    rewrite insert_app_r_alt by (by rewrite length_replicate).
    rewrite length_replicate, Nat.sub_diag.
    rewrite (replicate_S_end d), <- app_assoc. done.
Qed.

Lemma worker_count_positive (receipt_workers : Z) : (0 < worker_count receipt_workers)%nat.
Proof. unfold worker_count. lia. Qed.

Lemma run_exists (actions : list action) (receipt_workers : Z) :
  exists s, rtc (step label_string start_overall) (init actions receipt_workers) s /\ terminated s.
Proof.
  unfold init. pose proof (worker_count_positive receipt_workers) as Hn.
  destruct (run_submitter actions (worker_count receipt_workers)
              (replicate (worker_count receipt_workers) Idle) []) as (rs & Hrun).
  { apply lookup_replicate_2. lia. }
  eexists. split.
  - etrans; [exact Hrun |]. apply (run_shutdown _ O).
  - split; [done |]. split; [done |]. split; [done |]. simpl.
    by apply Forall_replicate.
Qed.

End Progress.

(** ** A sleep that raises *)

Lemma time_sleep_positive (d : pyfloat) (e : exn) :
  fgt d (Fin 0) = true -> time_sleep d = Raise e ->
  e = OverflowError
  /\ (d = PosInf \/ exists q, d = Fin q /\ 2 ^ 63 <= Qceiling (q * inject_Z (10 ^ 9))).
Proof.
  destruct d as [q | | |]; [| intros _ [= <-]; by auto | done | done].
  cbn [fgt]. intros Hq%bool_decide_eq_true. unfold time_sleep.
  assert (Hle : Qle_bool 0 q = true) by (apply Qle_bool_iff; lra). rewrite Hle.
  assert (Hns : 0 <= Qceiling (q * inject_Z (10 ^ 9))).
  { assert (Hpos : (0 <= q * inject_Z (10 ^ 9))%Q).
    { apply Qmult_le_0_compat; [lra | done]. }
    pose proof (Qle_ceiling (q * inject_Z (10 ^ 9))) as Hc.
    destruct (Z.le_gt_cases 0 (Qceiling (q * inject_Z (10 ^ 9)))) as [H | H]; [done |].
    pose proof (Qceiling_lt (q * inject_Z (10 ^ 9))) as Hlt.
    assert (Hneg : (inject_Z (Qceiling (q * inject_Z (10 ^ 9))) <= inject_Z (-1))%Q)
      by (rewrite <- Zle_Qle; lia).
    change (inject_Z (-1)) with (-1)%Q in Hneg. lra. }
  destruct (Z.ltb_spec (Qceiling (q * inject_Z (10 ^ 9))) (- 2 ^ 63)) as [H1 | H1]; [lia |].
  destruct (Z.leb_spec (2 ^ 63) (Qceiling (q * inject_Z (10 ^ 9)))) as [H2 | H2].
  - cbn [orb]. intros [= <-]. split; [done |]. right. eauto.
  - cbn [orb]. destruct (Z.ltb_spec (Qceiling (q * inject_Z (10 ^ 9))) 0); [lia | done].
Qed.

Lemma pacing_sleep_positive (index : nat) (next_emit_time : pyfloat) (now : Q) (d : pyfloat) :
  pacing_sleep index next_emit_time now = Some d -> fgt d (Fin 0) = true.
Proof.
  unfold pacing_sleep. case_decide; [| done].
  destruct (fgt (fsub next_emit_time (Fin now)) (Fin 0)) eqn:Hd; [| done]. by intros [= <-].
Qed.

Lemma submitted_fit (its : list iteration) :
  pauses_fit its -> submitted its = (it_action <$> its, None).
Proof.
  induction 1 as [| it its Hit _ IH]; [done |]. cbn [submitted]. by rewrite Hit, IH.
Qed.

Lemma submitted_none (its : list iteration) : (submitted its).2 = None -> pauses_fit its.
Proof.
  induction its as [| it its IH]; [constructor |]. cbn [submitted].
  destruct (it_raised it) as [e |] eqn:Hit; [done |].
  destruct (submitted its) as [actions raised]. cbn [snd] in *. intros ->.
  constructor; [done | by apply IH].
Qed.

Lemma submitted_raised (its : list iteration) (e : exn) :
  (submitted its).2 = Some e ->
  exists i it,
    its !! i = Some it /\ it_raised it = Some e /\ pauses_fit (take i its)
    /\ (submitted its).1 = it_action <$> take i its.
Proof.
  induction its as [| it its IH]; [done |]. cbn [submitted].
  destruct (it_raised it) as [e' |] eqn:Hit.
  - intros [= ->]. exists O, it. split_and!; [done | done | constructor | done].
  - destruct (submitted its) as [actions raised]. cbn [snd fst] in *. intros ->.
    destruct (IH eq_refl) as (i & it' & Hi & Hr & Hfit & Hacts).
    exists (S i), it'. split_and!; [done | done | by constructor | by rewrite Hacts].
Qed.

Lemma pauses_fit_raised (its : list iteration) :
  pauses_fit its <-> forall e, (submitted its).2 <> Some e.
Proof.
  split.
  - intros Hfit e. by rewrite (submitted_fit its Hfit).
  - intros Hno. apply submitted_none. destruct (submitted its).2 as [e |]; [| done].
    by destruct (Hno e).
Qed.

Section Stranded.

Context (label_string : string) (start_overall : Q).

Lemma phased_init_fit (its : list iteration) (receipt_workers : Z) :
  pauses_fit its ->
  phased_init its receipt_workers = init (it_action <$> its) receipt_workers.
Proof. intros Hfit. unfold phased_init. by rewrite (submitted_fit its Hfit). Qed.

Lemma step_stranded (s s' : sys) :
  step label_string start_overall s s' -> stranded s -> stranded s'.
Proof.
  unfold stranded. intros Hstep (Hk & Hq & Hw & Hne).
  inversion Hstep; subst; cbn [sentinels queue workers] in *; try done.
  - split_and!; try done. rewrite elem_of_app, list_elem_of_singleton. by intros [? | ?].
  - split_and!; try done.
    + intros Hin. apply Hq. by right.
    + intros Hin. apply list_elem_of_lookup in Hin as [i Hi].
      destruct (decide (i = w)) as [-> | Hiw].
      * rewrite list_lookup_insert_eq in Hi by (by eapply lookup_lt_Some). done.
      * rewrite list_lookup_insert_ne in Hi by done. apply Hw. by eapply list_elem_of_lookup_2.
    + intros Hnil. apply (f_equal length) in Hnil. rewrite length_insert in Hnil.
      by destruct ws.
  - destruct Hq. by left.
  - split_and!; try done.
    + intros Hin. apply list_elem_of_lookup in Hin as [i Hi].
      destruct (decide (i = w)) as [-> | Hiw].
      * rewrite list_lookup_insert_eq in Hi by (by eapply lookup_lt_Some). done.
      * rewrite list_lookup_insert_ne in Hi by done. apply Hw. by eapply list_elem_of_lookup_2.
    + intros Hnil. apply (f_equal length) in Hnil. rewrite length_insert in Hnil.
      by destruct ws.
Qed.

Lemma steps_stranded (s s' : sys) :
  rtc (step label_string start_overall) s s' -> stranded s -> stranded s'.
Proof. induction 1; [done |]. intros Hs. eauto using step_stranded. Qed.

Lemma stranded_not_terminated (s : sys) : stranded s -> ~ terminated s.
Proof.
  intros (_ & _ & Hw & Hne) (_ & _ & _ & Hall).
  destruct (workers s) as [| w ws]; [done |].
  apply Forall_cons in Hall as [-> _]. apply Hw. by left.
Qed.

Lemma phased_init_stranded (its : list iteration) (receipt_workers : Z) (e : exn) :
  (submitted its).2 = Some e -> stranded (phased_init its receipt_workers).
Proof.
  intros He. unfold phased_init. destruct (submitted its) as [actions raised].
  cbn [snd] in He. subst raised. unfold stranded. cbn [sentinels queue workers].
  pose proof (worker_count_positive receipt_workers) as Hn.
  split_and!; [done | by apply not_elem_of_nil | |].
  - by intros [[=] _]%elem_of_replicate.
  - destruct (worker_count receipt_workers); [lia | done].
Qed.

(** A full phased run: no sleep raised, and it is a full run of the
    accesses of all the turns. *)
Lemma phased_run_fit (schedule : list sched_item) (obs : nat -> submit_obs)
    (receipt_workers : Z) (out : list row) :
  phased_run label_string start_overall schedule obs receipt_workers out ->
  pauses_fit (phased_iterations label_string start_overall schedule obs)
  /\ exists s,
       rtc (step label_string start_overall)
         (init (it_action <$> phased_iterations label_string start_overall schedule obs)
            receipt_workers) s
       /\ terminated s /\ out = sort_results (results s).
Proof.
  intros (s & Hrun & Hterm & ->).
  destruct (submitted (phased_iterations label_string start_overall schedule obs)).2
    as [e |] eqn:He.
  - destruct (stranded_not_terminated s); [| done].
    eapply steps_stranded; [exact Hrun |]. by eapply phased_init_stranded.
  - apply submitted_none in He. split; [done |].
    rewrite (phased_init_fit _ _ He) in Hrun. by exists s.
Qed.

Lemma phased_run_exists (schedule : list sched_item) (obs : nat -> submit_obs)
    (receipt_workers : Z) :
  pauses_fit (phased_iterations label_string start_overall schedule obs) ->
  exists out, phased_run label_string start_overall schedule obs receipt_workers out.
Proof.
  intros Hfit.
  destruct (run_exists label_string start_overall
              (it_action <$> phased_iterations label_string start_overall schedule obs)
              receipt_workers) as (s & Hrun & Hterm).
  exists (sort_results (results s)), s. by rewrite (phased_init_fit _ _ Hfit).
Qed.

Lemma phased_loop_raised (schedule : list sched_item) (obs : nat -> submit_obs) d0 i0
    (it : iteration) (e : exn) :
  it ∈ phased_loop label_string start_overall d0 i0 schedule obs ->
  it_raised it = Some e ->
  e = OverflowError
  /\ exists d, it_sleep it = Some d
       /\ (d = PosInf \/ exists q, d = Fin q /\ 2 ^ 63 <= Qceiling (q * inject_Z (10 ^ 9))).
Proof.
  revert d0 i0. induction schedule as [| item rest IH]; intros d0 i0 Hin He.
  { by apply elem_of_nil in Hin. }
  cbn [phased_loop] in Hin. apply elem_of_cons in Hin as [-> | Hin]; [| by eapply IH].
  cbn [phased_iteration it_raised it_sleep] in *. unfold sleep_error in He.
  destruct (pacing_sleep i0 d0 (ob_now (obs i0))) as [d |] eqn:Hd; [| done].
  destruct (time_sleep d) as [[] | e'] eqn:Ht; [done |]. injection He as ->.
  destruct (time_sleep_positive d e (pacing_sleep_positive _ _ _ _ Hd) Ht) as [-> Hlong].
  split; [done |]. by exists d.
Qed.

(** When a sleep raises, the function raises [OverflowError] and no
    run of it is a full run. *)
Lemma phased_raises_overflow (schedule : list sched_item) (obs : nat -> submit_obs)
    (receipt_workers : Z) (e : exn) :
  phased_raises label_string start_overall schedule obs e ->
  e = OverflowError
  /\ forall out, ~ phased_run label_string start_overall schedule obs receipt_workers out.
Proof.
  intros He. split.
  - destruct (submitted_raised _ _ He) as (i & it & Hi & Hr & _).
    eapply phased_loop_raised; [| exact Hr]. by eapply list_elem_of_lookup_2.
  - intros out [Hfit _]%phased_run_fit.
    by destruct (proj1 (pauses_fit_raised _) Hfit e).
Qed.

End Stranded.

(** ** One row per call, in submission order *)

Lemma run_result_keys (label_string : string) (start_overall : Q)
    (actions : list action) (receipt_workers : Z) (s : sys) (keys : list call_key) :
  rtc (step label_string start_overall) (init actions receipt_workers) s ->
  terminated s ->
  action_key <$> actions = keys ->
  key_index <$> keys = seq 0 (length keys) ->
  row_key <$> sort_results (results s) = keys.
Proof.
  intros Hrun Hterm Hkeys Hseq. apply sort_results_keys; [| done].
  rewrite <- (terminated_pool s Hterm), (steps_pool _ _ _ _ Hrun), init_pool. by rewrite Hkeys.
Qed.

(** C1.  The list a full run of either loop returns has one row per
    scheduled call, whatever the submissions and the receipts do and
    however the threads interleave: the indices of its rows are 0, 1,
    ..., total - 1 in this order, and row [i] carries the account and
    phase of the call submitted [i]-th.  The sequential loop always has a
    full run.  The phased loop has one when no pause of its pacing is too
    long for [time.sleep]; when one is, the loop raises [OverflowError]
    at that turn and no list is returned.  In the phased run the number
    of scheduled calls is the sum of the phase counts when no count is
    negative. *)
Theorem one_row_per_call (label_string : string) (start_overall : Q)
    (voters : list string) (phase_plan : list phase_entry)
    (schedule : list sched_item) (obs : nat -> submit_obs) (receipt_workers : Z) :
  (exists out, sequential_run label_string start_overall voters obs receipt_workers out)
  /\ (forall out,
        sequential_run label_string start_overall voters obs receipt_workers out ->
        length out = length voters
        /\ r_index <$> out = seq 0 (length voters)
        /\ row_key <$> out = sequential_keys voters)
  /\ (build_schedule voters phase_plan = Ok schedule ->
      (pauses_fit (phased_iterations label_string start_overall schedule obs) ->
       exists out, phased_run label_string start_overall schedule obs receipt_workers out)
      /\ (forall e,
            phased_raises label_string start_overall schedule obs e ->
            e = OverflowError
            /\ forall out,
                 ~ phased_run label_string start_overall schedule obs receipt_workers out)
      /\ (forall out,
            phased_run label_string start_overall schedule obs receipt_workers out ->
            pauses_fit (phased_iterations label_string start_overall schedule obs)
            /\ length out = length schedule
            /\ r_index <$> out = seq 0 (length schedule)
            /\ row_key <$> out = schedule_keys schedule)
      /\ (Forall (fun entry => 0 <= pe_count entry) phase_plan ->
          Z.of_nat (length schedule) = total_required phase_plan)).
Proof.
  split; [| split].
  - destruct (run_exists label_string start_overall
                (sequential_actions label_string start_overall voters obs) receipt_workers)
      as (s & Hrun & Hterm).
    exists (sort_results (results s)), s. done.
  - intros out (s & Hrun & Hterm & ->).
    pose proof (sequential_keys_indices voters) as Hseq.
    pose proof (run_result_keys _ _ _ _ _ _ Hrun Hterm
                  (sequential_actions_keys _ _ voters obs) Hseq) as Hkeys.
    destruct (keys_give_indices _ _ Hkeys Hseq) as [Hlen Hidx].
    unfold sequential_keys in Hlen, Hidx. rewrite length_imap in Hlen, Hidx. done.
  - intros Hbuild. destruct (build_schedule_ok _ _ _ Hbuild) as (Hidx & _ & Hlen & _).
    split; [| split; [| split]].
    + apply phased_run_exists.
    + intros e. apply phased_raises_overflow.
    + intros out (Hfit & s & Hrun & Hterm & ->)%phased_run_fit. split; [done |].
      pose proof (schedule_keys_indices schedule Hidx) as Hseq.
      pose proof (run_result_keys _ _ _ _ _ _ Hrun Hterm
                    (phased_loop_keys _ _ schedule obs _ _) Hseq) as Hkeys.
      destruct (keys_give_indices _ _ Hkeys Hseq) as [Hl Hi].
      unfold schedule_keys in Hl, Hi. rewrite length_fmap in Hl, Hi. done.
    + intros Hpos. rewrite Hlen. by apply planned_calls_total.
Qed.

(** C1 on two calls in one phase, the second of which is rejected. *)
Lemma one_row_per_call_two_calls :
  exists out,
    phased_run "bench" 0
      [SchedItem 0 "0xA1" (Fin (1 # 2)) "phaseA"; SchedItem 1 "0xB2" (Fin (1 # 2)) "phaseA"]
      (fun i => SubmitObs 0 0 (match i with O => Sent "0x01" | _ => Rejected (str "nonce too low") end) 0 0)
      1 out
    /\ length out = 2%nat
    /\ r_index <$> out = [O; 1%nat].
Proof.
  destruct (one_row_per_call "bench" 0 ["0xA1"; "0xB2"]%string
              [PhaseEntry 2 (Fin 2) (Fin (1 # 2)) "phaseA"]
              [SchedItem 0 "0xA1" (Fin (1 # 2)) "phaseA"; SchedItem 1 "0xB2" (Fin (1 # 2)) "phaseA"]
              (fun i => SubmitObs 0 0 (match i with O => Sent "0x01" | _ => Rejected (str "nonce too low") end) 0 0)
              1) as (_ & _ & Hphased).
  destruct (Hphased eq_refl) as (Hex & _ & Hall & _).
  destruct Hex as (out & Hrun); [vm_compute; repeat constructor |].
  exists out. split; [exact Hrun |].
  destruct (Hall out Hrun) as (_ & Hlen & Hidx & _). split; [exact Hlen | exact Hidx].
Defined.

(** ** Submission failures *)

Section Failures.

Context (label_string : string) (start_overall : Q).



End Failures.



(** ** The pacing of the phased loop *)

Lemma submitted_at (its : list iteration) (i : nat) (it : iteration) (e : exn) :
  its !! i = Some it -> it_raised it = Some e -> pauses_fit (take i its) ->
  (submitted its).2 = Some e.
Proof.
  revert i. induction its as [| first rest IH]; intros i Hi He Hfit; [done |].
  destruct i as [| j]; cbn [submitted].
  - injection Hi as ->. by rewrite He.
  - cbn [take] in Hfit. apply Forall_cons in Hfit as [Hfirst Hfit]. rewrite Hfirst.
    specialize (IH j Hi He Hfit). by destruct (submitted rest).
Qed.

(** C4.  Take a turn that the phased loop reaches: no sleep of an
    earlier turn raised.  The turn of the first call asks for no pacing
    sleep.  A later turn sleeps exactly when the deadline is after the
    clock reading taken for the test, and then for the difference: for a
    finite deadline D and the reading [now], for D - now when now < D and
    not at all otherwise; for an infinite deadline, for ever.  The sleep
    raises only for a pause that [time.sleep] cannot take, an infinite one
    or one of [2 ^ 63] nanoseconds or more, with [OverflowError]; this
    ends the function, and the call of the turn is not attempted.
    Otherwise the call is attempted and, whatever [transact] did, the
    deadline after the turn is max(deadline + interval, now) for the
    interval of the call and the clock reading of the [finally] clause:
    for finite numbers D and I it is D + I unless [now] is above it, and
    then it is [now]; after an infinite interval it is infinite. *)
Theorem pacing_contract (label_string : string) (start_overall : Q)
    (schedule : list sched_item) (obs : nat -> submit_obs) (i : nat) (item : sched_item) :
  schedule !! i = Some item ->
  pauses_fit (take i (phased_iterations label_string start_overall schedule obs)) ->
  exists it,
    phased_iterations label_string start_overall schedule obs !! i = Some it
    /\ (i = O -> it_sleep it = None /\ it_raised it = None)
    /\ (forall d, it_sleep it = Some d ->
          (0 < i)%nat
          /\ fgt (deadline_before start_overall
                    (phased_iterations label_string start_overall schedule obs) i)
                 (Fin (ob_now (obs i))) = true
          /\ d = fsub (deadline_before start_overall
                         (phased_iterations label_string start_overall schedule obs) i)
                      (Fin (ob_now (obs i))))
    /\ ((0 < i)%nat ->
        fgt (deadline_before start_overall
               (phased_iterations label_string start_overall schedule obs) i)
            (Fin (ob_now (obs i))) = true ->
        is_Some (it_sleep it))
    /\ (forall D,
          deadline_before start_overall
            (phased_iterations label_string start_overall schedule obs) i = Fin D ->
          ((0 < i)%nat -> (ob_now (obs i) < D)%Q ->
           it_sleep it = Some (Fin (D - ob_now (obs i))))
          /\ ((D <= ob_now (obs i))%Q -> it_sleep it = None))
    /\ ((0 < i)%nat ->
        deadline_before start_overall
          (phased_iterations label_string start_overall schedule obs) i = PosInf ->
        it_sleep it = Some PosInf /\ it_raised it = Some OverflowError)
    /\ (forall e, it_raised it = Some e ->
          e = OverflowError
          /\ (exists d, it_sleep it = Some d
                /\ (d = PosInf
                    \/ exists q, d = Fin q /\ 2 ^ 63 <= Qceiling (q * inject_Z (10 ^ 9))))
          /\ phased_raises label_string start_overall schedule obs e)
    /\ (it_raised it = None ->
        it_next_emit_time it
        = fmax (fadd (deadline_before start_overall
                        (phased_iterations label_string start_overall schedule obs) i)
                     (si_interval item))
               (Fin (ob_finally (obs i)))
        /\ (forall D I,
              deadline_before start_overall
                (phased_iterations label_string start_overall schedule obs) i = Fin D ->
              si_interval item = Fin I ->
              ((ob_finally (obs i) <= D + I)%Q -> it_next_emit_time it = Fin (D + I))
              /\ ((D + I < ob_finally (obs i))%Q ->
                  it_next_emit_time it = Fin (ob_finally (obs i))))
        /\ (si_interval item = PosInf ->
            (exists D,
               deadline_before start_overall
                 (phased_iterations label_string start_overall schedule obs) i = Fin D)
            \/ deadline_before start_overall
                 (phased_iterations label_string start_overall schedule obs) i = PosInf ->
            it_next_emit_time it = PosInf)).
Proof.
  intros Hi Hreach.
  assert (Hit : phased_iterations label_string start_overall schedule obs !! i
                = Some (phased_iteration label_string start_overall
                          (deadline_before start_overall
                             (phased_iterations label_string start_overall schedule obs) i)
                          i item (obs i))).
  { unfold phased_iterations. by rewrite (phased_loop_lookup _ _ _ _ _ _ _ _ Hi). }
  eexists. split; [exact Hit |].
  set (deadline := deadline_before start_overall
                     (phased_iterations label_string start_overall schedule obs) i) in *.
  cbn [phased_iteration it_sleep it_raised it_next_emit_time].
  unfold pacing_sleep, advance_deadline. rewrite fgt_sub.
  split_and!.
  - intros ->. done.
  - intros d. case_decide; [| done].
    destruct (fgt deadline _); [| done]. intros [= <-]. done.
  - intros Hpos Hgt. rewrite decide_True by done. rewrite Hgt. eauto.
  - intros D ->. cbn [fgt fsub fadd fneg]. split.
    + intros Hpos Hlt. rewrite decide_True by done.
      by rewrite bool_decide_eq_true_2.
    + intros Hle. case_decide; [| done].
      rewrite bool_decide_eq_false_2; [done | lra].
  - intros Hpos ->. rewrite decide_True by done. done.
  - intros e He.
    assert (Hin : phased_iteration label_string start_overall deadline i item (obs i)
                  ∈ phased_loop label_string start_overall (Fin start_overall) O schedule obs)
      by (by eapply list_elem_of_lookup_2).
    assert (He' : it_raised (phased_iteration label_string start_overall deadline i item
                               (obs i)) = Some e).
    { cbn [phased_iteration it_raised]. unfold pacing_sleep. by rewrite fgt_sub. }
    destruct (phased_loop_raised _ _ _ _ _ _ _ _ Hin He') as (-> & d & Hd & Hlong).
    split; [done |]. split.
    + exists d. split; [| done]. cbn [phased_iteration it_sleep] in Hd.
      unfold pacing_sleep in Hd. by rewrite fgt_sub in Hd.
    + unfold phased_raises. by eapply submitted_at.
  - intros _. split; [done |]. split.
    + intros D I -> ->. cbn [fadd]. unfold fmax. cbn [fgt]. split.
      * intros Hle. rewrite bool_decide_eq_false_2; [done | lra].
      * intros Hlt. by rewrite bool_decide_eq_true_2.
    + intros -> [[D ->] | ->]; reflexivity.
Qed.

(** C4 on three calls paced at 0.5 s.  The second call waits for 0.5 s;
    its submission is slow, the clock reads 2 s in the [finally] clause,
    which is above the deadline 0.5 s + 0.5 s, so the deadline becomes
    2 s. *)
Lemma pacing_contract_half_second :
  exists it,
    phased_iterations "bench" 0
      [SchedItem 0 "0xA1" (Fin (1 # 2)) "p"; SchedItem 1 "0xB2" (Fin (1 # 2)) "p";
       SchedItem 2 "0xC3" (Fin (1 # 2)) "p"]
      (fun i => match i with
                | O => SubmitObs 0 0 (Sent "0x01") 0 0
                | 1%nat => SubmitObs 0 (1 # 2) (Sent "0x02") 2 2
                | _ => SubmitObs 2 2 (Sent "0x03") 2 2
                end)
      !! 1%nat = Some it
    /\ it_sleep it = Some (Fin ((1 # 2) - 0))
    /\ it_raised it = None
    /\ it_next_emit_time it = Fin 2.
Proof.
  destruct (pacing_contract "bench" 0
              [SchedItem 0 "0xA1" (Fin (1 # 2)) "p"; SchedItem 1 "0xB2" (Fin (1 # 2)) "p";
               SchedItem 2 "0xC3" (Fin (1 # 2)) "p"]
              (fun i => match i with
                        | O => SubmitObs 0 0 (Sent "0x01") 0 0
                        | 1%nat => SubmitObs 0 (1 # 2) (Sent "0x02") 2 2
                        | _ => SubmitObs 2 2 (Sent "0x03") 2 2
                        end)
              1 (SchedItem 1 "0xB2" (Fin (1 # 2)) "p") eq_refl)
    as (it & Hit & _ & _ & _ & Hfinite & _ & _ & Hnext);
    [vm_compute; repeat constructor |].
  assert (Hraised : it_raised it = None).
  { vm_compute in Hit. injection Hit as <-. reflexivity. }
  exists it. split; [exact Hit |].
  destruct (Hfinite (1 # 2) eq_refl) as [Hsleep _].
  split; [apply Hsleep; [lia | reflexivity] |]. split; [exact Hraised |].
  destruct (Hnext Hraised) as (_ & Hnum & _).
  destruct (Hnum (1 # 2) (1 # 2) eq_refl eq_refl) as [_ Habove].
  apply Habove. reflexivity.
Defined.

(** ** Expansion of the plan *)

Lemma expand_phase_phases (voters : list string) (entry : phase_entry) (n : nat)
    (acc acc' : list sched_item * nat) :
  expand_phase voters entry n acc = Ok acc' ->
  item_phase <$> acc'.1
  = (item_phase <$> acc.1) ++ replicate n (pe_label entry, pe_interval entry).
Proof.
  revert acc. induction n as [| n IH]; intros [schedule vi] Hexp.
  - injection Hexp as <-. simpl. by rewrite app_nil_r.
  - cbn [expand_phase] in Hexp.
    destruct (voters !! vi) as [account |] eqn:Hv; [| done].
    rewrite (IH _ Hexp). cbn [fst]. rewrite fmap_app, <- app_assoc. done.
Qed.

Lemma fold_expand_phases (voters : list string) (phase_plan : list phase_entry)
    (acc acc' : list sched_item * nat) :
  fold_left
    (fun acc entry => st ← acc; expand_phase voters entry (Z.to_nat (pe_count entry)) st)
    phase_plan (Ok acc) = Ok acc' ->
  item_phase <$> acc'.1 = (item_phase <$> acc.1) ++ planned_phases phase_plan.
Proof.
  revert acc. induction phase_plan as [| entry rest IH]; intros acc Hfold.
  - injection Hfold as <-. simpl. by rewrite app_nil_r.
  - cbn [fold_left mbind result_bind bind] in Hfold.
    destruct (expand_phase voters entry (Z.to_nat (pe_count entry)) acc) as [acc1 | e] eqn:He.
    + rewrite (IH _ Hfold), (expand_phase_phases _ _ _ _ _ He).
      unfold planned_phases. cbn [flat_map]. by rewrite <- app_assoc.
    + by rewrite fold_expand_raise in Hfold.
Qed.

(** The schedule of the phased run.  When the voters are fewer than the
    sum of the counts the run is refused before any submission.  A built
    schedule has one call per turn of the [range(count)] loops, that is
    the sum of the counts when none is negative; call [i] has index [i]
    and the [i]-th voter, so no voter is used twice; and the calls carry
    the labels and intervals of their phases, phase after phase. *)
Theorem schedule_expansion (voters : list string) (phase_plan : list phase_entry) :
  (Z.of_nat (length voters) < total_required phase_plan ->
   build_schedule voters phase_plan
   = Raise (ValueError (msg_too_few_voters (total_required phase_plan) (length voters))))
  /\ (forall schedule,
        build_schedule voters phase_plan = Ok schedule ->
        length schedule = planned_calls phase_plan
        /\ (Forall (fun entry => 0 <= pe_count entry) phase_plan ->
            Z.of_nat (length schedule) = total_required phase_plan)
        /\ (forall i item,
              schedule !! i = Some item ->
              si_index item = i /\ voters !! i = Some (si_account item))
        /\ item_phase <$> schedule = planned_phases phase_plan).
Proof.
  split.
  - intros Hfew. unfold build_schedule. by rewrite decide_True.
  - intros schedule Hbuild.
    destruct (build_schedule_ok _ _ _ Hbuild) as (Hidx & Hacc & Hlen & _).
    split; [exact Hlen |]. split; [| split].
    + intros Hpos. rewrite Hlen. by apply planned_calls_total.
    + intros i item Hi.
      assert (Hii : si_index item = i).
      { assert (Hl : (si_index <$> schedule) !! i = Some (si_index item))
          by (by rewrite list_lookup_fmap, Hi).
        rewrite Hidx in Hl. apply lookup_seq in Hl. lia. }
      split; [exact Hii |]. rewrite <- Hii.
      rewrite Forall_forall in Hacc. apply Hacc. by eapply list_elem_of_lookup_2.
    + unfold build_schedule in Hbuild. case_decide; [done |].
      destruct (fold_left _ phase_plan (Ok ([], O))) as [acc | e] eqn:Hfold; [| done].
      cbn [mbind result_bind bind] in Hbuild. injection Hbuild as <-.
      by rewrite (fold_expand_phases _ _ _ _ Hfold).
Qed.

(** ** Rows without latency are failures *)

Section Outcomes.

Context (label_string : string) (start_overall : Q).

Lemma worker_row_ok (item : submission) (oc : receipt_outcome) :
  latency_or_failure (worker_row label_string start_overall item oc).
Proof. destruct oc; unfold latency_or_failure; simpl; done. Qed.

Lemma submit_call_ok (index : nat) (account : string) (phase : option string)
    (ob : submit_obs) :
  action_ok (submit_call label_string start_overall index account phase ob).
Proof. unfold submit_call. destruct (ob_transact ob); simpl; [done |]. by intros _. Qed.

Lemma step_outcomes (s s' : sys) :
  step label_string start_overall s s' ->
  Forall action_ok (todo s) /\ Forall latency_or_failure (results s) ->
  Forall action_ok (todo s') /\ Forall latency_or_failure (results s').
Proof.
  intros Hstep [Htodo Hres]. destruct Hstep; cbn [todo results] in *; try done.
  - apply Forall_cons in Htodo as [_ Htodo]. done.
  - apply Forall_cons in Htodo as [Hr Htodo]. split; [done |].
    apply Forall_app. split; [done | by constructor].
  - split; [done |]. apply Forall_app. split; [done |].
    constructor; [apply worker_row_ok | constructor].
Qed.

Lemma run_outcomes (actions : list action) (receipt_workers : Z) (s : sys) :
  rtc (step label_string start_overall) (init actions receipt_workers) s ->
  Forall action_ok actions ->
  Forall latency_or_failure (sort_results (results s)).
Proof.
  intros Hrun Hact.
  assert (Hinv : Forall action_ok (todo s) /\ Forall latency_or_failure (results s)).
  { remember (init actions receipt_workers) as s0 eqn:Hs0.
    assert (H0 : Forall action_ok (todo s0) /\ Forall latency_or_failure (results s0))
      by (subst s0; by split).
    clear Hs0. induction Hrun as [| s1 s2 s3 H12 _ IH]; [done |].
    apply IH. by eapply step_outcomes. }
  unfold sort_results. rewrite merge_sort_Permutation. apply Hinv.
Qed.

End Outcomes.

(** In the list a full run of either loop returns, a row without latency
    has status 0 and no completion time: a row that reports success
    always has a latency. *)
Theorem success_has_latency (label_string : string) (start_overall : Q)
    (voters : list string) (schedule : list sched_item)
    (obs : nat -> submit_obs) (receipt_workers : Z) (out : list row) (r : row) :
  sequential_run label_string start_overall voters obs receipt_workers out
  \/ phased_run label_string start_overall schedule obs receipt_workers out ->
  r ∈ out ->
  (r_latency_sec r = None -> r_status r = 0 /\ r_completed_sec r = None)
  /\ (r_status r = 1 -> is_Some (r_latency_sec r)).
Proof.
  intros Hrun Hin.
  assert (Hall : Forall latency_or_failure out).
  { destruct Hrun as [(s & Hrun & _ & ->) | (_ & s & Hrun & _ & ->)%phased_run_fit].
    - eapply run_outcomes; [exact Hrun |]. unfold sequential_actions.
      apply Forall_forall. intros a [i [v [-> _]]]%elem_of_lookup_imap.
      apply submit_call_ok.
    - eapply run_outcomes; [exact Hrun |].
      apply Forall_fmap, Forall_forall. intros it [i Hi]%list_elem_of_lookup.
      unfold phased_iterations in Hi.
      destruct (schedule !! i) as [item |] eqn:Hitem.
      + rewrite (phased_loop_lookup _ _ _ _ _ _ _ _ Hitem) in Hi. injection Hi as <-.
        apply submit_call_ok.
      + apply lookup_ge_None in Hitem. apply lookup_lt_Some in Hi.
        rewrite phased_loop_length in Hi. lia. }
  rewrite Forall_forall in Hall. specialize (Hall r Hin). split; [exact Hall |].
  intros H1. destruct (r_latency_sec r) eqn:Hl; [eauto |].
  destruct (Hall Hl) as [H0 _]. congruence.
Qed.

(** ** No run gets stuck *)

Lemma live_workers_app (a b : list wstate) :
  live_workers (a ++ b) = (live_workers a + live_workers b)%nat.
Proof. unfold live_workers. by rewrite filter_app, length_app. Qed.

Lemma live_workers_one (w : wstate) : live_workers [w] = if is_done w then O else 1%nat.
Proof.
  unfold live_workers. rewrite filter_cons, filter_nil.
  destruct w; simpl; repeat case_decide; done.
Qed.

Lemma live_workers_insert (ws : list wstate) (w : nat) (old new : wstate) :
  ws !! w = Some old ->
  (live_workers (<[w := new]> ws) + (if is_done old then 0 else 1)
   = live_workers ws + (if is_done new then 0 else 1))%nat.
Proof.
  intros Hw. rewrite insert_take_drop by (by eapply lookup_lt_Some).
  rewrite <- (take_drop_middle ws w old Hw) at 3.
  rewrite !live_workers_app.
  change (new :: drop (S w) ws) with ([new] ++ drop (S w) ws).
  change (old :: drop (S w) ws) with ([old] ++ drop (S w) ws).
  rewrite !live_workers_app, !live_workers_one.
  destruct (is_done old), (is_done new); lia.
Qed.

Lemma live_replicate_idle (n : nat) : live_workers (replicate n Idle) = n.
Proof.
  induction n as [| n IH]; [done |].
  change (replicate (S n) Idle) with ([Idle] ++ replicate n Idle).
  by rewrite live_workers_app, live_workers_one, IH.
Qed.

Lemma live_all_not_done (ws : list wstate) :
  live_workers ws = length ws -> Forall (fun w => is_done w = false) ws.
Proof.
  unfold live_workers. induction ws as [| w ws IH]; [constructor |].
  rewrite filter_cons. simpl. case_decide as Hw.
  - simpl. intros [= Hl]. constructor; [done | by apply IH].
  - intros Hl. pose proof (length_filter (fun w => is_done w = false) ws). lia.
Qed.

Section Shutdown.

Context (label_string : string) (start_overall : Q).

Lemma step_shutdown_inv (s s' : sys) :
  step label_string start_overall s s' -> shutdown_inv s -> shutdown_inv s'.
Proof.
  intros Hstep (items & m & Hq & Hlive & Htodo & Hnone & Hlen).
  destruct Hstep; cbn [todo sentinels queue workers results] in *.
  - assert (m = O) as -> by (by apply Htodo).
    exists (items ++ [item]), O. cbn [todo sentinels queue workers results].
    split_and!; try done;
      first [ by (rewrite Hq, fmap_app; simpl; rewrite !app_nil_r)
            | intros _; apply Hnone; by left ].
  - assert (m = O) as -> by (by apply Htodo).
    exists items, O. cbn [todo sentinels queue workers results].
    split_and!; try done. intros _. apply Hnone. by left.
  - exists items, (S m). cbn [todo sentinels queue workers results].
    split_and!; try done;
      first [ by rewrite Hq, replicate_S_end, app_assoc
            | lia
            | intros [Hx | Hx]; [done |]; apply Hnone; by right ].
  - destruct items as [| it items]; [by destruct m |]. simpl in Hq. injection Hq as -> ->.
    pose proof (live_workers_insert ws w Idle (Busy it) H) as Hl. simpl in Hl.
    assert (Hsame : live_workers (<[w := Busy it]> ws) = live_workers ws) by lia.
    exists items, m. cbn [todo sentinels queue workers results].
    rewrite length_insert, Hsame.
    split_and!; try done. intros _. apply Hnone. by right.
  - destruct items as [| it items]; [| done]. destruct m as [| m]; [done |].
    simpl in Hq. injection Hq as ->.
    pose proof (live_workers_insert ws w Idle Done H) as Hl. simpl in Hl.
    assert (td = []) as ->.
    { destruct td; [done |]. by specialize (Htodo ltac:(done)). }
    exists [], m. cbn [todo sentinels queue workers results].
    rewrite length_insert.
    split_and!; try done; first [ lia | intros [Hx | Hx]; done ].
  - pose proof (live_workers_insert ws w (Busy item) Idle H) as Hl. simpl in Hl.
    assert (Hsame : live_workers (<[w := Idle]> ws) = live_workers ws) by lia.
    exists items, m. cbn [todo sentinels queue workers results].
    rewrite length_insert, Hsame. done.
Qed.

Lemma init_shutdown_inv (actions : list action) (receipt_workers : Z) :
  shutdown_inv (init actions receipt_workers).
Proof.
  pose proof (worker_count_positive receipt_workers) as Hn.
  exists [], O. unfold init. cbn [todo sentinels queue workers results].
  rewrite live_replicate_idle, length_replicate. split_and!; first [done | lia].
Qed.

End Shutdown.

Section Completion.

Context (label_string : string) (start_overall : Q).

Lemma steps_shutdown_inv (s s' : sys) :
  rtc (step label_string start_overall) s s' -> shutdown_inv s -> shutdown_inv s'.
Proof.
  induction 1 as [| s1 s2 s3 H12 _ IH]; [done |].
  intros Hinv. apply IH. by eapply step_shutdown_inv.
Qed.

(** The submitter can always finish its loop. *)
Lemma finish_todo (td : list action) (k : nat) (q : list (option submission))
    (ws : list wstate) (rs : list row) :
  exists q' rs',
    rtc (step label_string start_overall) (Sys td k q ws rs) (Sys [] k q' ws rs').
Proof.
  revert q rs. induction td as [| a rest IH]; intros q rs.
  - exists q, rs. apply rtc_refl.
  - destruct a as [item | r].
    + destruct (IH (q ++ [Some item]) rs) as (q' & rs' & Hrun).
      exists q', rs'. eapply rtc_l; [apply step_put | exact Hrun].
    + destruct (IH q (rs ++ [r])) as (q' & rs' & Hrun).
      exists q', rs'. eapply rtc_l; [apply step_append | exact Hrun].
Qed.

(** Every worker that holds an item can record its row. *)
Lemma settle_workers (pre suf : list wstate) (k : nat) (q : list (option submission))
    (rs : list row) :
  Forall (fun w => is_busy w = false) pre ->
  exists ws' rs',
    rtc (step label_string start_overall) (Sys [] k q (pre ++ suf) rs) (Sys [] k q ws' rs')
    /\ Forall (fun w => is_busy w = false) ws'.
Proof.
  revert pre rs. induction suf as [| w suf IH]; intros pre rs Hpre.
  - exists pre, rs. rewrite app_nil_r. split; [apply rtc_refl | done].
  - destruct w as [| item |].
    + destruct (IH (pre ++ [Idle]) rs) as (ws' & rs' & Hrun & Hws).
      { apply Forall_app. split; [done | by repeat constructor]. }
      rewrite <- app_assoc in Hrun. eauto.
    + destruct (IH (pre ++ [Idle]) (rs ++ [worker_row label_string start_overall item TimeExhausted]))
        as (ws' & rs' & Hrun & Hws).
      { apply Forall_app. split; [done | by repeat constructor]. }
      rewrite <- app_assoc in Hrun. exists ws', rs'. split; [| done].
      eapply rtc_l; [| exact Hrun].
      replace (pre ++ [Idle] ++ suf) with (<[length pre := Idle]> (pre ++ Busy item :: suf)).
      * apply step_collect. by apply list_lookup_middle.
      * rewrite insert_app_r_alt by done. by rewrite Nat.sub_diag.
    + destruct (IH (pre ++ [Done]) rs) as (ws' & rs' & Hrun & Hws).
      { apply Forall_app. split; [done | by repeat constructor]. }
      rewrite <- app_assoc in Hrun. eauto.
Qed.

(** An idle worker can take the queued items one after the other. *)
Lemma drain_items (items : list submission) (nones : list (option submission))
    (k : nat) (ws : list wstate) (rs : list row) :
  ws !! O = Some Idle ->
  exists rs',
    rtc (step label_string start_overall)
        (Sys [] k ((Some <$> items) ++ nones) ws rs) (Sys [] k nones ws rs').
Proof.
  intros Hw. revert rs. induction items as [| item items IH]; intros rs.
  - exists rs. apply rtc_refl.
  - destruct (IH (rs ++ [worker_row label_string start_overall item TimeExhausted]))
      as (rs' & Hrun).
    exists rs'. simpl.
    eapply rtc_l; [apply (step_get_item _ _ O); exact Hw |].
    eapply rtc_l.
    { apply (step_collect _ _ O item TimeExhausted).
      apply list_lookup_insert_eq. by eapply lookup_lt_Some. }
    rewrite list_insert_insert_eq, list_insert_id by done. exact Hrun.
Qed.

(** The submitter can put the markers it still owes. *)
Lemma put_sentinels (k : nat) (q : list (option submission)) (ws : list wstate)
    (rs : list row) :
  rtc (step label_string start_overall)
      (Sys [] k q ws rs) (Sys [] O (q ++ replicate k None) ws rs).
Proof.
  revert q. induction k as [| k IH]; intros q.
  - simpl. rewrite app_nil_r. apply rtc_refl.
  - eapply rtc_l; [apply step_sentinel |].
    replace (q ++ replicate (S k) None) with ((q ++ [None]) ++ replicate k None)
      by (by rewrite <- app_assoc).
    apply IH.
Qed.

(** Idle workers take one marker each and stop. *)
Lemma take_sentinels (pre suf : list wstate) (rs : list row) :
  Forall (fun w => is_busy w = false) suf ->
  rtc (step label_string start_overall)
      (Sys [] O (replicate (live_workers suf) None) (pre ++ suf) rs)
      (Sys [] O [] (pre ++ replicate (length suf) Done) rs).
Proof.
  revert pre. induction suf as [| w suf IH]; intros pre Hsuf.
  - apply rtc_refl.
  - apply Forall_cons in Hsuf as [Hw Hsuf].
    change (w :: suf) with ([w] ++ suf). rewrite live_workers_app, live_workers_one.
    destruct w as [| item |]; [| done |]; cbn [is_done Nat.add length app replicate].
    + eapply rtc_l.
      { apply (step_get_sentinel _ _ (length pre)). by apply list_lookup_middle. }
      rewrite insert_app_r_alt by done. rewrite Nat.sub_diag. cbn [insert list_insert].
      specialize (IH (pre ++ [Done]) Hsuf). rewrite <- !app_assoc in IH. exact IH.
    + specialize (IH (pre ++ [Done]) Hsuf). rewrite <- !app_assoc in IH. exact IH.
Qed.

Lemma idle_head (ws : list wstate) :
  (0 < length ws)%nat ->
  Forall (fun w => is_busy w = false) ws ->
  live_workers ws = length ws ->
  ws !! O = Some Idle.
Proof.
  intros Hlen Hbusy Hlive. apply live_all_not_done in Hlive.
  destruct ws as [| w ws]; [simpl in Hlen; lia |].
  apply Forall_cons in Hbusy as [Hb _]. apply Forall_cons in Hlive as [Hd _].
  by destruct w.
Qed.

Lemma complete_run (s : sys) :
  shutdown_inv s ->
  exists s', rtc (step label_string start_overall) s s' /\ terminated s'.
Proof.
  intros Hinv. destruct s as [td k q ws rs].
  destruct (finish_todo td k q ws rs) as (q1 & rs1 & Hrun1).
  destruct (settle_workers [] ws k q1 rs1 ltac:(constructor)) as (ws2 & rs2 & Hrun2 & Hbusy).
  simpl in Hrun2.
  assert (Hinv2 : shutdown_inv (Sys [] k q1 ws2 rs2)).
  { eapply steps_shutdown_inv; [| exact Hinv]. etrans; eassumption. }
  destruct Hinv2 as (items & m & Hq & Hlive & _ & Hnone & Hlen).
  cbn [todo sentinels queue workers results] in *. subst q1.
  assert (Hrun3 : exists rs3,
            rtc (step label_string start_overall)
                (Sys [] k ((Some <$> items) ++ replicate m None) ws2 rs2)
                (Sys [] k (replicate m None) ws2 rs3)).
  { destruct items as [| item items]; [exists rs2; apply rtc_refl |].
    apply drain_items. apply idle_head; [done | done |]. apply Hnone. by right. }
  destruct Hrun3 as (rs3 & Hrun3).
  pose proof (put_sentinels k (replicate m None) ws2 rs3) as Hrun4.
  rewrite <- replicate_add in Hrun4.
  replace (m + k)%nat with (live_workers ws2) in Hrun4 by lia.
  pose proof (take_sentinels [] ws2 rs3 Hbusy) as Hrun5. simpl in Hrun5.
  eexists. split.
  - etrans; [exact Hrun1 |]. etrans; [exact Hrun2 |]. etrans; [exact Hrun3 |].
    etrans; [exact Hrun4 | exact Hrun5].
  - split; [done |]. split; [done |]. split; [done |]. by apply Forall_replicate.
Qed.

End Completion.

(** From every state a run of the sequential loop can reach, the run
    can be finished: the submitter ends its loop and puts one marker per
    worker, the workers empty the queue, record their rows and stop, so
    that [join] returns.  No call is left in the queue and no worker waits
    for ever.  The same holds of the phased loop when no pause of its
    pacing is too long for [time.sleep].  When one is, the submitter
    raises [OverflowError] before it puts any marker: from no state of
    such a run is a finished state reached, and no worker ever stops. *)
Theorem run_never_stuck (label_string : string) (start_overall : Q)
    (voters : list string) (schedule : list sched_item) (obs : nat -> submit_obs)
    (receipt_workers : Z) (s : sys) :
  (rtc (step label_string start_overall)
     (init (sequential_actions label_string start_overall voters obs) receipt_workers) s ->
   exists s', rtc (step label_string start_overall) s s' /\ terminated s')
  /\ (rtc (step label_string start_overall)
        (phased_init (phased_iterations label_string start_overall schedule obs)
           receipt_workers) s ->
      (pauses_fit (phased_iterations label_string start_overall schedule obs) ->
       exists s', rtc (step label_string start_overall) s s' /\ terminated s')
      /\ (forall e,
            phased_raises label_string start_overall schedule obs e ->
            e = OverflowError
            /\ forall s',
                 rtc (step label_string start_overall) s s' ->
                 ~ terminated s' /\ Forall (fun w => w <> Done) (workers s'))).
Proof.
  split.
  - intros Hrun. apply complete_run.
    eapply steps_shutdown_inv; [exact Hrun | apply init_shutdown_inv].
  - intros Hrun. split.
    + intros Hfit. rewrite (phased_init_fit _ _ Hfit) in Hrun. apply complete_run.
      eapply steps_shutdown_inv; [exact Hrun | apply init_shutdown_inv].
    + intros e He.
      split; [exact (proj1 (phased_raises_overflow _ _ _ _ receipt_workers _ He)) |].
      intros s' Hrun'.
      assert (Hs : stranded s').
      { eapply steps_stranded; [etrans; [exact Hrun | exact Hrun'] |].
        by eapply phased_init_stranded. }
      split; [by apply stranded_not_terminated |].
      destruct Hs as (_ & _ & Hdone & _). apply Forall_forall. by intros w Hw ->.
Qed.

(** [run_never_stuck] after the submitter has put its first call on the
    queue, with two workers: in the sequential loop, and in a phased loop
    whose second turn is to sleep for ever. *)
Lemma run_never_stuck_after_put :
  (exists s',
     rtc (step "bench" 0)
       (Sys [] 2 [Some (Submission 0 "0xA1" "0x01" 0 0 None)] [Idle; Idle] []) s'
     /\ terminated s')
  /\ Forall (fun w => w <> Done)
       (workers (Sys [] 0 [Some (Submission 0 "0xA1" "0x01" 0 0 (Some "p"%string))]
                   [Idle; Idle] [])).
Proof.
  split.
  - apply (proj1 (run_never_stuck "bench" 0 ["0xA1"%string] []
                    (fun _ => SubmitObs 0 0 (Sent "0x01") 0 0) 2 _)).
    eapply rtc_l; [apply step_put | apply rtc_refl].
  - destruct (proj2 (run_never_stuck "bench" 0 []
                       [SchedItem 0 "0xA1" PosInf "p"; SchedItem 1 "0xB2" PosInf "p"]
                       (fun _ => SubmitObs 0 0 (Sent "0x01") 0 0) 2
                       (Sys [] 0 [Some (Submission 0 "0xA1" "0x01" 0 0 (Some "p"%string))]
                          [Idle; Idle] []))) as [_ Hraise].
    { eapply rtc_l; [apply step_put | apply rtc_refl]. }
    destruct (Hraise OverflowError) as [_ Hstuck]; [vm_compute; reflexivity |].
    exact (proj2 (Hstuck _ (rtc_refl _ _))).
Defined.

(** [success_has_latency] on a sequential run of one call. *)
Lemma success_has_latency_one_call :
  exists out,
    sequential_run "bench" 0 ["0xA1"%string]
      (fun _ => SubmitObs 0 0 (Sent "0x01") 0 0) 1 out
    /\ forall r, r ∈ out -> r_status r = 1 -> is_Some (r_latency_sec r).
Proof.
  destruct (run_exists "bench" 0
              (sequential_actions "bench" 0 ["0xA1"%string]
                 (fun _ => SubmitObs 0 0 (Sent "0x01") 0 0)) 1) as (s & Hrun & Hterm).
  exists (sort_results (results s)). split; [by exists s |].
  intros r Hin.
  apply (success_has_latency "bench" 0 ["0xA1"%string] []
           (fun _ => SubmitObs 0 0 (Sent "0x01") 0 0) 1 (sort_results (results s)) r);
    [left; by exists s | exact Hin].
Defined.


(** [parse_seconds_form] at ["10@0.1s"]: the interval is the float [0.1],
    the tps the float [10.0]. *)
Lemma parse_seconds_form_tenth :
  parse_phase_spec (str "10" ++ at_sign :: str "0.1" ++ str "s")
  = Ok (PhaseSpec 10 (Fin 10) (Fin (3602879701896397 # 36028797018963968))).
Proof.
  etrans;
    [apply (parse_seconds_form (str "10") (str "0.1") 10
              (3602879701896397 # 36028797018963968));
       [by apply contains_at_false | vm_compute; reflexivity | vm_compute; reflexivity
       | vm_compute; reflexivity | reflexivity]
    | vm_compute; reflexivity].
Defined.

(** ** Decimal texts *)

Lemma to_int_normal (z : Z) :
  Z.to_int z <> Decimal.Pos Decimal.Nil /\ Z.to_int z <> Decimal.Neg Decimal.Nil.
Proof.
  assert (H : Z.to_int z = Decimal.norm (Z.to_int z))
    by (by rewrite <- DecimalZ.to_of, DecimalZ.of_to).
  rewrite H. clear H. destruct (Z.to_int z) as [d | d]; cbn [Decimal.norm].
  - split; [| done]. intros [= H]. by apply DecimalFacts.unorm_nonnil in H.
  - destruct (Decimal.nzhead d) eqn:Hd; split; try done.
    all: intros [= H]; by apply DecimalFacts.unorm_nonnil in H.
Qed.

Lemma str_inj (a b : string) : str a = str b -> a = b.
Proof.
  intros H. apply (f_equal String.string_of_list_ascii) in H.
  by rewrite !String.string_of_list_ascii_of_string in H.
Qed.

Lemma show_Z_inj (a b : Z) : show_Z a = show_Z b -> a = b.
Proof.
  intros H. apply str_inj in H.
  apply (f_equal DecimalString.NilZero.int_of_string) in H.
  destruct (to_int_normal a) as [Ha1 Ha2]. destruct (to_int_normal b) as [Hb1 Hb2].
  rewrite !DecimalString.NilZero.isi in H by done.
  injection H as H. by apply DecimalZ.to_int_inj.
Qed.

Lemma label_name_inj (a b : pystr) : label_name a = label_name b -> a = b.
Proof.
  intros H. apply (f_equal String.list_ascii_of_string) in H.
  by rewrite !String.list_ascii_of_string_of_list_ascii in H.
Qed.

Lemma label_name_empty (a : pystr) : label_name a = String.EmptyString -> a = [].
Proof. intros H. by apply (label_name_inj a []). Qed.

(** ** The phase plan *)

Lemma parse_phase_spec_raises (spec : pystr) (e : exn) :
  parse_phase_spec spec = Raise e -> exists msg, e = ValueError msg.
Proof.
  unfold parse_phase_spec. destruct (negb (contains_at spec)); [intros [= <-]; eauto |].
  destruct (split_at spec) as [count_part rate_part].
  destruct (py_int count_part) as [count |]; [| intros [= <-]; eauto].
  destruct (endswith _ (str "tps")).
  - destruct (py_float _) as [tps |]; [| intros [= <-]; eauto].
    destruct (fle0 tps) eqn:Hle; [intros [= <-]; eauto |].
    destruct (frecip_positive tps Hle) as [w ->]. done.
  - destruct (endswith _ (str "s")); [| intros [= <-]; eauto].
    destruct (py_float _) as [interval |]; [| intros [= <-]; eauto].
    destruct (fle0 interval) eqn:Hle; [intros [= <-]; eauto |].
    destruct (frecip_positive interval Hle) as [w ->]. done.
Qed.

Lemma parse_phases_ok (phases : list pystr) (parsed : list phase_spec) :
  parse_phases phases = Ok parsed
  <-> Forall2 (fun item entry => parse_phase_spec item = Ok entry) phases parsed.
Proof.
  revert parsed. induction phases as [| item rest IH]; intros parsed; cbn [parse_phases].
  - split; [intros [= <-]; constructor | by inversion 1].
  - destruct (parse_phase_spec item) as [entry | e] eqn:Hitem.
    + destruct (parse_phases rest) as [entries | e] eqn:Hrest;
        cbn [mbind result_bind bind].
      * split.
        -- intros [= <-]. constructor; [done | by apply IH].
        -- inversion 1 as [| ? entry' ? entries' Hi Hr]; subst.
           apply IH in Hr. congruence.
      * split; [done |]. inversion 1 as [| ? entry' ? entries' Hi Hr]; subst.
        apply IH in Hr. done.
    + cbn [mbind result_bind bind]. split; [done |]. inversion 1; congruence.
Qed.

Lemma parse_phases_raise (phases : list pystr) (e : exn) :
  parse_phases phases = Raise e ->
  exists i item,
    phases !! i = Some item /\ parse_phase_spec item = Raise e
    /\ forall j item', (j < i)%nat -> phases !! j = Some item' ->
         exists entry, parse_phase_spec item' = Ok entry.
Proof.
  induction phases as [| item rest IH]; cbn [parse_phases]; [done |].
  destruct (parse_phase_spec item) as [entry | e'] eqn:Hitem; cbn [mbind result_bind bind].
  - destruct (parse_phases rest) as [entries | e'] eqn:Hrest; cbn [bind]; [done |].
    intros [= ->]. destruct (IH eq_refl) as (i & item' & Hi & He & Hbefore).
    exists (S i), item'. split; [done |]. split; [done |].
    intros [| j] it Hj Hit; [injection Hit as <-; eauto |].
    apply (Hbefore j); [lia | done].
  - intros [= ->]. exists O, item. split; [done |]. split; [done |]. lia.
Qed.

Lemma comma_fields_nonempty (text : pystr) : Forall (fun label => label <> []) (comma_fields text).
Proof.
  unfold comma_fields. apply Forall_fmap, Forall_forall. intros item Hin.
  by apply list_elem_of_filter in Hin as [Hne _].
Qed.

Lemma default_labels_length (n : nat) : length (default_labels n) = n.
Proof. unfold default_labels. by rewrite length_fmap, length_seq. Qed.

Lemma default_labels_lookup (n i : nat) (label : pystr) :
  default_labels n !! i = Some label ->
  (i < n)%nat /\ label = str "phase" ++ show_Z (Z.of_nat i + 1).
Proof.
  unfold default_labels. rewrite list_lookup_fmap.
  destruct (seq 0 n !! i) as [k |] eqn:Hk; [| done].
  apply lookup_seq in Hk as [-> Hlt]. intros [= <-]. done.
Qed.

Lemma default_labels_nonempty (n : nat) : Forall (fun label => label <> []) (default_labels n).
Proof.
  apply Forall_forall. intros label Hin. apply list_elem_of_lookup in Hin as [i Hi].
  apply default_labels_lookup in Hi as [_ ->]. done.
Qed.

Lemma default_labels_NoDup (n : nat) : NoDup (label_name <$> default_labels n).
Proof.
  apply NoDup_fmap_2; [intros a b; apply label_name_inj |].
  unfold default_labels. apply NoDup_fmap_2; [| apply NoDup_seq].
  intros a b H. apply app_inv_head in H. apply show_Z_inj in H. lia.
Qed.

(** The plan under construction: the labels it zips with the parsed
    entries. *)
Lemma build_phase_plan_inv (items : list pystr) (phase_labels : option pystr)
    (plan : list phase_entry) :
  build_phase_plan (Some items) phase_labels = Ok (Some plan) ->
  exists parsed labels,
    Forall2 (fun item entry => parse_phase_spec item = Ok entry) items parsed
    /\ labels = match truthy_text phase_labels with
                | Some text => comma_fields text
                | None => default_labels (length items)
                end
    /\ length labels = length items
    /\ items <> []
    /\ plan = zip_with set_label parsed labels.
Proof.
  unfold build_phase_plan. destruct items as [| item rest]; [done |].
  destruct (parse_phases (item :: rest)) as [parsed | e] eqn:Hp; [| done].
  apply parse_phases_ok in Hp. pose proof (Forall2_length _ _ _ Hp) as Hlen.
  cbn [mbind result_bind bind]. rewrite <- Hlen.
  destruct (truthy_text phase_labels) as [text |].
  - case_decide as Hne; [done |]. cbn [bind]. intros [= <-].
    exists parsed, (comma_fields text). split_and!; first [done | lia].
  - cbn [bind]. intros [= <-]. exists parsed, (default_labels (length (item :: rest))).
    split_and!; try done. by rewrite default_labels_length.
Qed.

(** [build_phase_plan] on what it returns.  It returns [None] exactly
    when no [--phase] was given.  A plan it returns has one entry per
    [--phase], in their order; entry [i] holds the count, rate and
    interval that [parse_phase_spec] reads from the [i]-th text, and the
    [i]-th label: of the non-blank comma-separated fields of
    [--phase-labels], stripped, or else [phase1], [phase2], ...  No label
    of a plan is empty, and a plan is never the empty list. *)
Theorem phase_plan_entries (phases : option (list pystr)) (phase_labels : option pystr) :
  (build_phase_plan phases phase_labels = Ok None <-> phases = None \/ phases = Some [])
  /\ (forall plan,
        build_phase_plan phases phase_labels = Ok (Some plan) ->
        exists items labels,
          phases = Some items
          /\ labels = match truthy_text phase_labels with
                      | Some text => comma_fields text
                      | None => default_labels (length items)
                      end
          /\ length plan = length items
          /\ length labels = length items
          /\ truthy_plan (Some plan) = true
          /\ (forall i item, items !! i = Some item ->
                exists entry label,
                  plan !! i = Some entry /\ labels !! i = Some label
                  /\ parse_phase_spec item
                     = Ok (PhaseSpec (pe_count entry) (pe_tps entry) (pe_interval entry))
                  /\ pe_label entry = label_name label
                  /\ pe_label entry <> String.EmptyString)).
Proof.
  split.
  - split.
    + destruct phases as [[| item rest] |]; [by right | | by left].
      unfold build_phase_plan. destruct (parse_phases (item :: rest)); [| done].
      cbn [mbind result_bind bind]. destruct (truthy_text phase_labels).
      * by case_decide.
      * done.
    + by intros [-> | ->].
  - intros plan Hplan. destruct phases as [items |]; [| done].
    destruct (build_phase_plan_inv _ _ _ Hplan) as (parsed & labels & Hp & Hl & Hlen & Hne & ->).
    pose proof (Forall2_length _ _ _ Hp) as Hlenp.
    exists items, labels. split; [done |]. split; [done |].
    assert (Hlz : length (zip_with set_label parsed labels) = length items).
    { rewrite length_zip_with. lia. }
    split; [done |]. split; [done |]. split.
    { unfold truthy_plan, plan_entries. cbn [default].
      destruct (zip_with set_label parsed labels); [| done].
      destruct items; [done | simpl in Hlz; lia]. }
    intros i item Hi.
    destruct (Forall2_lookup_l _ _ _ _ _ Hp Hi) as (entry & Hentry & Hparse).
    destruct (lookup_lt_is_Some_2 labels i) as [label Hlabel].
    { rewrite Hlen. by eapply lookup_lt_Some. }
    exists (set_label entry label), label. split_and!; try done.
    + apply lookup_zip_with_Some. eauto.
    + by destruct entry.
    + cbn [set_label pe_label]. intros Hempty. apply label_name_empty in Hempty.
      assert (Hall : Forall (fun label => label <> []) labels).
      { rewrite Hl. destruct (truthy_text phase_labels);
          [apply comma_fields_nonempty | apply default_labels_nonempty]. }
      rewrite Forall_forall in Hall. apply (Hall label); [| done].
      by eapply list_elem_of_lookup_2.
Qed.

(** Every failure of [build_phase_plan] is a [ValueError], which is what
    [main] catches to exit with status 1: the error of the first
    [--phase] text that [parse_phase_spec] refuses, or else, when every
    text parses and [--phase-labels] is given, the fixed message on the
    number of labels. *)
Theorem phase_plan_failure (phases : option (list pystr)) (phase_labels : option pystr)
    (e : exn) :
  build_phase_plan phases phase_labels = Raise e ->
  (exists msg, e = ValueError msg)
  /\ exists items, phases = Some items
     /\ ((exists i item,
            items !! i = Some item /\ parse_phase_spec item = Raise e
            /\ forall j item', (j < i)%nat -> items !! j = Some item' ->
                 exists entry, parse_phase_spec item' = Ok entry)
         \/ (exists text,
               truthy_text phase_labels = Some text
               /\ length (comma_fields text) <> length items
               /\ e = ValueError msg_label_count
               /\ Forall (fun item => exists entry, parse_phase_spec item = Ok entry) items)).
Proof.
  unfold build_phase_plan. destruct phases as [[| item rest] |]; [done | | done].
  destruct (parse_phases (item :: rest)) as [parsed | e'] eqn:Hp.
  - cbn [mbind result_bind bind]. apply parse_phases_ok in Hp.
    pose proof (Forall2_length _ _ _ Hp) as Hlen.
    destruct (truthy_text phase_labels) as [text |]; [| done].
    case_decide as Hne; [| done]. intros [= <-]. split; [eauto |].
    exists (item :: rest). split; [done |]. right. exists text. split_and!; try done.
    + by rewrite Hlen.
    + apply Forall_forall. intros it Hin. apply list_elem_of_lookup in Hin as [i Hi].
      destruct (Forall2_lookup_l _ _ _ _ _ Hp Hi) as (entry & _ & Hparse). eauto.
  - cbn [mbind result_bind bind]. intros [= ->].
    destruct (parse_phases_raise _ _ Hp) as (i & it & Hi & He & Hbefore).
    split; [by eapply parse_phase_spec_raises |].
    exists (item :: rest). split; [done |]. left. eauto 10.
Qed.

(** ** The per-phase counts *)

Lemma success_count_le (rows : list row) : (success_count rows <= length rows)%nat.
Proof. apply length_filter. Qed.

Lemma success_count_cons (r : row) (rows : list row) :
  success_count (r :: rows)
  = ((if decide (r_status r = 1%Z) then 1 else 0) + success_count rows)%nat.
Proof. unfold success_count. rewrite filter_cons. by case_decide. Qed.

Lemma phase_results_step_lookup (acc : gmap string phase_counts) (r : row) :
  phase_results_step acc r !! phase_label r
  = Some (let entry := default (PhaseCounts 0 0 0) (acc !! phase_label r) in
          if decide (r_status r = 1)
          then PhaseCounts (S (pc_total entry)) (S (pc_success entry)) (pc_failed entry)
          else PhaseCounts (S (pc_total entry)) (pc_success entry) (S (pc_failed entry))).
Proof.
  unfold phase_results_step. rewrite lookup_insert_eq. cbn zeta.
  by case_decide.
Qed.

Lemma phase_results_step_other (acc : gmap string phase_counts) (r : row) (label : string) :
  phase_label r <> label -> phase_results_step acc r !! label = acc !! label.
Proof. intros Hne. unfold phase_results_step. by rewrite lookup_insert_ne. Qed.

(** The entry of [label] after the loop, from the entry before it. *)
Lemma phase_results_fold (results : list row) (acc : gmap string phase_counts)
    (label : string) :
  fold_left phase_results_step results acc !! label
  = match rows_labelled label results with
    | [] => acc !! label
    | rows =>
        let entry := default (PhaseCounts 0 0 0) (acc !! label) in
        Some (PhaseCounts (pc_total entry + length rows)
                (pc_success entry + success_count rows)
                (pc_failed entry + (length rows - success_count rows)))
    end.
Proof.
  revert acc. induction results as [| r rest IH]; intros acc; [done |].
  cbn [fold_left]. rewrite IH. unfold rows_labelled. rewrite filter_cons.
  fold (rows_labelled label rest).
  pose proof (success_count_le (rows_labelled label rest)) as Hle.
  case_decide as Hlabel.
  - subst label. rewrite phase_results_step_lookup, success_count_cons.
    destruct (default (PhaseCounts 0 0 0) (acc !! phase_label r)) as [t s f].
    destruct (rows_labelled (phase_label r) rest) as [| r' rows'];
      cbn zeta; cbn [default pc_total pc_success pc_failed];
      case_decide; cbn [pc_total pc_success pc_failed];
      do 2 f_equal; simpl in *; lia.
  - by rewrite phase_results_step_other.
Qed.

Lemma table_sum_insert (f : phase_counts -> nat) (m : gmap string phase_counts)
    (label : string) (entry : phase_counts) :
  (table_sum f (<[label := entry]> m) + from_option f 0 (m !! label)
   = table_sum f m + f entry)%nat.
Proof.
  assert (Hfresh : forall (m' : gmap string phase_counts) e,
             m' !! label = None ->
             table_sum f (<[label := e]> m') = (f e + table_sum f m')%nat).
  { intros m' e Hnone. unfold table_sum. rewrite map_fold_insert_L; [done | | done].
    intros. lia. }
  destruct (m !! label) as [old |] eqn:Hold; cbn [from_option].
  - assert (Hm : table_sum f m = table_sum f (<[label := old]> (delete label m)))
      by (by rewrite insert_delete_id).
    rewrite Hm, <- (insert_delete_eq m), !Hfresh by apply lookup_delete_eq. lia.
  - rewrite Hfresh by done. lia.
Qed.

Lemma phase_results_step_eq (acc : gmap string phase_counts) (r : row) :
  phase_results_step acc r
  = <[phase_label r :=
        let entry := default (PhaseCounts 0 0 0) (acc !! phase_label r) in
        if decide (r_status r = 1)
        then PhaseCounts (S (pc_total entry)) (S (pc_success entry)) (pc_failed entry)
        else PhaseCounts (S (pc_total entry)) (pc_success entry) (S (pc_failed entry))]> acc.
Proof. unfold phase_results_step. cbn zeta. by case_decide. Qed.

Lemma table_sum_step (f : phase_counts -> nat) (acc : gmap string phase_counts) (r : row)
    (d : nat) :
  (forall t s fl,
     f (if decide (r_status r = 1) then PhaseCounts (S t) (S s) fl
        else PhaseCounts (S t) s (S fl))
     = (f (PhaseCounts t s fl) + d)%nat) ->
  f (PhaseCounts 0 0 0) = O ->
  table_sum f (phase_results_step acc r) = (table_sum f acc + d)%nat.
Proof.
  intros Hf H0. rewrite phase_results_step_eq.
  pose proof (table_sum_insert f acc (phase_label r)) as Hins.
  destruct (acc !! phase_label r) as [[t s fl] |] eqn:Hold;
    cbn zeta; cbn [default id pc_total pc_success pc_failed from_option] in *.
  - specialize (Hins (if decide (r_status r = 1) then PhaseCounts (S t) (S s) fl
                      else PhaseCounts (S t) s (S fl))).
    rewrite Hf in Hins. lia.
  - specialize (Hins (if decide (r_status r = 1) then PhaseCounts 1 1 0
                      else PhaseCounts 1 0 1)).
    rewrite Hf, H0 in Hins. lia.
Qed.

Lemma table_sum_fold (results : list row) (acc : gmap string phase_counts) :
  table_sum pc_total (fold_left phase_results_step results acc)
  = (table_sum pc_total acc + length results)%nat
  /\ table_sum pc_success (fold_left phase_results_step results acc)
     = (table_sum pc_success acc + success_count results)%nat
  /\ table_sum pc_failed (fold_left phase_results_step results acc)
     = (table_sum pc_failed acc + (length results - success_count results))%nat.
Proof.
  revert acc. induction results as [| r rest IH]; intros acc.
  - unfold success_count. simpl. split_and!; lia.
  - cbn [fold_left]. destruct (IH (phase_results_step acc r)) as (Ht & Hs & Hf).
    rewrite Ht, Hs, Hf. pose proof (success_count_le rest) as Hle.
    rewrite success_count_cons. cbn [length].
    rewrite (table_sum_step pc_total acc r 1), (table_sum_step pc_success acc r
               (if decide (r_status r = 1%Z) then 1 else 0)%nat),
            (table_sum_step pc_failed acc r (if decide (r_status r = 1%Z) then 0 else 1)%nat).
    + case_decide; split_and!; lia.
    + intros. case_decide; cbn; lia.
    + done.
    + intros. case_decide; cbn; lia.
    + done.
    + intros. case_decide; cbn; lia.
    + done.
Qed.

Lemma phase_line_counts (phase_plan : option (list phase_entry))
    (results : list row) (label : string) :
  truthy_plan phase_plan = true ->
  (main_phase_results phase_plan results !! label = None
   <-> rows_labelled label results = [])
  /\ phase_line (main_phase_results phase_plan results) label
     = PhaseCounts (length (rows_labelled label results))
         (success_count (rows_labelled label results))
         (length (rows_labelled label results)
          - success_count (rows_labelled label results)).
Proof.
  intros Hplan. unfold main_phase_results, phase_line. rewrite Hplan.
  rewrite phase_results_fold, lookup_empty.
  destruct (rows_labelled label results) as [| r rows']; [done |].
  cbn zeta. cbn [pc_total pc_success pc_failed default id]. done.
Qed.

(** The table [phase_results] that [main] fills when there is a plan.
    A label is a key exactly when some row is filed under it, where a row
    without phase is filed under [unlabeled]; its entry counts these rows,
    those of them with status 1 as successes and all the others as
    failures, so total = success + failed and no entry has total 0.  The
    line printed for a label without rows is all zeros. *)
Theorem phase_results_counts (phase_plan : option (list phase_entry))
    (results : list row) (label : string) :
  truthy_plan phase_plan = true ->
  let rows := rows_labelled label results in
  (main_phase_results phase_plan results !! label = None <-> rows = [])
  /\ phase_line (main_phase_results phase_plan results) label
     = PhaseCounts (length rows) (success_count rows) (length rows - success_count rows)
  /\ (forall entry,
        main_phase_results phase_plan results !! label = Some entry ->
        pc_total entry = (pc_success entry + pc_failed entry)%nat
        /\ (0 < pc_total entry)%nat
        /\ entry = phase_line (main_phase_results phase_plan results) label).
Proof.
  intros Hplan. cbn zeta. unfold main_phase_results, phase_line. rewrite Hplan.
  rewrite phase_results_fold, lookup_empty.
  pose proof (success_count_le (rows_labelled label results)) as Hle.
  destruct (rows_labelled label results) as [| r rows'].
  - split; [done |]. split; [done |]. done.
  - cbn zeta. cbn [pc_total pc_success pc_failed default id]. split; [done |].
    split; [done |]. intros entry [= <-]. cbn [pc_total pc_success pc_failed].
    cbn [length] in Hle. split; [lia |]. split; [lia | done].
Qed.

(** The counts of the table add up to those of the summary computed
    just before it: the totals to [tx_count], the successes to [success],
    the failures to [failed], which in turn add up to [tx_count]. *)
Theorem phase_results_add_up (phase_plan : option (list phase_entry))
    (results : list row) (duration : Q) (sm : summary) :
  truthy_plan phase_plan = true ->
  main_summary results duration = Ok sm ->
  table_sum pc_total (main_phase_results phase_plan results) = sm_tx_count sm
  /\ table_sum pc_success (main_phase_results phase_plan results) = sm_success sm
  /\ table_sum pc_failed (main_phase_results phase_plan results) = sm_failed sm
  /\ (sm_success sm + sm_failed sm)%nat = sm_tx_count sm
  /\ sm_tx_count sm = length results.
Proof.
  intros Hplan Hsm. unfold main_phase_results. rewrite Hplan.
  destruct (table_sum_fold results ∅) as (Ht & Hs & Hf). rewrite Ht, Hs, Hf.
  unfold main_summary in Hsm.
  destruct (tps_estimate _ _) as [tps |]; [| done].
  destruct (summary_latency results) as [lat |]; [| done].
  cbn [mbind result_bind bind] in Hsm. injection Hsm as <-.
  cbn [sm_tx_count sm_success sm_failed]. pose proof (success_count_le results).
  unfold table_sum. rewrite !map_fold_empty. split_and!; lia.
Qed.

(** ** Default labels and the latency breakdown *)

Lemma zip_labels (parsed : list phase_spec) (labels : list pystr) :
  length labels = length parsed ->
  pe_label <$> zip_with set_label parsed labels = label_name <$> labels.
Proof.
  revert labels. induction parsed as [| entry rest IH]; intros [| label labels] Hlen;
    try done.
  cbn [zip_with fmap list_fmap]. f_equal. apply IH. simpl in Hlen. lia.
Qed.

(** Without [--phase-labels] the labels of the plan are [phase1],
    [phase2], ... in this order, and they are pairwise distinct: the plan
    has as many labels as phases, and so has the per-phase table of
    [collect_latency_breakdown], whatever the rows. *)
Theorem default_labels_distinct (items : list pystr) (phase_labels : option pystr)
    (plan : list phase_entry) :
  truthy_text phase_labels = None ->
  build_phase_plan (Some items) phase_labels = Ok (Some plan) ->
  pe_label <$> plan = label_name <$> default_labels (length items)
  /\ NoDup (pe_label <$> plan)
  /\ size (plan_labels (Some plan)) = length items
  /\ forall results,
       exists overall phase_stats,
         collect_latency_breakdown results (Some plan) = Ok (overall, phase_stats)
         /\ size (dom phase_stats) = length items.
Proof.
  intros Hnone Hplan.
  destruct (build_phase_plan_inv _ _ _ Hplan) as (parsed & labels & Hp & Hl & Hlen & _ & ->).
  rewrite Hnone in Hl. subst labels. pose proof (Forall2_length _ _ _ Hp) as Hlenp.
  assert (Hlabels : pe_label <$> zip_with set_label parsed (default_labels (length items))
                    = label_name <$> default_labels (length items)).
  { apply zip_labels. lia. }
  assert (Hnd : NoDup (pe_label <$> zip_with set_label parsed (default_labels (length items)))).
  { rewrite Hlabels. apply default_labels_NoDup. }
  assert (Hsize : size (plan_labels (Some (zip_with set_label parsed
                                             (default_labels (length items)))))
                  = length items).
  { unfold plan_labels, plan_entries. cbn [default id].
    rewrite size_list_to_set by done.
    by rewrite Hlabels, length_fmap, default_labels_length. }
  split; [done |]. split; [done |]. split; [done |].
  intros results.
  destruct (collect_latency_breakdown_spec results
              (Some (zip_with set_label parsed (default_labels (length items)))))
    as (overall & ps & Hc & _ & Hdom & _).
  exists overall, ps. split; [done |]. by rewrite Hdom.
Qed.

(** ** Submitted against target *)

Lemma phased_run_keys (label_string : string) (start_overall : Q)
    (voters : list string) (phase_plan : list phase_entry) (schedule : list sched_item)
    (obs : nat -> submit_obs) (receipt_workers : Z) (out : list row) :
  build_schedule voters phase_plan = Ok schedule ->
  phased_run label_string start_overall schedule obs receipt_workers out ->
  row_key <$> out = schedule_keys schedule.
Proof.
  intros Hbuild (_ & s & Hrun & Hterm & ->)%phased_run_fit.
  destruct (build_schedule_ok _ _ _ Hbuild) as (Hidx & _).
  pose proof (schedule_keys_indices schedule Hidx) as Hseq.
  exact (run_result_keys _ _ _ _ _ _ Hrun Hterm (phased_loop_keys _ _ schedule obs _ _) Hseq).
Qed.

Lemma build_schedule_phases (voters : list string) (phase_plan : list phase_entry)
    (schedule : list sched_item) :
  build_schedule voters phase_plan = Ok schedule ->
  item_phase <$> schedule = planned_phases phase_plan.
Proof.
  unfold build_schedule. case_decide; [done |].
  destruct (fold_left _ phase_plan (Ok ([], O))) as [acc | e] eqn:Hfold; [| done].
  cbn [mbind result_bind bind]. intros [= <-].
  by rewrite (fold_expand_phases _ _ _ _ Hfold).
Qed.

Lemma rows_labelled_length (label : string) (results : list row) :
  length (rows_labelled label results)
  = length (filter (fun l => l = label) (phase_label <$> results)).
Proof.
  unfold rows_labelled. induction results as [| r rest IH]; [done |].
  cbn [fmap list_fmap]. rewrite !filter_cons. case_decide; simpl; by rewrite IH.
Qed.

Lemma filter_none {A : Type} (P : A -> Prop) `{!forall a, Decision (P a)} (l : list A) :
  Forall (fun a => ~ P a) l -> filter P l = [].
Proof.
  induction 1 as [| a l Ha _ IH]; [done |]. by rewrite filter_cons, decide_False.
Qed.

Lemma planned_labels_count (label : string) (phase_plan : list phase_entry) :
  length (filter (fun l => l = label) (fst <$> planned_phases phase_plan))
  = target_calls label phase_plan.
Proof.
  unfold target_calls, planned_phases.
  induction phase_plan as [| entry rest IH]; [done |].
  cbn [flat_map]. rewrite fmap_app, filter_app, length_app, IH, filter_cons.
  assert (Hrep : forall n,
             length (filter (fun l => l = label)
                       (fst <$> replicate n (pe_label entry, pe_interval entry)))
             = if decide (pe_label entry = label) then n else O).
  { intros n. destruct (decide (pe_label entry = label)) as [Heq | Hne];
      induction n as [| n IHn]; try done; cbn [replicate fmap list_fmap fst].
    - rewrite filter_cons, decide_True by done. simpl. by rewrite IHn.
    - by rewrite filter_cons, decide_False. }
  rewrite Hrep. case_decide; simpl; lia.
Qed.

Lemma planned_labels_plan (phase_plan : list phase_entry) (label : string) :
  label ∈ fst <$> planned_phases phase_plan -> label ∈ pe_label <$> phase_plan.
Proof.
  unfold planned_phases. induction phase_plan as [| entry rest IH]; [done |].
  cbn [flat_map fmap list_fmap]. rewrite fmap_app, elem_of_app. intros [Hin | Hin].
  - apply list_elem_of_fmap in Hin as ([l i] & -> & Hin).
    apply elem_of_replicate in Hin as [Heq _]. injection Heq as -> ->. cbn [fst]. left.
  - right. by apply IH.
Qed.

Lemma target_calls_unique (phase_plan : list phase_entry) (entry : phase_entry) :
  NoDup (pe_label <$> phase_plan) -> entry ∈ phase_plan ->
  target_calls (pe_label entry) phase_plan = Z.to_nat (pe_count entry).
Proof.
  unfold target_calls. induction phase_plan as [| e rest IH]; [by inversion 2 |].
  cbn [fmap list_fmap]. rewrite NoDup_cons. intros [Hnotin Hnd] Hin.
  rewrite filter_cons. apply elem_of_cons in Hin as [-> | Hin].
  - rewrite decide_True by done. cbn [planned_calls foldr].
    assert (Hnone : filter (fun e' => pe_label e' = pe_label e) rest = []).
    { apply filter_none, Forall_forall. intros e' He' Heq. apply Hnotin.
      rewrite <- Heq. apply list_elem_of_fmap. eauto. }
    rewrite Hnone. simpl. lia.
  - rewrite decide_False; [by apply IH |].
    intros Heq. apply Hnotin. rewrite Heq. apply list_elem_of_fmap. eauto.
Qed.

(** The rows of a phased run are filed under the labels of their
    phases, as long as no label is empty (none of [build_phase_plan] is). *)
Lemma phased_run_labels (label_string : string) (start_overall : Q)
    (voters : list string) (phase_plan : list phase_entry) (schedule : list sched_item)
    (obs : nat -> submit_obs) (receipt_workers : Z) (out : list row) :
  Forall (fun entry => pe_label entry <> String.EmptyString) phase_plan ->
  build_schedule voters phase_plan = Ok schedule ->
  phased_run label_string start_overall schedule obs receipt_workers out ->
  phase_label <$> out = fst <$> planned_phases phase_plan.
Proof.
  intros Hlabels Hbuild Hrun.
  pose proof (phased_run_keys _ _ _ _ _ _ _ _ Hbuild Hrun) as Hkeys.
  pose proof (build_schedule_phases _ _ _ Hbuild) as Hphases.
  assert (Hrp : r_phase <$> out = (fun item => Some (si_phase item)) <$> schedule).
  { apply (f_equal (fmap snd)) in Hkeys. unfold schedule_keys in Hkeys.
    by rewrite <- !list_fmap_compose in Hkeys. }
  assert (Hpl : phase_label <$> out
                = (fun o => default "unlabeled"%string (truthy_label o)) <$> (r_phase <$> out))
    by (by rewrite <- list_fmap_compose).
  rewrite Hpl, Hrp, <- Hphases, <- !list_fmap_compose.
  apply Forall_fmap_ext_1, Forall_forall. intros item Hitem.
  cbn [compose item_phase fst truthy_label].
  assert (Hin : si_phase item ∈ pe_label <$> phase_plan).
  { apply planned_labels_plan. rewrite <- Hphases, <- list_fmap_compose.
    apply list_elem_of_fmap. by exists item. }
  apply list_elem_of_fmap in Hin as (entry & Heq & Hentry).
  rewrite Forall_forall in Hlabels. specialize (Hlabels entry Hentry).
  rewrite decide_False by congruence. done.
Qed.

(** The column [submitted] of the phase breakdown after a phased run.
    No phase label being empty (as in every plan of [build_phase_plan]),
    the rows counted for a label are the turns of the [range(count)]
    loops of the phases with this label, whatever was submitted or
    confirmed.  With pairwise distinct labels this is the target count of
    the phase; phases that share a label report their joint total.  No
    row of the run is filed under a key that is not a label of the plan. *)
Theorem submitted_meets_target (label_string : string) (start_overall : Q)
    (voters : list string) (phase_plan : list phase_entry) (schedule : list sched_item)
    (obs : nat -> submit_obs) (receipt_workers : Z) (out : list row) :
  Forall (fun entry => pe_label entry <> String.EmptyString) phase_plan ->
  build_schedule voters phase_plan = Ok schedule ->
  phased_run label_string start_overall schedule obs receipt_workers out ->
  (forall label,
     pc_total (phase_line (main_phase_results (Some phase_plan) out) label)
     = target_calls label phase_plan)
  /\ (NoDup (pe_label <$> phase_plan) ->
      forall entry, entry ∈ phase_plan ->
        pc_total (phase_line (main_phase_results (Some phase_plan) out) (pe_label entry))
        = Z.to_nat (pe_count entry))
  /\ dom (main_phase_results (Some phase_plan) out) ⊆ plan_labels (Some phase_plan).
Proof.
  intros Hlabels Hbuild Hrun.
  pose proof (phased_run_labels _ _ _ _ _ _ _ _ Hlabels Hbuild Hrun) as Hout.
  assert (Hrows : forall label,
             length (rows_labelled label out) = target_calls label phase_plan).
  { intros label. rewrite <- planned_labels_count, <- Hout.
    apply rows_labelled_length. }
  assert (Htotal : forall label,
             pc_total (phase_line (main_phase_results (Some phase_plan) out) label)
             = target_calls label phase_plan).
  { intros label. destruct (truthy_plan (Some phase_plan)) eqn:Hplan.
    - destruct (phase_line_counts (Some phase_plan) out label Hplan) as [_ ->].
      cbn [pc_total]. apply Hrows.
    - unfold main_phase_results, phase_line. rewrite Hplan, lookup_empty.
      unfold truthy_plan, plan_entries in Hplan. cbn [default id] in Hplan.
      by destruct phase_plan. }
  split; [exact Htotal |]. split.
  - intros Hnd entry Hentry. rewrite Htotal. by apply target_calls_unique.
  - intros label Hdom. apply elem_of_dom in Hdom as [pc Hpc].
    destruct (truthy_plan (Some phase_plan)) eqn:Hplan.
    + destruct (phase_line_counts (Some phase_plan) out label Hplan) as [Hnone _].
      assert (Hne : rows_labelled label out <> []).
      { intros Hnil. apply Hnone in Hnil. congruence. }
      unfold plan_labels, plan_entries. cbn [default id]. apply elem_of_list_to_set.
      apply planned_labels_plan. rewrite <- Hout.
      destruct (rows_labelled label out) as [| r rows] eqn:Hr; [done |].
      assert (Hin : r ∈ rows_labelled label out) by (rewrite Hr; left).
      unfold rows_labelled in Hin. apply list_elem_of_filter in Hin as [<- Hin].
      apply list_elem_of_fmap. eauto.
    + unfold main_phase_results in Hpc. by rewrite Hplan, lookup_empty in Hpc.
Qed.

(** ** Voter accounts *)

Lemma slice_to_all {A : Type} (l : list A) (stop : Z) :
  Z.of_nat (length l) = stop -> slice_to l stop = l.
Proof.
  intros Hlen. unfold slice_to. rewrite decide_False by lia.
  apply take_ge. lia.
Qed.

Lemma slice_to_length {A : Type} (l : list A) (stop : Z) :
  0 <= stop <= Z.of_nat (length l) -> length (slice_to l stop) = Z.to_nat stop.
Proof.
  intros Hlen. unfold slice_to. rewrite decide_False by lia.
  rewrite length_take. lia.
Qed.

Lemma slice_to_prefix {A : Type} (l : list A) (stop : Z) : slice_to l stop `prefix_of` l.
Proof. unfold slice_to. case_decide; apply prefix_take. Qed.

Section AccountFacts.

Context (eth_accounts : reply (list pystr))
        (to_checksum_address : pystr -> reply pystr)
        (personal_new_account : nat -> reply pystr).

Lemma create_accounts_ok (needed k : nat) (voters created voters' created' : list pystr) :
  create_accounts to_checksum_address personal_new_account needed k voters created
  = Return (voters', created') ->
  exists new,
    length new = needed /\ voters' = voters ++ new /\ created' = created ++ new
    /\ forall i account, new !! i = Some account ->
         exists new_account,
           personal_new_account (k + i)%nat = Reply new_account
           /\ to_checksum_address new_account = Reply account.
Proof.
  revert k voters created. induction needed as [| n IH]; intros k voters created Hc.
  - injection Hc as <- <-. exists []. by rewrite !app_nil_r.
  - cbn [create_accounts] in Hc.
    destruct (personal_new_account k) as [new_account | text] eqn:Hnew; [| done].
    destruct (to_checksum_address new_account) as [checksum | text] eqn:Hsum; [| done].
    cbn [call mbind outcome_bind] in Hc.
    destruct (IH _ _ _ Hc) as (new & Hlen & -> & -> & Hnew').
    exists (checksum :: new). split; [simpl; lia |].
    split; [by rewrite <- app_assoc |]. split; [by rewrite <- app_assoc |].
    intros [| i] account Hi.
    + injection Hi as <-. exists new_account. by rewrite Nat.add_0_r.
    + destruct (Hnew' i account Hi) as (na & Hna & Hcs). exists na.
      split; [| done]. rewrite <- Hna. f_equal. lia.
Qed.

Lemma create_accounts_throw (needed k : nat) (voters created : list pystr) (r : raised) :
  create_accounts to_checksum_address personal_new_account needed k voters created
  = Throw r ->
  (r = Exn (ValueError msg_creation_failed)
   /\ exists i text, (i < needed)%nat /\ personal_new_account (k + i)%nat = Fault text)
  \/ (exists account text, r = Web3Error text /\ to_checksum_address account = Fault text).
Proof.
  revert k voters created. induction needed as [| n IH]; intros k voters created Hc; [done |].
  cbn [create_accounts] in Hc.
  destruct (personal_new_account k) as [new_account | text] eqn:Hnew.
  - destruct (to_checksum_address new_account) as [checksum | text] eqn:Hsum;
      cbn [call mbind outcome_bind] in Hc.
    + destruct (IH _ _ _ Hc) as [(-> & i & text & Hi & Hf) | Hright]; [| by right].
      left. split; [done |]. exists (S i), text. split; [lia |].
      rewrite <- Hf. f_equal. lia.
    + injection Hc as <-. right. eauto.
  - injection Hc as <-. left. split; [done |]. exists O, text.
    split; [lia |]. by rewrite Nat.add_0_r.
Qed.

Lemma checksum_all_ok (accs checksums : list pystr) :
  checksum_all to_checksum_address accs = Return checksums
  <-> Forall2 (fun acc checksum => to_checksum_address acc = Reply checksum) accs checksums.
Proof.
  revert checksums. induction accs as [| acc rest IH]; intros checksums;
    cbn [checksum_all].
  - split; [intros [= <-]; constructor | by inversion 1].
  - destruct (to_checksum_address acc) as [checksum | text] eqn:Hacc;
      cbn [call mbind outcome_bind].
    + destruct (checksum_all to_checksum_address rest) as [cs | r] eqn:Hrest;
        cbn [mbind outcome_bind].
      * split.
        -- intros [= <-]. constructor; [done | by apply IH].
        -- inversion 1 as [| ? c' ? cs' Hc Hr]; subst. apply IH in Hr. congruence.
      * split; [done |]. inversion 1 as [| ? c' ? cs' Hc Hr]; subst.
        apply IH in Hr. done.
    + split; [done |]. inversion 1; congruence.
Qed.

Lemma checksum_all_throw (accs : list pystr) (r : raised) :
  checksum_all to_checksum_address accs = Throw r ->
  exists account text,
    account ∈ accs /\ r = Web3Error text /\ to_checksum_address account = Fault text.
Proof.
  induction accs as [| acc rest IH]; cbn [checksum_all]; [done |].
  destruct (to_checksum_address acc) as [checksum | text] eqn:Hacc;
    cbn [call mbind outcome_bind].
  - destruct (checksum_all to_checksum_address rest) as [cs | r'] eqn:Hrest;
      cbn [mbind outcome_bind]; [done |].
    intros [= ->]. destruct (IH eq_refl) as (account & text & Hin & -> & Hf).
    exists account, text. split; [by right | done].
  - intros [= <-]. exists acc, text. split; [left | done].
Qed.

Lemma resolve_accounts_inv (funder explicit_accounts : option pystr) (skip_unlock : bool)
    (required : Z) (fresh_accounts : bool) (acc : accounts) :
  resolve_accounts eth_accounts to_checksum_address personal_new_account
    funder explicit_accounts skip_unlock required fresh_accounts = Return acc ->
  exists accs chain_accounts voters new,
    eth_accounts = Reply accs
    /\ checksum_all to_checksum_address accs = Return chain_accounts
    /\ ac_funder acc ∈ chain_accounts
    /\ match truthy_text funder with
       | Some text => to_checksum_address text = Reply (ac_funder acc)
       | None => chain_accounts !! O = Some (ac_funder acc)
       end
    /\ initial_voters to_checksum_address explicit_accounts fresh_accounts chain_accounts (ac_funder acc) voters
    /\ ac_created acc = new
    /\ ac_voters acc = slice_to (voters ++ new) required
    /\ length new = Z.to_nat (required - Z.of_nat (length voters))
    /\ (forall i account, new !! i = Some account ->
          exists new_account,
            personal_new_account i = Reply new_account
            /\ to_checksum_address new_account = Reply account)
    /\ ac_unlock_requests acc
       = if skip_unlock then [] else ac_funder acc :: ac_voters acc.
Proof.
  unfold resolve_accounts. destruct eth_accounts as [accs | text]; [| done].
  cbn [call mbind outcome_bind].
  destruct (checksum_all to_checksum_address accs) as [chain_accounts | r] eqn:Hchain;
    [| done].
  destruct chain_accounts as [| first chain]; [done |].
  intros Hres.
  assert (Hfunder : exists funder_account,
             funder_account ∈ (first :: chain)
             /\ match truthy_text funder with
                | Some text => to_checksum_address text = Reply funder_account
                | None => (first :: chain) !! O = Some funder_account
                end
             /\ (voters ←
                   match truthy_text explicit_accounts with
                   | Some text => checksum_all to_checksum_address (comma_fields text)
                   | None =>
                       Return (if fresh_accounts then []
                               else filter (fun acc => lower acc <> lower funder_account)
                                      (first :: chain))
                   end;
                 grown ←
                   (if decide (Z.of_nat (length voters) < required)
                    then create_accounts to_checksum_address personal_new_account
                           (Z.to_nat (required - Z.of_nat (length voters))) 0 voters []
                    else Return (voters, []));
                 let voters := slice_to grown.1 required in
                 Return (Accounts funder_account voters grown.2
                           (if skip_unlock then [] else funder_account :: voters)))
                = Return acc).
  { destruct (truthy_text funder) as [text |].
    - destruct (to_checksum_address text) as [fa | t]; [| done].
      cbn [call mbind outcome_bind] in Hres. case_decide as Hin; [done |].
      exists fa. done.
    - exists first. split; [left | done]. }
  clear Hres. destruct Hfunder as (funder_account & Hin & Hf & Hres).
  assert (Hvoters : exists voters,
             initial_voters to_checksum_address explicit_accounts fresh_accounts (first :: chain)
               funder_account voters
             /\ (grown ←
                   (if decide (Z.of_nat (length voters) < required)
                    then create_accounts to_checksum_address personal_new_account
                           (Z.to_nat (required - Z.of_nat (length voters))) 0 voters []
                    else Return (voters, []));
                 let voters := slice_to grown.1 required in
                 Return (Accounts funder_account voters grown.2
                           (if skip_unlock then [] else funder_account :: voters)))
                = Return acc).
  { unfold initial_voters. destruct (truthy_text explicit_accounts) as [text |].
    - destruct (checksum_all to_checksum_address (comma_fields text)) as [vs | r]; [| done].
      exists vs. done.
    - eexists. split; [reflexivity | exact Hres]. }
  clear Hres. destruct Hvoters as (voters & Hinit & Hres).
  exists accs, (first :: chain), voters.
  case_decide as Hfew.
  - destruct (create_accounts _ _ _ _ _ _) as [[voters' created'] | r] eqn:Hcreate; [| done].
    cbn [mbind outcome_bind fst snd] in Hres. injection Hres as <-.
    destruct (create_accounts_ok _ _ _ _ _ _ Hcreate) as (new & Hlen & -> & -> & Hnew).
    exists new. cbn [ac_funder ac_voters ac_created ac_unlock_requests].
    split_and!; try done.
  - cbn [mbind outcome_bind fst snd] in Hres. injection Hres as <-.
    exists []. cbn [ac_funder ac_voters ac_created ac_unlock_requests].
    rewrite app_nil_r. split_and!; try done. simpl. lia.
Qed.

End AccountFacts.

Lemma slice_to_grown {A : Type} (voters new : list A) (required : Z) :
  length new = Z.to_nat (required - Z.of_nat (length voters)) ->
  exists kept,
    kept `prefix_of` voters
    /\ slice_to (voters ++ new) required = kept ++ new
    /\ (new <> [] -> kept = voters)
    /\ (0 <= required -> Z.of_nat (length (kept ++ new)) = required).
Proof.
  intros Hlen. destruct (decide (Z.of_nat (length voters) < required)) as [Hfew | Hmany].
  - exists voters. split; [done |]. split; [| split; [done |]].
    + apply slice_to_all. rewrite length_app. lia.
    + intros _. rewrite length_app. lia.
  - destruct new as [| a new]; [| simpl in Hlen; lia].
    rewrite app_nil_r. exists (slice_to voters required).
    split; [apply slice_to_prefix |]. split; [by rewrite app_nil_r |]. split; [done |].
    intros Hpos. rewrite app_nil_r, slice_to_length; lia.
Qed.

(** ** Schedules that cannot fail *)

Lemma expand_phase_enough (voters : list string) (entry : phase_entry) (n : nat)
    (schedule : list sched_item) (voter_index : nat) :
  (voter_index + n <= length voters)%nat ->
  exists schedule',
    expand_phase voters entry n (schedule, voter_index) = Ok (schedule', (voter_index + n)%nat).
Proof.
  revert schedule voter_index. induction n as [| n IH]; intros schedule vi Hlen.
  - exists schedule. by rewrite Nat.add_0_r.
  - cbn [expand_phase]. destruct (lookup_lt_is_Some_2 voters vi) as [account ->]; [lia |].
    destruct (IH (schedule ++ [SchedItem vi account (pe_interval entry) (pe_label entry)])
                (S vi)) as [schedule' Hs]; [lia |].
    exists schedule'. rewrite Hs. do 2 f_equal. lia.
Qed.

Lemma fold_expand_enough (voters : list string) (phase_plan : list phase_entry)
    (schedule : list sched_item) (voter_index : nat) :
  (voter_index + planned_calls phase_plan <= length voters)%nat ->
  exists acc,
    fold_left
      (fun acc entry => st ← acc; expand_phase voters entry (Z.to_nat (pe_count entry)) st)
      phase_plan (Ok (schedule, voter_index)) = Ok acc.
Proof.
  revert schedule voter_index. induction phase_plan as [| entry rest IH];
    intros schedule vi Hlen; [by eexists |].
  cbn [fold_left mbind result_bind bind]. cbn [planned_calls foldr] in Hlen.
  fold (planned_calls rest) in Hlen.
  destruct (expand_phase_enough voters entry (Z.to_nat (pe_count entry)) schedule vi)
    as [schedule' ->]; [lia |].
  apply IH. lia.
Qed.

Lemma expand_phase_raises (voters : list string) (entry : phase_entry) (n : nat)
    (acc : list sched_item * nat) (e : exn) :
  expand_phase voters entry n acc = Raise e -> e = IndexError.
Proof.
  revert acc. induction n as [| n IH]; intros [schedule vi]; [done |].
  cbn [expand_phase]. destruct (voters !! vi); [apply IH | by intros [= <-]].
Qed.

Lemma fold_expand_raises (voters : list string) (phase_plan : list phase_entry)
    (acc : list sched_item * nat) (e : exn) :
  fold_left
    (fun acc entry => st ← acc; expand_phase voters entry (Z.to_nat (pe_count entry)) st)
    phase_plan (Ok acc) = Raise e ->
  e = IndexError.
Proof.
  revert acc. induction phase_plan as [| entry rest IH]; intros acc; [done |].
  cbn [fold_left mbind result_bind bind].
  destruct (expand_phase voters entry (Z.to_nat (pe_count entry)) acc) as [acc' | e'] eqn:He.
  - apply IH.
  - rewrite fold_expand_raise. intros [= <-]. by eapply expand_phase_raises.
Qed.

Lemma build_schedule_enough (voters : list string) (phase_plan : list phase_entry) :
  Forall (fun entry => 0 <= pe_count entry) phase_plan ->
  total_required phase_plan <= Z.of_nat (length voters) ->
  exists schedule, build_schedule voters phase_plan = Ok schedule.
Proof.
  intros Hpos Hlen. unfold build_schedule. rewrite decide_False by lia.
  destruct (fold_expand_enough voters phase_plan [] O) as [acc ->].
  { rewrite <- (planned_calls_total _ Hpos) in Hlen. lia. }
  by eexists.
Qed.

Lemma build_schedule_raises (voters : list string) (phase_plan : list phase_entry) (e : exn) :
  build_schedule voters phase_plan = Raise e ->
  total_required phase_plan <= Z.of_nat (length voters) ->
  e = IndexError.
Proof.
  unfold build_schedule. intros Hb Hlen. rewrite decide_False in Hb by lia.
  destruct (fold_left _ phase_plan (Ok ([], O))) as [acc | e'] eqn:Hfold; [done |].
  injection Hb as <-. by eapply fold_expand_raises.
Qed.

Lemma schedule_accounts (voters : list string) (phase_plan : list phase_entry)
    (schedule : list sched_item) :
  build_schedule voters phase_plan = Ok schedule ->
  length schedule = length voters ->
  si_account <$> schedule = voters.
Proof.
  intros Hbuild Hlen. destruct (build_schedule_ok _ _ _ Hbuild) as (Hidx & Hacc & _).
  apply list_eq. intros i. rewrite list_lookup_fmap.
  destruct (schedule !! i) as [item |] eqn:Hi; cbn [fmap option_fmap option_map].
  - assert (Hii : si_index item = i).
    { assert (Hl : (si_index <$> schedule) !! i = Some (si_index item))
        by (by rewrite list_lookup_fmap, Hi).
      rewrite Hidx in Hl. apply lookup_seq in Hl. lia. }
    rewrite Forall_forall in Hacc. rewrite <- (Hacc item), Hii; [done |].
    by eapply list_elem_of_lookup_2.
  - symmetry. apply lookup_ge_None. apply lookup_ge_None in Hi. lia.
Qed.

Lemma sequential_run_rows (label_string : string) (start_overall : Q)
    (voters : list string) (obs : nat -> submit_obs) (receipt_workers : Z) (out : list row) :
  sequential_run label_string start_overall voters obs receipt_workers out ->
  row_key <$> out = sequential_keys voters.
Proof.
  intros (s & Hrun & Hterm & ->).
  exact (run_result_keys _ _ _ _ _ _ Hrun Hterm
           (sequential_actions_keys _ _ voters obs) (sequential_keys_indices voters)).
Qed.

Lemma sequential_keys_accounts (voters : list string) :
  (fun k : call_key => k.1.2) <$> sequential_keys voters = voters.
Proof.
  unfold sequential_keys. rewrite fmap_imap.
  rewrite (imap_ext _ (fun _ v => v)) by done.
  induction voters as [| v voters IH] using rev_ind; [done |].
  by rewrite imap_app, IH.
Qed.

Section Resolved.

Context (eth_accounts : reply (list pystr))
        (to_checksum_address : pystr -> reply pystr)
        (personal_new_account : nat -> reply pystr).

(** What [resolve_accounts] returns.  For [required >= 0] there are
    exactly [required] voters.  They are a prefix of the voters found (the
    checksummed entries of [--accounts], or else the node accounts other
    than the funder, or none under [--fresh-accounts]), followed by the
    accounts created; accounts are created only when the voters found are
    too few, then all of these are kept and the shortfall is created, the
    [i]-th account being the checksum of the node's [i]-th new account.
    The funder is a node account: the checksum of [--funder], or else the
    first one.  Unless unlocking is skipped, an unlock is requested for the
    funder and then for each voter. *)
Theorem resolved_voters (funder explicit_accounts : option pystr) (skip_unlock : bool)
    (required : Z) (fresh_accounts : bool) (acc : accounts) :
  resolve_accounts eth_accounts to_checksum_address personal_new_account
    funder explicit_accounts skip_unlock required fresh_accounts = Return acc ->
  exists accs chain_accounts found kept,
    eth_accounts = Reply accs
    /\ checksum_all to_checksum_address accs = Return chain_accounts
    /\ initial_voters to_checksum_address explicit_accounts fresh_accounts chain_accounts
         (ac_funder acc) found
    /\ kept `prefix_of` found
    /\ ac_voters acc = kept ++ ac_created acc
    /\ (ac_created acc <> [] -> kept = found)
    /\ Z.of_nat (length (ac_created acc)) = Z.max 0 (required - Z.of_nat (length found))
    /\ (0 <= required -> Z.of_nat (length (ac_voters acc)) = required)
    /\ (forall i account, ac_created acc !! i = Some account ->
          exists new_account,
            personal_new_account i = Reply new_account
            /\ to_checksum_address new_account = Reply account)
    /\ ac_funder acc ∈ chain_accounts
    /\ (forall text,
          truthy_text funder = Some text ->
          to_checksum_address text = Reply (ac_funder acc))
    /\ (truthy_text funder = None -> chain_accounts !! O = Some (ac_funder acc))
    /\ ac_unlock_requests acc
       = if skip_unlock then [] else ac_funder acc :: ac_voters acc.
Proof.
  intros Hres.
  destruct (resolve_accounts_inv _ _ _ _ _ _ _ _ _ Hres)
    as (accs & chain & found & new & Heth & Hchain & Hfin & Hf & Hinit & Hcr & Hv & Hlen
        & Hnew & Hun).
  destruct (slice_to_grown found new required Hlen) as (kept & Hpre & Hslice & Hall & Hcount).
  exists accs, chain, found, kept. rewrite Hcr, Hv, Hslice.
  split_and!; try done.
  - lia.
  - intros text Htext. by rewrite Htext in Hf.
  - intros Hnone. by rewrite Hnone in Hf.
  - by rewrite Hun, Hv, Hslice.
Qed.

(** Without [--accounts], no voter taken from the node is the funder,
    whatever the case of the letters of the two addresses: every voter is
    a node account whose lower-cased address differs from the funder's, or
    an account created by this call.  Under [--fresh-accounts] every voter
    was created by this call. *)
Theorem default_voters_exclude_funder (funder explicit_accounts : option pystr)
    (skip_unlock : bool) (required : Z) (fresh_accounts : bool) (acc : accounts) :
  resolve_accounts eth_accounts to_checksum_address personal_new_account
    funder explicit_accounts skip_unlock required fresh_accounts = Return acc ->
  truthy_text explicit_accounts = None ->
  (forall voter, voter ∈ ac_voters acc ->
     voter ∈ ac_created acc
     \/ (fresh_accounts = false
         /\ lower voter <> lower (ac_funder acc)
         /\ exists accs chain_accounts,
              eth_accounts = Reply accs
              /\ checksum_all to_checksum_address accs = Return chain_accounts
              /\ voter ∈ chain_accounts))
  /\ (fresh_accounts = true -> ac_voters acc = ac_created acc).
Proof.
  intros Hres Hnone.
  destruct (resolve_accounts_inv _ _ _ _ _ _ _ _ _ Hres)
    as (accs & chain & found & new & Heth & Hchain & Hfin & Hf & Hinit & Hcr & Hv & Hlen
        & Hnew & Hun).
  destruct (slice_to_grown found new required Hlen) as (kept & Hpre & Hslice & Hall & Hcount).
  unfold initial_voters in Hinit. rewrite Hnone in Hinit.
  rewrite Hcr, Hv, Hslice. split.
  - intros voter Hin. apply elem_of_app in Hin as [Hin | Hin]; [| by left].
    right. destruct Hpre as [rest Hrest].
    assert (Hfound : voter ∈ found) by (rewrite Hrest; apply elem_of_app; by left).
    rewrite Hinit in Hfound. destruct fresh_accounts; [by apply elem_of_nil in Hfound |].
    apply list_elem_of_filter in Hfound as [Hlow Hchainv]. split_and!; eauto.
  - intros ->. subst found. destruct Hpre as [rest Hrest].
    symmetry in Hrest. apply app_eq_nil in Hrest as [-> _]. done.
Qed.

Lemma grow_throw (found : outcome (list pystr)) (funder_account : pystr)
    (skip_unlock : bool) (required : Z) (r : raised) :
  (voters ← found;
   grown ←
     (if decide (Z.of_nat (length voters) < required)
      then create_accounts to_checksum_address personal_new_account
             (Z.to_nat (required - Z.of_nat (length voters))) 0 voters []
      else Return (voters, []));
   let voters := slice_to grown.1 required in
   Return (Accounts funder_account voters grown.2
             (if skip_unlock then [] else funder_account :: voters)))
  = Throw r ->
  found = Throw r
  \/ (r = Exn (ValueError msg_creation_failed)
      /\ exists i text, 0 <= Z.of_nat i < required /\ personal_new_account i = Fault text)
  \/ (exists account text, r = Web3Error text /\ to_checksum_address account = Fault text).
Proof.
  destruct found as [voters | r']; cbn [mbind outcome_bind]; [| intros [= ->]; by left].
  case_decide as Hfew; [| done].
  destruct (create_accounts _ _ _ _ _ _) as [grown | r'] eqn:Hcreate; [done |].
  cbn [mbind outcome_bind]. intros [= ->]. right.
  destruct (create_accounts_throw _ _ _ _ _ _ _ Hcreate)
    as [(-> & i & text & Hi & Hf) | Hsum]; [| by right].
  left. split; [done |]. exists i, text. split; [lia | done].
Qed.

(** Why [resolve_accounts] fails.  Its [RuntimeError] means that the
    node lists no account.  Its [ValueError]s mean that the checksum of
    [--funder] is not a node account, or that the node refused one of the
    account creations that the missing voters required.  Every other
    failure is an exception of web3: of the account listing or of a
    checksum conversion. *)
Theorem resolve_accounts_failure (funder explicit_accounts : option pystr)
    (skip_unlock : bool) (required : Z) (fresh_accounts : bool) (r : raised) :
  resolve_accounts eth_accounts to_checksum_address personal_new_account
    funder explicit_accounts skip_unlock required fresh_accounts = Throw r ->
  (r = RuntimeError msg_no_accounts /\ eth_accounts = Reply [])
  \/ (exists text funder_account,
        r = Exn (ValueError (msg_funder_unknown funder_account))
        /\ truthy_text funder = Some text
        /\ to_checksum_address text = Reply funder_account)
  \/ (r = Exn (ValueError msg_creation_failed)
      /\ exists i text, 0 <= Z.of_nat i < required /\ personal_new_account i = Fault text)
  \/ (exists text,
        r = Web3Error text
        /\ (eth_accounts = Fault text
            \/ exists account, to_checksum_address account = Fault text)).
Proof.
  unfold resolve_accounts. destruct eth_accounts as [accs | text];
    cbn [call mbind outcome_bind]; [| intros [= <-]; do 3 right; eauto].
  destruct (checksum_all to_checksum_address accs) as [chain_accounts | r'] eqn:Hchain.
  2: { intros [= ->]. destruct (checksum_all_throw _ _ _ Hchain) as (a & t & _ & -> & Hf).
       do 3 right. eauto. }
  destruct chain_accounts as [| first chain].
  { intros [= <-]. left. split; [done |]. destruct accs as [| a accs]; [done |].
    cbn [checksum_all] in Hchain. destruct (to_checksum_address a); [| done].
    cbn [call mbind outcome_bind] in Hchain.
    destruct (checksum_all to_checksum_address accs); done. }
  destruct (truthy_text funder) as [text |] eqn:Hfunder.
  - destruct (to_checksum_address text) as [fa | t] eqn:Hfa; cbn [call mbind outcome_bind];
      [| intros [= <-]; do 3 right; eauto].
    case_decide as Hin; cbn [mbind outcome_bind]; [intros [= <-]; right; left; eauto |].
    intros Hthrow. do 2 right. apply grow_throw in Hthrow as [Hfound | [Hc | Hw]].
    + right. destruct (truthy_text explicit_accounts) as [t |]; [| done].
      destruct (checksum_all_throw _ _ _ Hfound) as (a & tx & _ & -> & Hf). eauto.
    + by left.
    + right. destruct Hw as (a & tx & -> & Hf). eauto.
  - cbn [mbind outcome_bind]. intros Hthrow. do 2 right.
    apply grow_throw in Hthrow as [Hfound | [Hc | Hw]].
    + right. destruct (truthy_text explicit_accounts) as [t |]; [| done].
      destruct (checksum_all_throw _ _ _ Hfound) as (a & tx & _ & -> & Hf). eauto.
    + by left.
    + right. destruct Hw as (a & tx & -> & Hf). eauto.
Qed.


Lemma schedule_of_resolved (funder explicit_accounts : option pystr)
    (skip_unlock fresh_accounts : bool) (phase_plan : list phase_entry) (acc : accounts) :
  resolve_accounts eth_accounts to_checksum_address personal_new_account
    funder explicit_accounts skip_unlock (total_required phase_plan) fresh_accounts
  = Return acc ->
  Forall (fun entry => 0 <= pe_count entry) phase_plan ->
  exists schedule,
    build_schedule (account_name <$> ac_voters acc) phase_plan = Ok schedule
    /\ si_account <$> schedule = account_name <$> ac_voters acc
    /\ Z.of_nat (length schedule) = total_required phase_plan.
Proof.
  intros Hres Hpos.
  destruct (resolve_accounts_inv _ _ _ _ _ _ _ _ _ Hres)
    as (accs & chain & found & new & _ & _ & _ & _ & _ & _ & Hv & Hlen & _).
  destruct (slice_to_grown found new _ Hlen) as (kept & _ & Hslice & _ & Hcount).
  rewrite Hslice in Hv.
  assert (Htot : 0 <= total_required phase_plan).
  { rewrite <- (planned_calls_total _ Hpos). lia. }
  assert (Hvlen : Z.of_nat (length (account_name <$> ac_voters acc))
                  = total_required phase_plan).
  { rewrite length_fmap, Hv. by apply Hcount. }
  destruct (build_schedule_enough (account_name <$> ac_voters acc) phase_plan Hpos)
    as [schedule Hbuild]; [lia |].
  exists schedule. split; [done |].
  destruct (build_schedule_ok _ _ _ Hbuild) as (_ & _ & Hlens & _).
  assert (Htotal : Z.of_nat (length schedule) = total_required phase_plan).
  { rewrite Hlens. by apply planned_calls_total. }
  split; [| done]. apply (schedule_accounts _ phase_plan); [done |]. lia.
Qed.

(** [main] resolves as many voters as it is going to submit votes, so
    the schedule of the plan is filled exactly.  On the voters that
    [resolve_accounts] returns for the phase total, [build_schedule] never
    refuses the plan for want of voters; with no negative count it succeeds
    and every voter casts one vote, voter [i] the [i]-th; it can fail only
    with the [IndexError] of a plan that holds a negative count. *)
Theorem voters_fill_schedule (funder explicit_accounts : option pystr)
    (skip_unlock fresh_accounts : bool) (phase_plan : list phase_entry) (acc : accounts) :
  resolve_accounts eth_accounts to_checksum_address personal_new_account
    funder explicit_accounts skip_unlock (total_required phase_plan) fresh_accounts
  = Return acc ->
  (Forall (fun entry => 0 <= pe_count entry) phase_plan ->
   exists schedule,
     build_schedule (account_name <$> ac_voters acc) phase_plan = Ok schedule
     /\ si_account <$> schedule = account_name <$> ac_voters acc
     /\ Z.of_nat (length schedule) = total_required phase_plan)
  /\ (forall e,
        build_schedule (account_name <$> ac_voters acc) phase_plan = Raise e ->
        e = IndexError /\ Exists (fun entry => pe_count entry < 0) phase_plan).
Proof.
  intros Hres.
  split; [intros Hpos; exact (schedule_of_resolved _ _ _ _ _ _ Hres Hpos) |].
  destruct (resolve_accounts_inv _ _ _ _ _ _ _ _ _ Hres)
    as (accs & chain & found & new & _ & _ & _ & _ & _ & _ & Hv & Hlen & _).
  destruct (slice_to_grown found new _ Hlen) as (kept & _ & Hslice & _ & Hcount).
  rewrite Hslice in Hv.
  assert (Henough : total_required phase_plan
                    <= Z.of_nat (length (account_name <$> ac_voters acc))).
  { rewrite length_fmap, Hv.
    destruct (decide (0 <= total_required phase_plan)) as [Hpos | Hneg]; [| lia].
    rewrite (Hcount Hpos). lia. }
  intros e Hraise. split; [by eapply build_schedule_raises |].
  destruct (decide (Forall (fun entry => 0 <= pe_count entry) phase_plan)) as [Hall | Hsome].
  - destruct (schedule_of_resolved _ _ _ _ _ _ Hres Hall) as (schedule & Hbuild & _).
    congruence.
  - apply not_Forall_Exists in Hsome; [| apply _].
    eapply Exists_impl; [exact Hsome |]. intros entry Hentry. simpl in Hentry. lia.
Qed.

(** The number of transactions that [main] attempts.  Take the voters
    resolved for the effective [tx_count] (the phase total when there is a
    plan, the option otherwise), not negative, and no negative phase
    count.  Every full run of the benchmark returns [tx_count] rows: row
    [i] has index [i] and reports the vote of voter [i], so each resolved
    voter votes once.  The benchmark has a full run when no pause of the
    pacing is too long for [time.sleep], so always without a plan; when
    one is, the phased benchmark raises [OverflowError] and has no full
    run. *)
Theorem attempts_match_tx_count (label_string : string) (start_overall : Q)
    (funder explicit_accounts : option pystr) (skip_unlock fresh_accounts : bool)
    (phase_plan : option (list phase_entry)) (tx_count : Z) (acc : accounts)
    (obs : nat -> submit_obs) (receipt_workers : Z) :
  resolve_accounts eth_accounts to_checksum_address personal_new_account
    funder explicit_accounts skip_unlock (main_tx_count phase_plan tx_count) fresh_accounts
  = Return acc ->
  0 <= main_tx_count phase_plan tx_count ->
  Forall (fun entry => 0 <= pe_count entry) (plan_entries phase_plan) ->
  ((forall schedule,
      truthy_plan phase_plan = true ->
      build_schedule (account_name <$> ac_voters acc) (plan_entries phase_plan) = Ok schedule ->
      pauses_fit (phased_iterations label_string start_overall schedule obs)) ->
   exists out,
     main_benchmark label_string start_overall phase_plan
       (account_name <$> ac_voters acc) obs receipt_workers out)
  /\ (forall schedule e,
        truthy_plan phase_plan = true ->
        build_schedule (account_name <$> ac_voters acc) (plan_entries phase_plan) = Ok schedule ->
        phased_raises label_string start_overall schedule obs e ->
        e = OverflowError
        /\ forall out,
             ~ main_benchmark label_string start_overall phase_plan
                 (account_name <$> ac_voters acc) obs receipt_workers out)
  /\ forall out,
       main_benchmark label_string start_overall phase_plan
         (account_name <$> ac_voters acc) obs receipt_workers out ->
       Z.of_nat (length out) = main_tx_count phase_plan tx_count
       /\ r_index <$> out = seq 0 (length out)
       /\ r_account <$> out = account_name <$> ac_voters acc.
Proof.
  intros Hres Hpos Hcounts. unfold main_benchmark, main_tx_count in *.
  destruct (truthy_plan phase_plan) eqn:Hplan.
  - destruct (schedule_of_resolved _ _ _ _ _ _ Hres Hcounts)
      as (schedule & Hbuild & Hacc & Hlen).
    split; [| split].
    + intros Hfit.
      destruct (phased_run_exists label_string start_overall schedule obs receipt_workers
                  (Hfit schedule eq_refl Hbuild)) as [out Hrun].
      exists out, schedule. done.
    + intros schedule' e _ Hbuild' He.
      assert (schedule' = schedule) as -> by congruence.
      destruct (phased_raises_overflow _ _ _ _ receipt_workers _ He) as [-> Hno].
      split; [done |]. intros out (schedule' & Hbuild'' & Hrun).
      assert (schedule' = schedule) as -> by congruence. by apply (Hno out).
    + intros out (schedule' & Hbuild' & Hrun).
      assert (schedule' = schedule) as -> by congruence.
      pose proof (phased_run_keys _ _ _ _ _ _ _ _ Hbuild Hrun) as Hkeys.
      destruct (build_schedule_ok _ _ _ Hbuild) as (Hidx & _).
      destruct (keys_give_indices _ _ Hkeys (schedule_keys_indices schedule Hidx))
        as [Hl Hi].
      unfold schedule_keys in Hl, Hi. rewrite length_fmap in Hl, Hi.
      split; [by rewrite Hl |]. split; [by rewrite Hl |].
      rewrite <- Hacc.
      apply (f_equal (fmap (fun k : call_key => k.1.2))) in Hkeys.
      unfold schedule_keys in Hkeys. by rewrite <- !list_fmap_compose in Hkeys.
  - destruct (resolve_accounts_inv _ _ _ _ _ _ _ _ _ Hres)
      as (accs & chain & found & new & _ & _ & _ & _ & _ & _ & Hv & Hlen & _).
    destruct (slice_to_grown found new _ Hlen) as (kept & _ & Hslice & _ & Hcount).
    rewrite Hslice in Hv. split; [| split].
    + intros _.
      destruct (run_exists label_string start_overall
                  (sequential_actions label_string start_overall
                     (account_name <$> ac_voters acc) obs) receipt_workers)
        as (s & Hrun & Hterm).
      exists (sort_results (results s)). by exists s.
    + done.
    + intros out Hrun. pose proof (sequential_run_rows _ _ _ _ _ _ Hrun) as Hkeys.
      destruct (keys_give_indices _ _ Hkeys (sequential_keys_indices _)) as [Hl Hi].
      unfold sequential_keys in Hl, Hi. rewrite length_imap, length_fmap in Hl, Hi.
      split; [rewrite Hl, Hv; by apply Hcount |]. split; [by rewrite Hl |].
      apply (f_equal (fmap (fun k : call_key => k.1.2))) in Hkeys.
      rewrite sequential_keys_accounts, <- list_fmap_compose in Hkeys. done.
Qed.

End Resolved.

(** ** Block intervals *)

Lemma fold_min_spec (rest : list Q) (x : Q) :
  let m := fold_left (fun m y => if decide (y < m)%Q then y else m) rest x in
  (m = x \/ m ∈ rest) /\ (m <= x)%Q /\ (forall y, y ∈ rest -> (m <= y)%Q).
Proof.
  revert x. induction rest as [| y rest IH]; intros x; simpl.
  - split; [by left |]. split; [lra |]. intros y Hy. by apply elem_of_nil in Hy.
  - destruct (IH (if decide (y < x)%Q then y else x)) as (Hin & Hle & Hall).
    case_decide as Hxy.
    + split; [| split].
      * right. destruct Hin as [-> | Hin]; [left | by right].
      * lra.
      * intros z [-> | Hz]%elem_of_cons; [done | by apply Hall].
    + split; [| split].
      * destruct Hin as [-> | Hin]; [by left | right; by right].
      * done.
      * intros z [-> | Hz]%elem_of_cons; [lra | by apply Hall].
Qed.

Lemma py_min_spec (x : Q) (rest : list Q) :
  exists m, py_min (x :: rest) = Ok m /\ m ∈ x :: rest /\ (forall y, y ∈ x :: rest -> (m <= y)%Q).
Proof.
  destruct (fold_min_spec rest x) as (Hin & Hle & Hall).
  eexists. split; [reflexivity |]. split.
  - destruct Hin as [-> | Hin]; [left | by right].
  - intros y [-> | Hy]%elem_of_cons; [done | by apply Hall].
Qed.

Lemma Qlen_cons (x : Q) (l : list Q) : (Qlen (x :: l) == Qlen l + 1)%Q.
Proof.
  unfold Qlen. cbn [length]. rewrite Nat2Z.inj_succ, <- Z.add_1_r, inject_Z_plus. reflexivity.
Qed.

Lemma Qlen_nonneg (l : list Q) : (0 <= Qlen l)%Q.
Proof. unfold Qlen. change 0%Q with (inject_Z 0). rewrite <- Zle_Qle. lia. Qed.

Lemma Qsum_bounds (lo hi : Q) (l : list Q) :
  (forall y, y ∈ l -> (lo <= y <= hi)%Q) ->
  (lo * Qlen l <= Qsum l <= hi * Qlen l)%Q.
Proof.
  induction l as [| x l IH]; intros Hall.
  - unfold Qlen, Qsum. cbn [length foldr]. change (inject_Z (Z.of_nat 0)) with 0%Q. lra.
  - destruct IH as [IHlo IHhi]; [intros y Hy; apply Hall; by right |].
    destruct (Hall x) as [Hlo Hhi]; [left |].
    cbn [Qsum foldr]. fold (Qsum l). rewrite Qlen_cons. lra.
Qed.

Lemma mean_bounds (lo hi x : Q) (l : list Q) :
  (forall y, y ∈ x :: l -> (lo <= y <= hi)%Q) ->
  exists avg, mean (x :: l) = Ok avg /\ (lo <= avg <= hi)%Q.
Proof.
  intros Hall. eexists. split; [reflexivity |].
  destruct (Qsum_bounds lo hi (x :: l) Hall) as [Hlo Hhi].
  assert (Hpos : (0 < Qlen (x :: l))%Q).
  { rewrite Qlen_cons. pose proof (Qlen_nonneg l). lra. }
  split.
  - apply Qle_shift_div_l; [done | lra].
  - apply Qle_shift_div_r; [done | lra].
Qed.

Lemma intervals_length (scale : Q) (timestamps : list Z) :
  length (intervals scale timestamps) = (length timestamps - 1)%nat.
Proof.
  induction timestamps as [| a [| b rest] IH]; [done | done |].
  change (intervals scale (a :: b :: rest))
    with ((inject_Z (b - a) * scale)%Q :: intervals scale (b :: rest)).
  cbn [length] in *. rewrite IH. lia.
Qed.

Lemma last_cons_default {A : Type} (a b : A) (rest : list A) :
  List.last (b :: rest) a = List.last rest b.
Proof.
  revert a b. induction rest as [| c rest IH]; intros a b; [done |].
  change (List.last (b :: c :: rest) a) with (List.last (c :: rest) a). by rewrite !IH.
Qed.

(** The intervals telescope: their sum is the time from the first
    timestamp to the last. *)
Lemma intervals_sum (scale : Q) (first : Z) (rest : list Z) :
  (Qsum (intervals scale (first :: rest))
   == inject_Z (List.last rest first - first) * scale)%Q.
Proof.
  revert first. induction rest as [| b rest IH]; intros a.
  - cbn. rewrite Z.sub_diag. unfold Qsum. simpl. change (inject_Z 0) with 0%Q. lra.
  - change (intervals scale (a :: b :: rest))
      with ((inject_Z (b - a) * scale)%Q :: intervals scale (b :: rest)).
    cbn [Qsum foldr]. fold (Qsum (intervals scale (b :: rest))). rewrite IH.
    rewrite (last_cons_default a b rest). unfold Z.sub.
    rewrite !inject_Z_plus, !inject_Z_opp. lra.
Qed.

Section BlockFacts.

Context (block_number : reply Z) (get_block : Z -> reply (option block)).

Lemma collect_timestamps_reply (numbers timestamps timestamps' : list Z) :
  collect_timestamps get_block numbers timestamps = Reply timestamps' ->
  timestamps' = timestamps ++ window_timestamps get_block numbers
  /\ Forall (fun number => exists b, get_block number = Reply b) numbers.
Proof.
  revert timestamps. induction numbers as [| number rest IH]; intros timestamps.
  - intros [= <-]. split; [by rewrite app_nil_r | constructor].
  - cbn [collect_timestamps]. unfold window_timestamps. cbn [omap list_omap].
    fold (window_timestamps get_block rest).
    destruct (get_block number) as [[b |] | text] eqn:Hb; [| | done]; intros Hc.
    + destruct (IH _ Hc) as [-> Hall]. split; [by rewrite <- app_assoc |].
      constructor; eauto.
    + destruct (IH _ Hc) as [-> Hall]. split; [done |]. constructor; eauto.
Qed.

Lemma collect_timestamps_total (numbers timestamps : list Z) :
  Forall (fun number => exists b, get_block number = Reply b) numbers ->
  collect_timestamps get_block numbers timestamps
  = Reply (timestamps ++ window_timestamps get_block numbers).
Proof.
  revert timestamps. induction numbers as [| number rest IH]; intros timestamps Hall.
  - by rewrite app_nil_r.
  - apply Forall_cons in Hall as [[b Hb] Hall].
    cbn [collect_timestamps]. unfold window_timestamps. cbn [omap list_omap].
    fold (window_timestamps get_block rest). rewrite Hb.
    destruct b as [b |]; rewrite IH by done; [by rewrite <- app_assoc | done].
Qed.

Lemma collect_timestamps_fault (numbers timestamps : list Z) (text : pystr) :
  collect_timestamps get_block numbers timestamps = Fault text ->
  exists number, number ∈ numbers /\ get_block number = Fault text.
Proof.
  revert timestamps. induction numbers as [| number rest IH]; intros timestamps; [done |].
  cbn [collect_timestamps].
  destruct (get_block number) as [[b |] | text'] eqn:Hb; intros Hc.
  - destruct (IH _ Hc) as (n & Hin & Hn). exists n. split; [by right | done].
  - destruct (IH _ Hc) as (n & Hin & Hn). exists n. split; [by right | done].
  - injection Hc as ->. exists number. split; [left | done].
Qed.

Lemma sampled_blocks_range (latest sample_count number : Z) :
  number ∈ sampled_blocks latest sample_count ->
  0 <= number <= latest /\ latest - sample_count < number.
Proof. unfold sampled_blocks. rewrite elem_of_seqZ. lia. Qed.

(** The statistics of the intervals of at least two timestamps. *)
Lemma interval_statistics (scale : Q) (first second : Z) (rest : list Z) :
  exists avg lo hi,
    (avg ← mean (intervals scale (first :: second :: rest));
     lo ← py_min (intervals scale (first :: second :: rest));
     hi ← py_max (intervals scale (first :: second :: rest));
     Ok (avg, lo, hi)) = Ok (avg, lo, hi)
    /\ (avg * Qlen (intervals scale (first :: second :: rest))
        == inject_Z (List.last (second :: rest) first - first) * scale)%Q
    /\ lo ∈ intervals scale (first :: second :: rest)
    /\ hi ∈ intervals scale (first :: second :: rest)
    /\ (forall iv, iv ∈ intervals scale (first :: second :: rest) -> (lo <= iv <= hi)%Q)
    /\ (lo <= avg <= hi)%Q.
Proof.
  pose proof (intervals_sum scale first (second :: rest)) as Hsum.
  change (intervals scale (first :: second :: rest))
    with ((inject_Z (second - first) * scale)%Q :: intervals scale (second :: rest)) in *.
  set (x := (inject_Z (second - first) * scale)%Q) in *.
  set (l := intervals scale (second :: rest)) in *.
  destruct (py_min_spec x l) as (lo & Hlo & Hloin & Hlole).
  destruct (py_max_spec x l) as (hi & Hhi & Hhiin & Hhile).
  destruct (mean_bounds lo hi x l) as (avg & Havg & Hbounds).
  { intros y Hy. split; [by apply Hlole | by apply Hhile]. }
  exists avg, lo, hi. rewrite Havg, Hlo, Hhi. split; [done |].
  split; [| split; [done |]; split; [done |]; split; [| done];
             intros iv Hiv; split; [by apply Hlole | by apply Hhile]].
  injection Havg as <-. rewrite <- Hsum.
  assert (Hpos : (0 < Qlen (x :: l))%Q).
  { rewrite Qlen_cons. pose proof (Qlen_nonneg l). lra. }
  change (Qsum (x :: l)) with (x + Qsum l)%Q.
  rewrite Qmult_comm, Qmult_div_r; [reflexivity | lra].
Qed.

(** The shape of what [fetch_block_stats] returns, whatever the node
    does.  The latest block number is missing exactly when reading it
    failed.  The average, the minimum and the maximum are all three
    present or all three absent, which is what the report relies on when
    it formats the minimum and the maximum as soon as there is an average;
    when present there is no error and minimum <= average <= maximum.  An
    error is always one of the node: of the block number, or of a block of
    the window, whose number is between 0 and the latest and among the
    last [sample_count]; in the exact arithmetic of the model the
    statistics themselves never fail. *)
Theorem block_stats_shape (sample_count : Z) (consensus_hint : option pystr) :
  exists st,
    fetch_block_stats block_number get_block sample_count consensus_hint = st
    /\ (bs_latest st = None <-> exists text, block_number = Fault text)
    /\ ((bs_avg st = None /\ bs_min st = None /\ bs_max st = None)
        \/ (exists avg lo hi,
              bs_avg st = Some avg /\ bs_min st = Some lo /\ bs_max st = Some hi
              /\ bs_error st = None /\ (lo <= avg <= hi)%Q))
    /\ (forall e, bs_error st <> Some (PythonError e))
    /\ (forall text,
          bs_error st = Some (NodeError text) ->
          block_number = Fault text
          \/ exists latest number,
               block_number = Reply latest /\ get_block number = Fault text
               /\ 0 <= number <= latest /\ latest - sample_count < number).
Proof.
  eexists. split; [reflexivity |]. unfold fetch_block_stats.
  destruct block_number as [latest | text] eqn:Hbn.
  2: { cbn. split_and!; try done.
       - split; [eauto | done].
       - by left.
       - intros t [= ->]. by left. }
  destruct (collect_timestamps get_block (sampled_blocks latest sample_count) [])
    as [timestamps | text] eqn:Hc.
  2: { cbn. split_and!; try done.
       - split; [done | by intros [? ?]].
       - by left.
       - intros t [= ->]. right.
         destruct (collect_timestamps_fault _ _ _ Hc) as (n & Hin & Hn).
         apply sampled_blocks_range in Hin. exists latest, n. done. }
  assert (Hlatest : forall a b c d,
             bs_latest (BlockStats (Some latest) a b c d) = None
             <-> exists text : pystr, Reply latest = Fault text).
  { intros. cbn. split; [done | by intros [? ?]]. }
  case_decide as Hfew.
  { cbn [bs_avg bs_min bs_max bs_error]. split_and!; try done. by left. }
  destruct timestamps as [| first [| second rest]]; [simpl in Hfew; lia .. |].
  destruct (interval_statistics (interval_scale consensus_hint) first second rest)
    as (avg & lo & hi & Hst & _ & _ & _ & _ & Hb).
  cbn zeta.
  change (intervals (interval_scale consensus_hint) (first :: second :: rest))
    with ((inject_Z (second - first) * interval_scale consensus_hint)%Q
          :: intervals (interval_scale consensus_hint) (second :: rest)) in *.
  lazy beta iota. rewrite Hst. cbn [bs_avg bs_min bs_max bs_error]. split_and!; try done.
  right. exists avg, lo, hi. done.
Qed.

(** The block statistics on a window whose blocks the node all serves.
    With fewer than two timestamps (of truthy blocks) all three statistics
    are absent, without error.  Otherwise they are those of the intervals
    between consecutive timestamps, scaled by [1e-9] under the [raft] hint:
    the average times the number of intervals is the time from the first
    timestamp to the last, so it depends on the two ends and the number of
    blocks only; minimum and maximum are intervals of the window and bound
    all of them. *)
Theorem block_interval_average (sample_count : Z) (consensus_hint : option pystr)
    (latest : Z) :
  block_number = Reply latest ->
  Forall (fun number => exists b, get_block number = Reply b)
    (sampled_blocks latest sample_count) ->
  let timestamps := window_timestamps get_block (sampled_blocks latest sample_count) in
  let ivs := intervals (interval_scale consensus_hint) timestamps in
  ((length timestamps < 2)%nat ->
   fetch_block_stats block_number get_block sample_count consensus_hint
   = BlockStats (Some latest) None None None None)
  /\ ((2 <= length timestamps)%nat ->
      exists avg lo hi,
        fetch_block_stats block_number get_block sample_count consensus_hint
        = BlockStats (Some latest) (Some avg) (Some lo) (Some hi) None
        /\ length ivs = (length timestamps - 1)%nat
        /\ (avg * Qlen ivs
            == inject_Z (List.last timestamps 0%Z - List.hd 0%Z timestamps)
               * interval_scale consensus_hint)%Q
        /\ lo ∈ ivs /\ hi ∈ ivs
        /\ (forall iv, iv ∈ ivs -> (lo <= iv <= hi)%Q)).
Proof.
  intros Hbn Hall. cbn zeta. unfold fetch_block_stats. rewrite Hbn.
  rewrite (collect_timestamps_total _ [] Hall). cbn [app].
  set (timestamps := window_timestamps get_block (sampled_blocks latest sample_count)).
  split.
  - intros Hfew. by rewrite decide_True.
  - intros Hmany. rewrite decide_False by lia.
    destruct timestamps as [| first [| second rest]]; [simpl in Hmany; lia .. |].
    destruct (interval_statistics (interval_scale consensus_hint) first second rest)
      as (avg & lo & hi & Hst & Havg & Hlo & Hhi & Hbounds & _).
    exists avg, lo, hi. rewrite intervals_length.
    change (intervals (interval_scale consensus_hint) (first :: second :: rest))
      with ((inject_Z (second - first) * interval_scale consensus_hint)%Q
            :: intervals (interval_scale consensus_hint) (second :: rest)) in *.
    lazy beta iota. rewrite Hst. split_and!; try done.
    by rewrite (last_cons_default 0 first (second :: rest)).
Qed.

End BlockFacts.

(** ** The report file *)

Lemma sanitize_char_kept (char : ascii) :
  kept (if kept char then char else "_"%char) = true.
Proof. destruct (kept char) eqn:H; [done | reflexivity]. Qed.

Lemma sanitize_component_kept (value : pystr) :
  Forall (fun char => kept char = true) (sanitize_component value).
Proof.
  unfold sanitize_component. apply Forall_fmap, Forall_forall. intros char _.
  apply sanitize_char_kept.
Qed.

Lemma sanitize_component_fixed (value : pystr) :
  sanitize_component value = value <-> Forall (fun char => kept char = true) value.
Proof.
  unfold sanitize_component. induction value as [| char value IH]; [done |].
  cbn [fmap list_fmap]. rewrite Forall_cons, <- IH. split.
  - intros [= Hc Hv]. split; [| done].
    destruct (kept char) eqn:Hk; [done |]. by rewrite <- Hc in Hk.
  - intros [-> ->]. done.
Qed.

(** What [sanitize_component] returns: a text of the same length whose
    characters are all alphanumeric, [-] or [_], so without path
    separator, dot or blank; the characters that were so already stay
    where they are, a text is left unchanged exactly when all its
    characters are so, and sanitizing twice changes nothing more. *)
Theorem sanitize_component_safe (value : pystr) :
  length (sanitize_component value) = length value
  /\ Forall (fun char => kept char = true) (sanitize_component value)
  /\ (slash ∉ sanitize_component value)
  /\ ("."%char ∉ sanitize_component value)
  /\ Forall (fun char => is_space char = false) (sanitize_component value)
  /\ (forall (i : nat) (char : ascii),
        value !! i = Some char ->
        sanitize_component value !! i = Some (if kept char then char else "_"%char))
  /\ (sanitize_component value = value <-> Forall (fun char => kept char = true) value)
  /\ sanitize_component (sanitize_component value) = sanitize_component value.
Proof.
  pose proof (sanitize_component_kept value) as Hkept.
  split_and!.
  - unfold sanitize_component. by rewrite length_fmap.
  - done.
  - intros Hin. rewrite Forall_forall in Hkept. by specialize (Hkept _ Hin).
  - intros Hin. rewrite Forall_forall in Hkept. by specialize (Hkept _ Hin).
  - eapply Forall_impl; [exact Hkept |]. intros char Hc.
    destruct (is_space char) eqn:Hs; [| done].
    unfold is_space in Hs. unfold kept, is_alnum, ascii_eqb in Hc.
    cbv zeta in Hs, Hc. change (code "-") with 45%nat in Hc.
    change (code "_") with 95%nat in Hc.
    repeat first [rewrite andb_true_iff in Hs | rewrite orb_true_iff in Hs
                 | rewrite Nat.leb_le in Hs | rewrite Nat.eqb_eq in Hs].
    repeat first [rewrite andb_true_iff in Hc | rewrite orb_true_iff in Hc
                 | rewrite negb_true_iff in Hc | rewrite Nat.eqb_neq in Hc
                 | rewrite Nat.leb_le in Hc | rewrite Nat.eqb_eq in Hc].
    lia.
  - intros i char Hi. unfold sanitize_component. by rewrite list_lookup_fmap, Hi.
  - apply sanitize_component_fixed.
  - by apply sanitize_component_fixed.
Qed.

Lemma report_name_slash (stem : pystr) (attempt : nat) :
  startswith (report_name stem attempt) [slash] = startswith (stem ++ str ".md") [slash].
Proof.
  destruct attempt; [done |]. destruct stem as [| a stem]; [reflexivity |].
  unfold report_name. cbn [app startswith].
  by destruct (stem ++ _), (stem ++ _).
Qed.

Lemma report_name_inj (stem : pystr) (i j : nat) :
  report_name stem i = report_name stem j -> i = j.
Proof.
  destruct i as [| i], j as [| j]; unfold report_name; intros H;
    apply app_inv_head in H; [done | done | done |].
  apply (app_inv_head (str "_run")) in H. apply app_inv_tail, show_Z_inj in H. lia.
Qed.

Lemma report_path_inj (report_dir stem : pystr) (i j : nat) :
  path_join report_dir (report_name stem i) = path_join report_dir (report_name stem j) ->
  i = j.
Proof.
  unfold path_join. rewrite !report_name_slash.
  destruct (startswith (stem ++ str ".md") [slash]); [exact (report_name_inj stem i j) |].
  destruct (bool_decide (report_dir = []) || endswith report_dir [slash]); intros H;
    apply app_inv_head in H; [| injection H as H]; exact (report_name_inj stem i j H).
Qed.

Lemma least_free (P : nat -> bool) (n : nat) :
  P n = false ->
  exists m, (m <= n)%nat /\ P m = false /\ forall j, (j < m)%nat -> P j = true.
Proof.
  revert P. induction n as [| n IH]; intros P Hn.
  - exists O. split_and!; [done | done | intros j Hj; lia].
  - destruct (P O) eqn:H0.
    + destruct (IH (fun k => P (S k)) Hn) as (m & Hle & Hm & Hbelow).
      exists (S m). split_and!; [lia | done |].
      intros [| j] Hj; [done | apply Hbelow; lia].
    + exists O. split_and!; [lia | done | intros j Hj; lia].
Qed.

Lemma some_free (existing candidates : list pystr) (P : pystr -> bool) :
  NoDup candidates ->
  (forall p, p ∈ candidates -> P p = true -> p ∈ existing) ->
  (length existing < length candidates)%nat ->
  exists p, p ∈ candidates /\ P p = false.
Proof.
  intros Hnd Hin Hlen.
  destruct (decide (Forall (fun p => P p = true) candidates)) as [Hall | Hsome].
  - rewrite Forall_forall in Hall.
    assert (Hsub : candidates ⊆+ existing).
    { apply NoDup_submseteq; [done |]. intros p Hp. apply Hin; [done | by apply Hall]. }
    apply submseteq_length in Hsub. lia.
  - apply not_Forall_Exists in Hsome; [| apply _]. apply Exists_exists in Hsome.
    destruct Hsome as (p & Hp & HP). exists p. split; [done |].
    cbn in HP. by destruct (P p).
Qed.

Section ReportFacts.

Context (ensure_directory : pystr -> reply ()) (path_exists : pystr -> bool).

Lemma free_candidate_least (report_dir stem : pystr) (n : nat) :
  forall (i fuel : nat),
    path_exists (path_join report_dir (report_name stem (i + n))) = false ->
    (forall j, (j < n)%nat ->
               path_exists (path_join report_dir (report_name stem (i + j))) = true) ->
    (n <= fuel)%nat ->
    free_candidate path_exists fuel report_dir stem (Z.of_nat i + 2)
      (path_join report_dir (report_name stem i))
    = Some (path_join report_dir (report_name stem (i + n))).
Proof.
  induction n as [| n IH]; intros i fuel Hfree Hbelow Hfuel.
  - rewrite Nat.add_0_r in *. destruct fuel; cbn [free_candidate]; by rewrite Hfree.
  - destruct fuel as [| fuel]; [lia |]. cbn [free_candidate].
    pose proof (Hbelow O ltac:(lia)) as H0. rewrite Nat.add_0_r in H0. rewrite H0.
    replace (Z.of_nat i + 2 + 1) with (Z.of_nat (S i) + 2) by lia.
    replace (stem ++ str "_run" ++ show_Z (Z.of_nat i + 2) ++ str ".md")
      with (report_name stem (S i))
      by (unfold report_name; by replace (Z.of_nat (S i) + 1) with (Z.of_nat i + 2) by lia).
    replace (i + S n)%nat with (S i + n)%nat in * by lia.
    apply IH; [done | | lia].
    intros j Hj. replace (S i + j)%nat with (i + S j)%nat by lia. apply Hbelow. lia.
Qed.

(** The report never takes the path of a file that is there.  When the
    directory step succeeds and the paths tried that exist are among
    finitely many, [existing], the loop of [generate_report_filename]
    ends within [length existing] turns; the path returned does not
    exist, and it is the first such in the order base name, [_run2],
    [_run3], ...: every path tried before it exists. *)
Theorem report_path_is_free (existing : list pystr) (fuel : nat)
    (report_dir timestamp consensus : pystr) (phase_plan : option (list phase_entry)) :
  let tried attempt :=
    path_join report_dir (report_name (report_stem timestamp consensus phase_plan) attempt) in
  ensure_directory report_dir = Reply () ->
  (forall attempt, path_exists (tried attempt) = true -> tried attempt ∈ existing) ->
  (length existing <= fuel)%nat ->
  exists attempt,
    (attempt <= length existing)%nat
    /\ generate_report_filename ensure_directory path_exists fuel
         report_dir timestamp consensus phase_plan
       = Some (Reply (tried attempt))
    /\ path_exists (tried attempt) = false
    /\ forall earlier, (earlier < attempt)%nat -> path_exists (tried earlier) = true.
Proof.
  intros tried Hdir Hfinite Hfuel.
  destruct (some_free existing (tried <$> seq 0 (S (length existing))) path_exists)
    as (p & Hp & Hfree).
  { apply NoDup_fmap_2; [| apply NoDup_seq].
    intros i j Hij. by apply report_path_inj in Hij. }
  { intros p (attempt & -> & _)%list_elem_of_fmap. apply Hfinite. }
  { rewrite length_fmap, length_seq. lia. }
  apply list_elem_of_fmap in Hp as (k & -> & Hk). apply elem_of_seq in Hk.
  destruct (least_free (fun attempt => path_exists (tried attempt)) k Hfree)
    as (attempt & Hle & Hattempt & Hbelow).
  exists attempt. split_and!; [lia | | done | done].
  unfold generate_report_filename. rewrite Hdir. cbv zeta.
  change (path_join report_dir (report_stem timestamp consensus phase_plan ++ str ".md"))
    with (tried O).
  change 2 with (Z.of_nat O + 2).
  unfold tried. rewrite (free_candidate_least _ _ attempt O fuel); [done | done | done | lia].
Qed.

End ReportFacts.

(** ** The properties on sample inputs *)

(** [phase_plan_failure] on one phase with two labels. *)
Lemma phase_plan_failure_two_labels :
  exists msg, ValueError msg_label_count = ValueError msg.
Proof.
  destruct (phase_plan_failure (Some [str "10@2tps"]) (Some (str "a,b"))
              (ValueError msg_label_count)) as [Hmsg _];
    [vm_compute; reflexivity | exact Hmsg].
Defined.

(** [default_labels_distinct] on two phases. *)
Lemma default_labels_distinct_two_phases :
  pe_label <$> sample_plan = ["phase1"; "phase2"]%string
  /\ NoDup (pe_label <$> sample_plan).
Proof.
  destruct (default_labels_distinct [str "2@2tps"; str "1@0.5s"] None sample_plan)
    as (Hlabels & Hnd & _); [reflexivity | vm_compute; reflexivity |].
  split; [exact Hlabels | exact Hnd].
Defined.

(** [phase_results_counts] on a success and a failure of [phase1]. *)
Lemma phase_results_counts_two_rows :
  phase_line (main_phase_results (Some sample_plan) sample_rows) "phase1"
  = PhaseCounts 2 1 1.
Proof.
  destruct (phase_results_counts (Some sample_plan) sample_rows "phase1")
    as (_ & Hline & _); [reflexivity |].
  exact Hline.
Defined.

(** [phase_results_add_up] on the same rows, run in one second. *)
Lemma phase_results_add_up_two_rows :
  exists sm,
    main_summary sample_rows 1 = Ok sm
    /\ table_sum pc_total (main_phase_results (Some sample_plan) sample_rows)
       = sm_tx_count sm.
Proof.
  destruct (main_summary sample_rows 1) as [sm | e] eqn:Hsm;
    [| vm_compute in Hsm; discriminate Hsm].
  exists sm. split; [reflexivity |].
  destruct (phase_results_add_up (Some sample_plan) sample_rows 1 sm) as [Htotal _];
    [reflexivity | exact Hsm | exact Htotal].
Defined.

(** [submitted_meets_target] on a run of the sample plan with three
    voters. *)
Lemma submitted_meets_target_three_votes :
  exists out,
    build_schedule ["0xA1"; "0xB2"; "0xC3"]%string sample_plan = Ok sample_schedule
    /\ phased_run "bench" 0 sample_schedule (fun _ => SubmitObs 0 0 (Sent "0x01") 0 0) 1 out
    /\ forall label,
         pc_total (phase_line (main_phase_results (Some sample_plan) out) label)
         = target_calls label sample_plan.
Proof.
  destruct (phased_run_exists "bench" 0 sample_schedule
              (fun _ => SubmitObs 0 0 (Sent "0x01") 0 0) 1) as [out Hrun];
    [vm_compute; repeat constructor |].
  exists out. split; [vm_compute; reflexivity |]. split; [exact Hrun |].
  destruct (submitted_meets_target "bench" 0 ["0xA1"; "0xB2"; "0xC3"]%string sample_plan
              sample_schedule (fun _ => SubmitObs 0 0 (Sent "0x01") 0 0) 1 out)
    as [Htotal _];
    [repeat constructor; discriminate | vm_compute; reflexivity | exact Hrun | exact Htotal].
Defined.

(** [resolved_voters] on the sample node, for three voters: the two
    node accounts other than the funder and one new account. *)
Lemma resolved_voters_three :
  ac_voters sample_resolved = [str "0xA1"; str "0xB2"] ++ ac_created sample_resolved
  /\ Z.of_nat (length (ac_voters sample_resolved)) = 3.
Proof.
  destruct (resolved_voters sample_eth_accounts sample_checksum sample_new_account
              None None false 3 false sample_resolved)
    as (accs & chain_accounts & found & kept & _ & _ & _ & _ & _ & _ & _ & Hlen & _);
    [vm_compute; reflexivity |].
  split; [reflexivity | apply Hlen; lia].
Defined.

(** [default_voters_exclude_funder] on the sample node. *)
Lemma default_voters_exclude_funder_three :
  Forall (fun voter => voter ∈ ac_created sample_resolved
                       \/ lower voter <> lower (ac_funder sample_resolved))
    (ac_voters sample_resolved).
Proof.
  destruct (default_voters_exclude_funder sample_eth_accounts sample_checksum
              sample_new_account None None false 3 false sample_resolved)
    as [Hvoters _]; [vm_compute; reflexivity | reflexivity |].
  apply Forall_forall. intros voter Hin.
  destruct (Hvoters voter Hin) as [Hc | (_ & Hl & _)]; [left; exact Hc | right; exact Hl].
Defined.

(** [resolve_accounts_failure] on a funder that the sample node does
    not list. *)
Lemma resolve_accounts_failure_unknown_funder :
  exists r,
    resolve_accounts sample_eth_accounts sample_checksum sample_new_account
      (Some (str "0xEE")) None false 3 false = Throw r
    /\ ((r = RuntimeError msg_no_accounts /\ sample_eth_accounts = Reply [])
        \/ (exists text funder_account,
              r = Exn (ValueError (msg_funder_unknown funder_account))
              /\ truthy_text (Some (str "0xEE")) = Some text
              /\ sample_checksum text = Reply funder_account)
        \/ (r = Exn (ValueError msg_creation_failed)
            /\ exists i text, 0 <= Z.of_nat i < 3 /\ sample_new_account i = Fault text)
        \/ (exists text,
              r = Web3Error text
              /\ (sample_eth_accounts = Fault text
                  \/ exists account, sample_checksum account = Fault text))).
Proof.
  exists (Exn (ValueError (msg_funder_unknown (str "0xEE")))).
  split; [vm_compute; reflexivity |].
  apply (resolve_accounts_failure sample_eth_accounts sample_checksum sample_new_account
           (Some (str "0xEE")) None false 3 false).
  vm_compute. reflexivity.
Defined.

(** [voters_fill_schedule] on the sample node and plan. *)
Lemma voters_fill_schedule_three :
  exists schedule,
    build_schedule (account_name <$> ac_voters sample_resolved) sample_plan = Ok schedule
    /\ Z.of_nat (length schedule) = 3.
Proof.
  destruct (voters_fill_schedule sample_eth_accounts sample_checksum
              sample_new_account None None false false sample_plan sample_resolved)
    as [Hfill _]; [vm_compute; reflexivity |].
  destruct Hfill as (schedule & Hbuild & _ & Hlen);
    [repeat constructor; vm_compute; discriminate |].
  exists schedule. split; [exact Hbuild | exact Hlen].
Defined.

(** [attempts_match_tx_count] on the sample node and plan. *)
Lemma attempts_match_tx_count_three :
  exists out,
    main_benchmark "bench" 0 (Some sample_plan) (account_name <$> ac_voters sample_resolved)
      (fun _ => SubmitObs 0 0 (Sent "0x01") 0 0) 1 out
    /\ Z.of_nat (length out) = 3.
Proof.
  destruct (attempts_match_tx_count sample_eth_accounts sample_checksum sample_new_account
              "bench" 0 None None false false (Some sample_plan) 7 sample_resolved
              (fun _ => SubmitObs 0 0 (Sent "0x01") 0 0) 1)
    as (Hex & _ & Hrows);
    [vm_compute; reflexivity | vm_compute; discriminate
    | repeat constructor; vm_compute; discriminate |].
  destruct Hex as [out Hout].
  { intros schedule _ Hbuild. vm_compute in Hbuild. injection Hbuild as <-.
    vm_compute. repeat constructor. }
  exists out. split; [exact Hout |]. destruct (Hrows out Hout) as [Hlen _]. exact Hlen.
Defined.

(** [block_interval_average] on the sample chain: three blocks twelve
    seconds apart. *)
Lemma block_interval_average_three_blocks :
  exists avg lo hi,
    fetch_block_stats (Reply 2) sample_get_block 50 None
    = BlockStats (Some 2) (Some avg) (Some lo) (Some hi) None
    /\ (avg * (2 # 1) == 24 # 1)%Q.
Proof.
  destruct (block_interval_average (Reply 2) sample_get_block 50 None 2)
    as [_ Hmany];
    [reflexivity | apply Forall_forall; intros number _; eexists; reflexivity |].
  destruct Hmany as (avg & lo & hi & Hstats & _ & Havg & _); [vm_compute; lia |].
  exists avg, lo, hi. split; [exact Hstats | exact Havg].
Defined.

(** [report_path_is_free] in a directory that holds the report of an
    earlier run. *)
Lemma report_path_is_free_second_run :
  exists attempt,
    (attempt <= 1)%nat
    /\ generate_report_filename (fun _ => Reply ()) sample_path_exists 1
         (str "/reports") (str "20240501T101500Z") (str "Raft") (Some sample_plan)
       = Some (Reply (path_join (str "/reports")
                        (report_name
                           (report_stem (str "20240501T101500Z") (str "Raft")
                              (Some sample_plan))
                           attempt)))
    /\ sample_path_exists
         (path_join (str "/reports")
            (report_name
               (report_stem (str "20240501T101500Z") (str "Raft") (Some sample_plan))
               attempt)) = false.
Proof.
  destruct (report_path_is_free (fun _ => Reply ()) sample_path_exists
              [str "/reports/20240501_raft_phase.md"] 1
              (str "/reports") (str "20240501T101500Z") (str "Raft") (Some sample_plan))
    as (attempt & Hle & Hpath & Hfree & _);
    [reflexivity
    | intros attempt Hexists; apply bool_decide_eq_true in Hexists; rewrite Hexists; left
    | simpl; lia |].
  exists attempt. split; [exact Hle |]. split; [exact Hpath | exact Hfree].
Defined.
